(** * pytube: range streaming, sequential segments and playlist pagination

    A shallow embedding of [pytube/request.py] and of the pagination part of
    [pytube/contrib/playlist.py], with the properties of the streaming
    downloader and of the pagination engine stated and proved about it.

    Python values are modelled as follows: [int] is [Z]; [str] is [string]
    (the ASCII fragment); [bytes] is [list byte]; a [dict] is an association
    list in insertion order; exceptions are the constructors of [exn]; an
    [async] generator is the trace of its events (requests sent, values
    yielded) together with the way it ended. *)

From Stdlib Require Import ZArith List String Ascii Bool Lia DecimalString.
From Stdlib.Strings Require Import Byte.
Import ListNotations.

Open Scope string_scope.
Open Scope list_scope.
Open Scope Z_scope.

(* ================================================================= *)
(** * Part I: definitions *)
(* ================================================================= *)

(** ** Exceptions *)

(** The [reason] attribute of a [urllib.error.URLError]. *)
Inductive url_reason : Type :=
| SocketTimeout
| OtherReason (msg : string).

Inductive exn : Type :=
| MaxRetriesExceeded
| PytubeError (msg : string)
| RegexMatchError (caller pattern : string)
| ValueError (msg : string)
| KeyError
| IndexError
| TypeError
| UnboundLocalError (name : string)
| URLError (reason : url_reason)
| OtherException (name : string).

(** What [session.request] itself may raise. An [aiohttp] session raises
    [InvalidURL], [asyncio.TimeoutError] and its client errors, the last two
    under [TOther]; [TURLError] is the [urllib.error.URLError] that the
    [except] clause of [stream] names. *)
Inductive transport_exn : Type :=
| TInvalidURL
| TURLError (reason : url_reason)
| TOther (name : string).

Inductive result (X : Type) : Type :=
| Ok (x : X)
| Err (e : exn).
Arguments Ok {X} x.
Arguments Err {X} e.

Definition rbind {X Y : Type} (r : result X) (k : X -> result Y) : result Y :=
  match r with
  | Ok x => k x
  | Err e => Err e
  end.

Definition bytes : Type := list byte.

(** ** Python built-ins on strings and integers *)

Module Py.

Definition ascii_lower (c : ascii) : ascii :=
  let n := nat_of_ascii c in
  if (Nat.leb 65 n && Nat.leb n 90)%bool then ascii_of_nat (n + 32) else c.

(** [str.lower], on ASCII. *)
Fixpoint lower (s : string) : string :=
  match s with
  | EmptyString => EmptyString
  | String c r => String (ascii_lower c) (lower r)
  end.

(** [s.startswith(p)] *)
Definition startswith (s p : string) : bool := String.prefix p s.

Fixpoint rev_string (acc : list ascii) : string :=
  match acc with
  | [] => EmptyString
  | c :: r => (rev_string r ++ String c EmptyString)%string
  end.

(** [s.split(sep)] for a non-empty separator: [skip] counts the characters
    of a separator occurrence that are still to be dropped, [cur] holds the
    current field, reversed. *)
Fixpoint split_go (sep : string) (skip : nat) (cur : list ascii) (s : string)
  : list string :=
  match s with
  | EmptyString => [rev_string cur]
  | String c r =>
      match skip with
      | S k => split_go sep k cur r
      | O =>
          if String.prefix sep s
          then rev_string cur :: split_go sep (String.length sep - 1) [] r
          else split_go sep 0 (c :: cur) r
      end
  end.

Definition split (s sep : string) : list string := split_go sep 0 [] s.

(** [b.split(sep)] on bytes. *)
Definition bytes_split (b sep : bytes) : list bytes :=
  map list_byte_of_string
      (split (string_of_list_byte b) (string_of_list_byte sep)).

Definition is_digit (c : ascii) : bool :=
  let n := nat_of_ascii c in (Nat.leb 48 n && Nat.leb n 57)%bool.

Definition digit_value (c : ascii) : Z := Z.of_nat (nat_of_ascii c) - 48.

(** White space as [int] sees it in ASCII text and in [bytes]: tab, line
    feed, vertical tab, form feed, carriage return and space. The
    separators [0x1c] to [0x1f], which [str.strip] removes, are not part of
    it. *)
Definition is_space (c : ascii) : bool :=
  let n := nat_of_ascii c in
  ((Nat.leb 9 n && Nat.leb n 13) || Nat.eqb n 32)%bool.

Fixpoint lstrip (s : string) : string :=
  match s with
  | EmptyString => EmptyString
  | String c r => if is_space c then lstrip r else s
  end.

(** [str(n)] for an integer, as an f-string formats it. The conversion has
    the limit of [int], which the integers formatted here do not reach:
    offsets below a size that [int] has read or below [default_range_size],
    and values that [json.loads] has built. *)
Definition str_of_int (n : Z) : string := NilZero.string_of_int (Z.to_int n).

(** [sys.get_int_max_str_digits()], at its default: the limit that CPython
    puts on the conversions between [int] and [str]. [int] refuses a string
    with more digits. *)
Definition int_max_str_digits : Z := 4300.

(** The digits at the head of [s] after a first digit, one underscore
    allowed between two digits: their value added to [acc], their number
    added to [digits], and what follows them; [None] when an underscore is
    not followed by a digit. *)
Fixpoint scan_digits (acc digits : Z) (s : string)
  : option (Z * Z * string) :=
  match s with
  | EmptyString => Some (acc, digits, EmptyString)
  | String c r =>
      if is_digit c
      then scan_digits (10 * acc + digit_value c) (digits + 1) r
      else if Ascii.eqb c "_"
           then match r with
                | String d r' =>
                    if is_digit d
                    then scan_digits (10 * acc + digit_value d) (digits + 1) r'
                    else None
                | EmptyString => None
                end
           else Some (acc, digits, s)
  end.

Definition invalid_literal : exn :=
  ValueError "invalid literal for int() with base 10".

Definition exceeds_limit (digits : Z) : exn :=
  ValueError
    ("Exceeds the limit (" ++ str_of_int int_max_str_digits
     ++ " digits) for integer string conversion: value has "
     ++ str_of_int digits
     ++ " digits; use sys.set_int_max_str_digits() to increase the limit").

(** The digits of [int(s)], after the sign: the digits are read first and
    counted against the limit, and only white space may follow them. *)
Definition parse_unsigned (s : string) : result Z :=
  match s with
  | String c r =>
      if is_digit c then
        match scan_digits (digit_value c) 1 r with
        | Some (n, digits, rest) =>
            if int_max_str_digits <? digits then Err (exceeds_limit digits)
            else if (lstrip rest =? "")%string then Ok n
                 else Err invalid_literal
        | None => Err invalid_literal
        end
      else Err invalid_literal
  | EmptyString => Err invalid_literal
  end.

(** [int(s)] for a string in base 10: white space, an optional sign, the
    digits, white space. *)
Definition int (s : string) : result Z :=
  match lstrip s with
  | String "+" r => parse_unsigned r
  | String "-" r => rbind (parse_unsigned r) (fun n => Ok (- n))
  | t => parse_unsigned t
  end.

(** [len] *)
Definition len {A : Type} (l : list A) : Z := Z.of_nat (List.length l).

End Py.

(** ** Dictionaries with string keys, in insertion order *)

Definition dict (V : Type) : Type := list (string * V).

Fixpoint dict_get {V : Type} (d : dict V) (k : string) : option V :=
  match d with
  | [] => None
  | (k', v) :: r => if (k' =? k)%string then Some v else dict_get r k
  end.

(** [d[k] = v]: an existing key keeps its place. *)
Fixpoint dict_set {V : Type} (d : dict V) (k : string) (v : V) : dict V :=
  match d with
  | [] => [(k, v)]
  | (k', v') :: r =>
      if (k' =? k)%string then (k, v) :: r else (k', v') :: dict_set r k v
  end.

(** [d.update(e)] *)
Definition dict_update {V : Type} (d e : dict V) : dict V :=
  fold_left (fun acc kv => dict_set acc (fst kv) (snd kv)) e d.

(** ** JSON values, as [json.loads] builds them

    [None], [bool], [int], [str], [list] and [dict] with string keys; the
    keys of an object are distinct. Numbers are the integers. *)

#[warnings="-register-all"]
Inductive json : Type :=
| JNull
| JBool (b : bool)
| JInt (n : Z)
| JStr (s : string)
| JList (l : list json)
| JObj (o : dict json).

(** ** The transport *)

(** An HTTP response: [status], [headers] and the bytes of its body, which
    [content.read] and [text] consume. *)
Record response : Type := {
  status : Z;
  headers : dict string;
  body : bytes
}.

(** [response.headers[name]]: the transport's header mapping ignores the
    case of names. *)
Fixpoint headers_getitem (h : dict string) (name : string) : result string :=
  match h with
  | [] => Err KeyError
  | (k, v) :: r =>
      if (Py.lower k =? Py.lower name)%string then Ok v
      else headers_getitem r name
  end.

(** [await response.text()] *)
Definition text (r : response) : string := string_of_list_byte (body r).

Inductive session_result : Type :=
| Responded (r : response)
| Failed (e : transport_exn).

(** The session object: [request] answers a call in a state of the world
    and moves to the next state; [close] closes the session. *)
Record Session (World : Type) : Type := {
  request :
    World -> string -> string -> dict string -> option json ->
    session_result * World;
  close : World -> World
}.
Arguments request {World} _ _ _ _ _ _.
Arguments close {World} _ _.

(** ** Generators and coroutines as traces *)

Inductive event (Y : Type) : Type :=
| Request (method url : string) (hdrs : dict string) (data : option json)
| Yield (y : Y).
Arguments Request {Y} method url hdrs data.
Arguments Yield {Y} y.

Inductive outcome (X : Type) : Type :=
| Return (x : X)
| Raise (e : exn)
| OutOfFuel.
Arguments Return {X} x.
Arguments Raise {X} e.
Arguments OutOfFuel {X}.

(** A computation that yields values of type [Y] and returns an [X]: from a
    state of the world, the events in order, the final state and the
    outcome. *)
Definition Gen (World Y X : Type) : Type :=
  World -> list (event Y) * World * outcome X.

Definition ret {W Y X : Type} (x : X) : Gen W Y X :=
  fun w => ([], w, Return x).

Definition raise {W Y X : Type} (e : exn) : Gen W Y X :=
  fun w => ([], w, Raise e).

Definition out_of_fuel {W Y X : Type} : Gen W Y X :=
  fun w => ([], w, OutOfFuel).

Definition yield {W Y : Type} (y : Y) : Gen W Y unit :=
  fun w => ([Yield y], w, Return tt).

Definition bind {W Y A B : Type} (m : Gen W Y A) (k : A -> Gen W Y B)
  : Gen W Y B :=
  fun w =>
    let '(t1, w1, o) := m w in
    match o with
    | Return x => let '(t2, w2, o2) := k x w1 in (t1 ++ t2, w2, o2)
    | Raise e => (t1, w1, Raise e)
    | OutOfFuel => (t1, w1, OutOfFuel)
    end.

(** [try: m], with the exception, if any, handed to the [except] clauses. *)
Definition attempt {W Y A : Type} (m : Gen W Y A) : Gen W Y (result A) :=
  fun w =>
    let '(t1, w1, o) := m w in
    match o with
    | Return x => (t1, w1, Return (Ok x))
    | Raise e => (t1, w1, Return (Err e))
    | OutOfFuel => (t1, w1, OutOfFuel)
    end.

Definition lift {W Y A : Type} (r : result A) : Gen W Y A :=
  match r with
  | Ok x => ret x
  | Err e => raise e
  end.

Declare Scope gen_scope.
Delimit Scope gen_scope with gen.
Notation "x <- m ;; k" := (bind m (fun x => k))
  (at level 61, m at next level, right associativity) : gen_scope.
Notation "m ;;; k" := (bind m (fun _ => k))
  (at level 61, right associativity) : gen_scope.

(** The values a generator yielded and the requests it sent, in order. *)
Fixpoint yields {Y : Type} (t : list (event Y)) : list Y :=
  match t with
  | [] => []
  | Yield y :: r => y :: yields r
  | Request _ _ _ _ :: r => yields r
  end.

Fixpoint requests {Y : Type} (t : list (event Y)) : list (string * string) :=
  match t with
  | [] => []
  | Yield _ :: r => requests r
  | Request m u _ _ :: r => (m, u) :: requests r
  end.

(** ** [urllib.parse] *)

Record SplitResult : Type := {
  scheme : string;
  netloc : string;
  path : string;
  query : string
}.

(** The values [querys] holds: the strings of the query and the integer
    sequence number. *)
Inductive qvalue : Type :=
| QStr (s : string)
| QInt (n : Z).

(** The functions of [urllib.parse] the module calls. *)
Record urllib_parse : Type := {
  urlsplit : string -> SplitResult;
  parse_qsl : string -> list (string * string);
  urlencode : dict qvalue -> string
}.

(** [dict(pairs)] *)
Definition dict_of_pairs {V : Type} (l : list (string * V)) : dict V :=
  fold_left (fun acc kv => dict_set acc (fst kv) (snd kv)) l [].

(** A [str] or a [bytes] value, where the code mixes the two. *)
Inductive pyseq : Type :=
| PStr (s : string)
| PBytes (b : bytes).

(** [v.split(sep)]: [str.split] wants a [str] and [bytes.split] wants
    [bytes]. *)
Definition pyseq_split (v sep : pyseq) : result (list pyseq) :=
  match v, sep with
  | PStr s, PStr p => Ok (map PStr (Py.split s p))
  | PBytes b, PBytes p => Ok (map PBytes (Py.bytes_split b p))
  | PStr _, PBytes _ => Err TypeError
  | PBytes _, PStr _ => Err TypeError
  end.

Definition pyseq_len (v : pyseq) : Z :=
  match v with
  | PStr s => Z.of_nat (String.length s)
  | PBytes b => Py.len b
  end.

Definition pyseq_int (v : pyseq) : result Z :=
  match v with
  | PStr s => Py.int s
  | PBytes b => Py.int (string_of_list_byte b)
  end.

(** ** The regular expression [Segment-Count: (\d+)] *)

Fixpoint take_digits (s : string) : string :=
  match s with
  | EmptyString => EmptyString
  | String c r => if Py.is_digit c then String c (take_digits r) else EmptyString
  end.

Fixpoint drop_prefix (p s : string) : option string :=
  match p, s with
  | EmptyString, _ => Some s
  | String a p', String b s' => if Ascii.eqb a b then drop_prefix p' s' else None
  | String _ _, EmptyString => None
  end.

(** [segment_count_pattern.search(line)]: group 1 of the leftmost match. *)
Fixpoint segment_count_search (line : string) : option string :=
  match drop_prefix "Segment-Count: " line with
  | Some rest =>
      match take_digits rest with
      | EmptyString =>
          match line with
          | EmptyString => None
          | String _ r => segment_count_search r
          end
      | d => Some d
      end
  | None =>
      match line with
      | EmptyString => None
      | String _ r => segment_count_search r
      end
  end.

Definition CRLF : bytes := [x0d; x0a].

(** ** [pytube/request.py] *)

Definition default_range_size : Z := 9437184.
Definition default_chunk_size : Z := 4096.

Section Request.

Context {World : Type}.
Variable session : Session World.
(** The value of the [Cookie] entry of [base_headers]. *)
Variable cookie : string.
Variable parse : urllib_parse.
(** [pytube.helpers.regex_search]: the group of the first match, or
    [RegexMatchError]. *)
Variable regex_search : pyseq -> pyseq -> Z -> result pyseq.

Definition base_headers : dict string :=
  [ ("User-Agent",
     "Mozilla/5.0 (Macintosh; Intel Mac OS X 10_14) AppleWebKit/605.1.15 (KHTML, like Gecko) Version/12.0 Safari/605.1.15");
    ("Accept-Language", "en-gb");
    ("Accept",
     "text/html,application/xhtml+xml,application/json,application/xml,*/*");
    ("Cookie", cookie) ].

(** The headers sent: [base_headers], updated with [headers] when that is
    neither [None] nor empty. *)
Definition request_headers (hdrs : option (dict string)) : dict string :=
  match hdrs with
  | Some ((_ :: _) as h) => dict_update base_headers h
  | _ => base_headers
  end.

Definition _execute_request {Y : Type} (url method : string)
  (hdrs : option (dict string)) (data : option json) (timeout : Z)
  : Gen World Y response :=
  let base_headers := request_headers hdrs in
  if Py.startswith (Py.lower url) "http" then
    fun w =>
      let '(r, w1) := request session w method url base_headers data in
      let t := [Request method url base_headers data] in
      match r with
      | Responded resp =>
          if status resp =? 400
          then (t, w1, Raise (PytubeError "Not 200 code, code=400"))
          else (t, w1, Return resp)
      | Failed TInvalidURL =>
          (t, close session w1, Raise (ValueError "Invalid URL"))
      | Failed (TURLError reason) => (t, w1, Raise (URLError reason))
      | Failed (TOther name) => (t, w1, Raise (OtherException name))
      end
  else raise (ValueError "Invalid URL").

Definition get {Y : Type} (url : string) (extra_headers : option (dict string))
  (timeout : Z) : Gen World Y string :=
  let extra_headers :=
    match extra_headers with Some h => h | None => [] end in
  (response <- _execute_request url "GET" (Some extra_headers) None timeout ;;
   ret (text response))%gen.

Definition post {Y : Type} (url : string) (extra_headers : option (dict string))
  (data : option json) (timeout : Z) : Gen World Y string :=
  let extra_headers :=
    match extra_headers with Some h => h | None => [] end in
  let data := match data with Some d => d | None => JObj [] end in
  (response <-
     _execute_request url "POST" (Some extra_headers) (Some data) timeout ;;
   ret (text response))%gen.

(** *** [stream] *)

(** [f"bytes={downloaded}-{stop_pos}"] *)
Definition range_header (downloaded stop_pos : Z) : string :=
  ("bytes=" ++ Py.str_of_int downloaded ++ "-" ++ Py.str_of_int stop_pos)%string.

(** The inner [while True] of [stream]: the request of one range window,
    attempted again after a [URLError] whose reason is a [socket.timeout].
    [fuel] bounds the iterations; [Z.to_nat (1 + max_retries)] is enough. *)
Fixpoint retry_loop (fuel : nat) (url range : string)
  (timeout max_retries tries : Z) : Gen World bytes response :=
  if tries >=? 1 + max_retries then raise MaxRetriesExceeded
  else
    match fuel with
    | O => out_of_fuel
    | S f =>
        (r <- attempt (_execute_request url "GET" (Some [("Range", range)])
                         None timeout) ;;
         match r with
         | Ok response => ret response
         | Err (URLError SocketTimeout) =>
             retry_loop f url range timeout max_retries (tries + 1)
         | Err e => raise e
         end)%gen
    end.

(** [int(response.headers["Content-Range"].split("/")[1])] *)
Definition content_range_size (resp : response) : result Z :=
  rbind (headers_getitem (headers resp) "Content-Range") (fun content_range =>
  match nth_error (Py.split content_range "/") 1 with
  | Some field => Py.int field
  | None => Err IndexError
  end).

(** The [if file_size == default_range_size] block: the new [file_size]. *)
Definition learn_file_size (file_size : Z) (resp : response) : result Z :=
  if file_size =? default_range_size then
    match content_range_size resp with
    | Ok n => Ok n
    | Err KeyError => Ok file_size
    | Err IndexError => Ok file_size
    | Err (ValueError _) => Ok file_size
    | Err e => Err e
    end
  else Ok file_size.

(** The last [while True] of [stream]: the body is read [default_chunk_size]
    bytes at a time, up to the first empty read. [content] is what is left
    of the body; the result is the new [downloaded]. *)
Fixpoint read_loop (fuel : nat) (content : bytes) (downloaded : Z)
  : Gen World bytes Z :=
  match fuel with
  | O => out_of_fuel
  | S f =>
      let chunk := firstn (Z.to_nat default_chunk_size) content in
      match chunk with
      | [] => ret downloaded
      | _ :: _ =>
          let downloaded := downloaded + Py.len chunk in
          (yield chunk ;;;
           read_loop f (skipn (Z.to_nat default_chunk_size) content)
             downloaded)%gen
      end
  end.

(** One iteration of the main loop of [stream]: one range window. It returns
    the new [file_size] and [downloaded]. *)
Definition stream_window (url : string) (timeout max_retries : Z)
  (file_size downloaded : Z) : Gen World bytes (Z * Z) :=
  let stop_pos := Z.min (downloaded + default_range_size) file_size - 1 in
  let range := range_header downloaded stop_pos in
  let tries := 0 in
  (response <- retry_loop (Z.to_nat (1 + max_retries)) url range timeout
                 max_retries tries ;;
   file_size <- lift (learn_file_size file_size response) ;;
   downloaded <- read_loop (S (List.length (body response))) (body response)
                   downloaded ;;
   ret (file_size, downloaded))%gen.

(** The main loop, [while downloaded < file_size]; [fuel] bounds the number
    of windows. *)
Fixpoint stream_loop (fuel : nat) (url : string) (timeout max_retries : Z)
  (file_size downloaded : Z) : Gen World bytes unit :=
  if downloaded <? file_size then
    match fuel with
    | O => out_of_fuel
    | S f =>
        (st <- stream_window url timeout max_retries file_size downloaded ;;
         stream_loop f url timeout max_retries (fst st) (snd st))%gen
    end
  else ret tt.

Definition stream (fuel : nat) (url : string) (timeout max_retries : Z)
  : Gen World bytes unit :=
  let file_size := default_range_size in
  let downloaded := 0 in
  stream_loop fuel url timeout max_retries file_size downloaded.

(** *** [seq_stream] *)

(** ['%s://%s/%s?' % (scheme, netloc, path)] *)
Definition base_url_of (split_url : SplitResult) : string :=
  (scheme split_url ++ "://" ++ netloc split_url ++ "/" ++ path split_url
   ++ "?")%string.

Definition querys_of (split_url : SplitResult) : dict qvalue :=
  dict_of_pairs (map (fun kv => (fst kv, QStr (snd kv)))
                   (parse_qsl parse (query split_url))).

(** [async for chunk in g: yield chunk; segment_data += chunk] *)
Definition forward (g : Gen World bytes unit) : Gen World bytes bytes :=
  fun w =>
    let '(t, w1, o) := g w in
    match o with
    | Return _ => (t, w1, Return (List.concat (yields t)))
    | Raise e => (t, w1, Raise e)
    | OutOfFuel => (t, w1, OutOfFuel)
    end.

(** The [for line in stream_info] loop of [seq_stream]: [segment_count] is
    bound by the last line that matches, and stays unbound ([None]) when no
    line does. *)
Definition find_segment_count (stream_info : list bytes) : result (option Z) :=
  fold_left
    (fun acc line =>
       rbind acc (fun segment_count =>
       match segment_count_search (string_of_list_byte line) with
       | Some group1 => rbind (Py.int group1) (fun n => Ok (Some n))
       | None => Ok segment_count
       end))
    stream_info (Ok None).

(** [await g] where [g] is an async generator object: calling [stream]
    only builds the generator, nothing of it runs, and an async generator is
    not awaitable. *)
Definition await_async_generator {Y A : Type} (g : Gen World Y A)
  : Gen World bytes unit :=
  raise TypeError.

(** The [while seq_num <= segment_count] loop of [seq_stream]. *)
Fixpoint seq_stream_loop (fuel : nat) (base_url : string)
  (querys : dict qvalue) (timeout max_retries : Z)
  (segment_count seq_num : Z) : Gen World bytes unit :=
  if seq_num <=? segment_count then
    match fuel with
    | O => out_of_fuel
    | S f =>
        let querys := dict_set querys "sq" (QInt seq_num) in
        let url := (base_url ++ urlencode parse querys)%string in
        (await_async_generator (stream fuel url timeout max_retries) ;;;
         seq_stream_loop f base_url querys timeout max_retries segment_count
           (seq_num + 1))%gen
    end
  else ret tt.

Definition seq_stream (fuel : nat) (url : string) (timeout max_retries : Z)
  : Gen World bytes unit :=
  let split_url := urlsplit parse url in
  let base_url := base_url_of split_url in
  let querys := querys_of split_url in
  let querys := dict_set querys "sq" (QInt 0) in
  let url := (base_url ++ urlencode parse querys)%string in
  (segment_data <- forward (stream fuel url timeout max_retries) ;;
   let stream_info := Py.bytes_split segment_data CRLF in
   segment_count <- lift (find_segment_count stream_info) ;;
   let seq_num := 1 in
   match segment_count with
   | None => raise (UnboundLocalError "segment_count")
   | Some segment_count =>
       seq_stream_loop fuel base_url querys timeout max_retries
         segment_count seq_num
   end)%gen.

(** *** [head] and [seq_filesize] *)

(** [{k.lower(): v for k, v in response_headers.items()}] *)
Definition lower_keys (h : dict string) : dict string :=
  dict_of_pairs (map (fun kv => (Py.lower (fst kv), snd kv)) h).

Definition head {Y : Type} (url : string) : Gen World Y (dict string) :=
  (response <- _execute_request url "HEAD" None None 900 ;;
   ret (lower_keys (headers response)))%gen.

(** [int((await head(url, session))['content-length'])] *)
Definition head_content_length {Y : Type} (url : string) : Gen World Y Z :=
  (h <- head url ;;
   match dict_get h "content-length" with
   | Some v => lift (Py.int v)
   | None => raise KeyError
   end)%gen.

Definition segment_regex : bytes :=
  list_byte_of_string "Segment-Count: (\d+)".

(** The [for line in stream_info] loop of [seq_filesize]: a line without a
    match leaves [segment_count] as it is. *)
Definition count_segments (stream_info : list pyseq) (segment_count : Z)
  : result Z :=
  fold_left
    (fun acc line =>
       rbind acc (fun segment_count =>
       match rbind (regex_search (PBytes segment_regex) line 1) pyseq_int with
       | Ok n => Ok n
       | Err (RegexMatchError _ _) => Ok segment_count
       | Err e => Err e
       end))
    stream_info (Ok segment_count).

Fixpoint seq_filesize_loop {Y : Type} (fuel : nat) (base_url : string)
  (querys : dict qvalue) (segment_count seq_num total_filesize : Z)
  : Gen World Y Z :=
  if seq_num <=? segment_count then
    match fuel with
    | O => out_of_fuel
    | S f =>
        let querys := dict_set querys "sq" (QInt seq_num) in
        let url := (base_url ++ urlencode parse querys)%string in
        (n <- head_content_length url ;;
         seq_filesize_loop f base_url querys segment_count (seq_num + 1)
           (total_filesize + n))%gen
    end
  else ret total_filesize.

Definition seq_filesize {Y : Type} (fuel : nat) (url : string)
  : Gen World Y Z :=
  let total_filesize := 0 in
  let split_url := urlsplit parse url in
  let base_url := base_url_of split_url in
  let querys := querys_of split_url in
  let querys := dict_set querys "sq" (QInt 0) in
  let url := (base_url ++ urlencode parse querys)%string in
  (response <- _execute_request url "GET" None None 900 ;;
   let response_value := PStr (text response) in
   let total_filesize := total_filesize + pyseq_len response_value in
   let segment_count := 0 in
   stream_info <- lift (pyseq_split response_value (PBytes CRLF)) ;;
   segment_count <- lift (count_segments stream_info segment_count) ;;
   if segment_count =? 0
   then raise (RegexMatchError "seq_filesize"
                 (string_of_list_byte segment_regex))
   else
     let seq_num := 1 in
     seq_filesize_loop fuel base_url querys segment_count seq_num
       total_filesize)%gen.

End Request.

(** ** Python subscripting, iteration and truth on JSON values *)

Inductive subscript : Type :=
| Key (s : string)
| Index (i : Z).

(** [l[i]] on a sequence: a negative index counts from the end. *)
Definition seq_getitem {A : Type} (l : list A) (i : Z) : result A :=
  let n := Py.len l in
  let j := if i <? 0 then i + n else i in
  if ((0 <=? j) && (j <? n))%bool then
    match nth_error l (Z.to_nat j) with
    | Some x => Ok x
    | None => Err IndexError
    end
  else Err IndexError.

(** [v[k]] *)
Definition getitem (v : json) (k : subscript) : result json :=
  match v, k with
  | JObj o, Key s =>
      match dict_get o s with
      | Some x => Ok x
      | None => Err KeyError
      end
  | JObj _, Index _ => Err KeyError
  | JList l, Index i => seq_getitem l i
  | JList _, Key _ => Err TypeError
  | JStr s, Index i =>
      rbind (seq_getitem (list_ascii_of_string s) i)
        (fun c => Ok (JStr (String c EmptyString)))
  | JStr _, Key _ => Err TypeError
  | JNull, _ => Err TypeError
  | JBool _, _ => Err TypeError
  | JInt _, _ => Err TypeError
  end.

(** [v[k1][k2]...] *)
Fixpoint getpath (v : json) (ks : list subscript) : result json :=
  match ks with
  | [] => Ok v
  | k :: r => rbind (getitem v k) (fun x => getpath x r)
  end.

(** [v[:-1]] *)
Definition drop_last (v : json) : result json :=
  match v with
  | JList l => Ok (JList (removelast l))
  | JStr s =>
      Ok (JStr (string_of_list_ascii (removelast (list_ascii_of_string s))))
  | _ => Err TypeError
  end.

(** The elements [for x in v] visits. *)
Definition iterate (v : json) : result (list json) :=
  match v with
  | JList l => Ok l
  | JObj o => Ok (map (fun kv => JStr (fst kv)) o)
  | JStr s =>
      Ok (map (fun c => JStr (String c EmptyString)) (list_ascii_of_string s))
  | _ => Err TypeError
  end.

(** [bool(v)] *)
Definition truthy (v : json) : bool :=
  match v with
  | JNull => false
  | JBool b => b
  | JInt n => negb (n =? 0)
  | JStr s => negb (s =? "")%string
  | JList l => match l with [] => false | _ :: _ => true end
  | JObj o => match o with [] => false | _ :: _ => true end
  end.

Definition str_truthy (s : string) : bool := negb (s =? "")%string.

(** [list(map(f, l))] where [f] may raise. *)
Fixpoint map_result {A B : Type} (f : A -> result B) (l : list A)
  : result (list B) :=
  match l with
  | [] => Ok []
  | x :: r =>
      rbind (f x) (fun y => rbind (map_result f r) (fun ys => Ok (y :: ys)))
  end.

(** [l.index(x)]: the first position of [x], or [ValueError]. *)
Fixpoint index (l : list string) (x : string) : option nat :=
  match l with
  | [] => None
  | y :: r =>
      if (y =? x)%string then Some O
      else option_map S (index r x)
  end.

(** Modelled from the spec: [pytube.helpers.uniqueify], which this part of
    the repository imports but does not define; it removes the duplicates
    of a list and keeps the first occurrence of each element, in order. *)
Fixpoint uniqueify_from (seen : list string) (duped_list : list string)
  : list string :=
  match duped_list with
  | [] => []
  | item :: r =>
      if existsb (String.eqb item) seen then uniqueify_from seen r
      else item :: uniqueify_from (item :: seen) r
  end.

Definition uniqueify (duped_list : list string) : list string :=
  uniqueify_from [] duped_list.

(** ** [pytube/contrib/playlist.py] *)

(** The functions of [pytube.extract] the class calls. *)
Record extract_module : Type := {
  playlist_id_of : string -> result string;
  get_ytcfg : string -> result json;
  initial_data_of : string -> result json
}.

(** The attributes of a [Playlist] object that pagination reads and
    writes. *)
Record Playlist : Type := {
  _input_url : string;
  _html : option string;
  _ytcfg : option json;
  _playlist_id : option string
}.

(** [Playlist(url)] *)
Definition new_playlist (url : string) : Playlist :=
  {| _input_url := url; _html := None; _ytcfg := None; _playlist_id := None |}.

Section PlaylistModel.

Context {World : Type}.
Variable session : Session World.
Variable cookie : string.
(** [json.loads] and [json.dumps] *)
Variable json_loads : string -> result json.
Variable json_dumps : json -> string.
Variable extract : extract_module.
(** [str(v)] for a list or a dict. *)
Variable repr : json -> string.

(** [f"{v}"] *)
Definition format (v : json) : string :=
  match v with
  | JStr s => s
  | JInt n => Py.str_of_int n
  | JBool true => "True"
  | JBool false => "False"
  | JNull => "None"
  | JList _ => repr v
  | JObj _ => repr v
  end.

(** *** [_extract_videos] *)

(** The exceptions the shape-matching [except] clauses catch. *)
Definition shape_error (e : exn) : bool :=
  match e with
  | KeyError => true
  | IndexError => true
  | TypeError => true
  | _ => false
  end.

Definition section_contents_path : list subscript :=
  [Key "contents"; Key "twoColumnBrowseResultsRenderer"; Key "tabs"; Index 0;
   Key "tabRenderer"; Key "content"; Key "sectionListRenderer";
   Key "contents"].

Definition submenu_path (i : Z) : list subscript :=
  [Index i; Key "itemSectionRenderer"; Key "contents"; Index 0;
   Key "playlistVideoListRenderer"].

(** The outer [try] block: the tree of a page extracted from html. *)
Definition html_videos (initial_data : json) : result json :=
  rbind (getpath initial_data section_contents_path) (fun section_contents =>
  rbind
    match getpath section_contents (submenu_path 0) with
    | Ok important_content => Ok important_content
    | Err e =>
        if shape_error e then getpath section_contents (submenu_path 1)
        else Err e
    end (fun important_content =>
  getitem important_content (Key "contents"))).

Definition continuation_items_path : list subscript :=
  [Key "onResponseReceivedActions"; Index 0;
   Key "appendContinuationItemsAction"; Key "continuationItems"].

(** The first [try] statement as a whole: the resolved item list [videos],
    or [None] where the function returns [[], None]. *)
Definition resolve_videos (initial_data : json) : result (option json) :=
  match html_videos initial_data with
  | Ok videos => Ok (Some videos)
  | Err e =>
      if shape_error e then
        match getpath initial_data continuation_items_path with
        | Ok important_content => Ok (Some important_content)
        | Err p => if shape_error p then Ok None else Err p
        end
      else Err e
  end.

Definition token_path : list subscript :=
  [Index (-1); Key "continuationItemRenderer"; Key "continuationEndpoint";
   Key "continuationCommand"; Key "token"].

(** The second [try] statement: the item list without its continuation
    marker, and the continuation ([JNull] is [None]). *)
Definition split_continuation (videos : json) : result (json * json) :=
  match
    rbind (getpath videos token_path) (fun continuation =>
    rbind (drop_last videos) (fun videos' => Ok (videos', continuation)))
  with
  | Ok r => Ok r
  | Err KeyError => Ok (videos, JNull)
  | Err IndexError => Ok (videos, JNull)
  | Err e => Err e
  end.

(** [f"/watch?v={x['playlistVideoRenderer']['videoId']}"] *)
Definition watch_path (x : json) : result string :=
  rbind (getpath x [Key "playlistVideoRenderer"; Key "videoId"]) (fun id =>
  Ok ("/watch?v=" ++ format id)%string).

(** [_extract_videos] once [json.loads] has parsed the page. *)
Definition extract_videos_of (initial_data : json)
  : result (list string * json) :=
  rbind (resolve_videos initial_data) (fun resolved =>
  match resolved with
  | None => Ok ([], JNull)
  | Some videos =>
      rbind (split_continuation videos) (fun vc =>
      let '(videos, continuation) := vc in
      rbind (iterate videos) (fun items =>
      rbind (map_result watch_path items) (fun paths =>
      Ok (uniqueify paths, continuation))))
  end).

Definition _extract_videos (raw_json : string) : result (list string * json) :=
  rbind (json_loads raw_json) extract_videos_of.

(** *** Properties of the object, with their caches *)

Definition PGen (Y X : Type) : Type := Gen (World * Playlist) Y X.

(** A computation of [request.py], run by a method of the object. *)
Definition on_session {Y X : Type} (m : Gen World Y X) : PGen Y X :=
  fun ws =>
    let '(t, w1, o) := m (fst ws) in (t, (w1, snd ws), o).

Definition get_self {Y : Type} : PGen Y Playlist :=
  fun ws => ([], ws, Return (snd ws)).

Definition set_self {Y : Type} (self : Playlist) : PGen Y unit :=
  fun ws => ([], (fst ws, self), Return tt).

Definition playlist_id {Y : Type} : PGen Y string :=
  (self <- get_self ;;
   match _playlist_id self with
   | Some id =>
       if str_truthy id then ret id
       else
         id' <- lift (playlist_id_of extract (_input_url self)) ;;
         set_self {| _input_url := _input_url self; _html := _html self;
                     _ytcfg := _ytcfg self; _playlist_id := Some id' |} ;;;
         ret id'
   | None =>
       id' <- lift (playlist_id_of extract (_input_url self)) ;;
       set_self {| _input_url := _input_url self; _html := _html self;
                   _ytcfg := _ytcfg self; _playlist_id := Some id' |} ;;;
       ret id'
   end)%gen.

Definition playlist_url {Y : Type} : PGen Y string :=
  (id <- playlist_id ;;
   ret ("https://www.youtube.com/playlist?list=" ++ id)%string)%gen.

Definition fetch_html {Y : Type} : PGen Y string :=
  (url <- playlist_url ;;
   h <- on_session (get session cookie url None 900) ;;
   self <- get_self ;;
   set_self {| _input_url := _input_url self; _html := Some h;
               _ytcfg := _ytcfg self; _playlist_id := _playlist_id self |} ;;;
   ret h)%gen.

Definition html {Y : Type} : PGen Y string :=
  (self <- get_self ;;
   match _html self with
   | Some h => if str_truthy h then ret h else fetch_html
   | None => fetch_html
   end)%gen.

Definition fetch_ytcfg {Y : Type} : PGen Y json :=
  (h <- html ;;
   cfg <- lift (get_ytcfg extract h) ;;
   self <- get_self ;;
   set_self {| _input_url := _input_url self; _html := _html self;
               _ytcfg := Some cfg; _playlist_id := _playlist_id self |} ;;;
   ret cfg)%gen.

Definition ytcfg {Y : Type} : PGen Y json :=
  (self <- get_self ;;
   match _ytcfg self with
   | Some cfg => if truthy cfg then ret cfg else fetch_ytcfg
   | None => fetch_ytcfg
   end)%gen.

Definition yt_api_key {Y : Type} : PGen Y json :=
  (cfg <- ytcfg ;;
   lift (getitem cfg (Key "INNERTUBE_API_KEY")))%gen.

(** *** [_build_continuation_url] *)

Definition _build_continuation_url {Y : Type} (continuation : json)
  : PGen Y (string * dict string * json) :=
  (key <- yt_api_key ;;
   ret (("https://www.youtube.com/youtubei/v1/browse?key=" ++ format key)%string,
        [ ("X-YouTube-Client-Name", "1");
          ("X-YouTube-Client-Version", "2.20200720.00.02");
          ("X-Origin", "https://www.youtube.com") ],
        JObj [ ("continuation", continuation);
               ("context",
                JObj [ ("client",
                        JObj [ ("clientName", JStr "WEB");
                               ("clientVersion", JStr "2.20200720.00.02") ]) ])
             ]))%gen.

(** *** [_paginate] *)

(** The [if continuation: ... else: ...] that ends a page: the request for
    the next page, or [None, None, None]. *)
Definition next_request {Y : Type} (continuation : json)
  : PGen Y (option (string * dict string * json)) :=
  if truthy continuation then
    (r <- _build_continuation_url continuation ;; ret (Some r))%gen
  else ret None.

(** The condition [load_more_url and headers and data]. *)
Definition more_to_load (next : option (string * dict string * json))
  : option (string * dict string * json) :=
  match next with
  | Some (load_more_url, hdrs, data) =>
      if (str_truthy load_more_url
          && match hdrs with [] => false | _ :: _ => true end
          && truthy data)%bool
      then next else None
  | None => None
  end.

(** [videos_urls.index(f"/watch?v={until_watch_id}")], inside
    [if until_watch_id], with [ValueError] passed over: where to trim. *)
Definition trim_index (until_watch_id : option string)
  (videos_urls : list string) : option nat :=
  match until_watch_id with
  | Some id =>
      if str_truthy id then index videos_urls ("/watch?v=" ++ id)%string
      else None
  | None => None
  end.

(** The [while] loop of [_paginate]; [fuel] bounds the number of pages. *)
Fixpoint paginate_loop (fuel : nat) (until_watch_id : option string)
  (next : option (string * dict string * json)) : PGen (list string) unit :=
  match more_to_load next with
  | Some (load_more_url, hdrs, data) =>
      match fuel with
      | O => out_of_fuel
      | S f =>
          (req <- on_session
                    (post session cookie load_more_url (Some hdrs) (Some data)
                       900) ;;
           vc <- lift (_extract_videos req) ;;
           let '(videos_urls, continuation) := vc in
           match trim_index until_watch_id videos_urls with
           | Some trim_index => yield (firstn trim_index videos_urls)
           | None =>
               yield videos_urls ;;;
               next <- next_request continuation ;;
               paginate_loop f until_watch_id next
           end)%gen
      end
  | None => ret tt
  end.

Definition _paginate (fuel : nat) (until_watch_id : option string)
  : PGen (list string) unit :=
  (h <- html ;;
   initial <- lift (initial_data_of extract h) ;;
   vc <- lift (_extract_videos (json_dumps initial)) ;;
   let '(videos_urls, continuation) := vc in
   match trim_index until_watch_id videos_urls with
   | Some trim_index => yield (firstn trim_index videos_urls)
   | None =>
       yield videos_urls ;;;
       next <- next_request continuation ;;
       paginate_loop fuel until_watch_id next
   end)%gen.

End PlaylistModel.

(** ** Vocabulary of the statements about [request.py] *)

(** The bytes of [data] at the positions [start] to [stop], both included. *)
Definition byte_range (data : bytes) (start stop : Z) : bytes :=
  let stop' := Z.min stop (Py.len data - 1) in
  firstn (Z.to_nat (stop' + 1 - start)) (skipn (Z.to_nat start) data).

(** The failure that the retry loop of [stream] passes over: a [URLError]
    whose reason is a [socket.timeout]. *)
Definition is_timeout {X : Type} (o : outcome X) : bool :=
  match o with
  | Raise (URLError SocketTimeout) => true
  | _ => false
  end.

(** What an [aiohttp] session raises when the time allowed for a request
    runs out: [asyncio.TimeoutError], which is not a [URLError]. *)
Definition asyncio_timeout : transport_exn := TOther "asyncio.TimeoutError".

(** What a run of attempts comes to: the first outcome that is not a
    timeout, and [MaxRetriesExceeded] when there is none. *)
Fixpoint first_non_timeout (outs : list (outcome response))
  : outcome response :=
  match outs with
  | [] => Raise MaxRetriesExceeded
  | o :: r => if is_timeout o then first_non_timeout r else o
  end.

(** The number of attempts such a run makes. *)
Fixpoint attempts_made (outs : list (outcome response)) : nat :=
  match outs with
  | [] => O
  | o :: r => if is_timeout o then S (attempts_made r) else 1%nat
  end.

(** On the states of the main loop: the [file_size] in force after the
    first window is the one of every later state, and [downloaded] never
    exceeds it. *)
Definition size_fixed_after_first_response (states : list (Z * Z)) : Prop :=
  match states with
  | _ :: (file_size, downloaded) :: later =>
      Forall (fun st => fst st = file_size /\ snd st <= fst st)
        ((file_size, downloaded) :: later)
  | _ => True
  end.

Section RequestVocabulary.

Context {World : Type}.
Variable session : Session World.
Variable cookie : string.

(** The session raises no [URLError]: an [aiohttp] session, the one
    [createSession] builds, is such a session. *)
Definition raises_no_url_error : Prop :=
  forall w method url hdrs data reason w1,
    request session w method url hdrs data <> (Failed (TURLError reason), w1).

(** The request of one range window. *)
Definition range_request (url range : string) (timeout : Z)
  : Gen World bytes response :=
  _execute_request session cookie url "GET" (Some [("Range", range)]) None
    timeout.

(** The outcomes of [n] consecutive attempts of the same range request,
    from the world [w] on. *)
Fixpoint attempt_outcomes (n : nat) (url range : string) (timeout : Z)
  (w : World) : list (outcome response) :=
  match n with
  | O => []
  | S k =>
      let '(_, w1, o) := range_request url range timeout w in
      o :: attempt_outcomes k url range timeout w1
  end.

(** The values of [(file_size, downloaded)] each time the condition of the
    main loop of [stream] is evaluated. *)
Fixpoint stream_states (fuel : nat) (url : string) (timeout max_retries : Z)
  (file_size downloaded : Z) (w : World) : list (Z * Z) :=
  (file_size, downloaded) ::
  if downloaded <? file_size then
    match fuel with
    | O => []
    | S f =>
        match stream_window session cookie url timeout max_retries
                file_size downloaded w with
        | (_, w1, Return (file_size', downloaded')) =>
            stream_states f url timeout max_retries file_size' downloaded' w1
        | _ => []
        end
    end
  else [].

(** The server behind [url] answers the range request [start]-[stop], in
    any state of the world, with exactly the bytes of [data] in that range,
    and declares the size of [data] in its [Content-Range] header. *)
Definition answers_range (url : string) (timeout : Z) (data : bytes)
  (start stop : Z) : Prop :=
  forall w, exists t w1 resp,
    range_request url (range_header start stop) timeout w
    = (t, w1, Return resp)
    /\ body resp = byte_range data start stop
    /\ content_range_size resp = Ok (Py.len data).

(** The server answers each range request that [stream] sends for a
    resource [data]: the first, computed with the placeholder size, and
    [downloaded, min(downloaded + default_range_size, total_size) - 1]
    from every offset of the resource. *)
Definition faithful_server (url : string) (timeout : Z) (data : bytes)
  : Prop :=
  let total_size := Py.len data in
  answers_range url timeout data 0
    (Z.min (0 + default_range_size) default_range_size - 1)
  /\ forall downloaded,
       0 <= downloaded < total_size ->
       answers_range url timeout data downloaded
         (Z.min (downloaded + default_range_size) total_size - 1).


(** No response to a range request is longer than the range asked for. *)
Definition within_range (url : string) (timeout : Z) : Prop :=
  forall w start stop t w1 r,
    start <= stop ->
    range_request url (range_header start stop) timeout w
    = (t, w1, Return r) ->
    Py.len (body r) <= stop - start + 1.

(** Every response of the session carries at least one byte of body. *)
Definition bodies_nonempty : Prop :=
  forall w method url hdrs data r w1,
    request session w method url hdrs data = (Responded r, w1) ->
    body r <> [].

End RequestVocabulary.

(** ** Vocabulary of the statements about [playlist.py] *)

(** The token of a continuation marker:
    [m['continuationItemRenderer']['continuationEndpoint']['continuationCommand']['token']]. *)
Definition marker_token (m : json) : result json :=
  getpath m [Key "continuationItemRenderer"; Key "continuationEndpoint";
             Key "continuationCommand"; Key "token"].

(** [x] is an object with an entry [continuationItemRenderer]. *)
Definition has_marker_key (x : json) : bool :=
  match x with
  | JObj o =>
      match dict_get o "continuationItemRenderer" with
      | Some _ => true
      | None => false
      end
  | _ => false
  end.

Definition is_object (x : json) : bool :=
  match x with
  | JObj _ => true
  | _ => false
  end.

(** The identifier a stop identifier is compared with. *)
Definition watch_id_path (until_watch_id : string) : string :=
  ("/watch?v=" ++ until_watch_id)%string.

(** An enumeration cut at the first page that contains [target]: that page
    is replaced by its prefix before [target], and the enumeration returns
    there. *)
Fixpoint cut (target : string) (t : list (event (list string)))
  (o : outcome unit) : list (event (list string)) * outcome unit :=
  match t with
  | [] => ([], o)
  | Yield page :: r =>
      match index page target with
      | Some i => ([Yield (firstn i page)], Return tt)
      | None => let '(t', o') := cut target r o in (Yield page :: t', o')
      end
  | e :: r => let '(t', o') := cut target r o in (e :: t', o')
  end.

(** [m1] runs as [m0] cut at the first page that contains [target]. *)
Definition cut_of {W : Type} (target : string)
  (m1 m0 : Gen W (list string) unit) : Prop :=
  forall w,
    (fst (fst (m1 w)), snd (m1 w))
    = cut target (fst (fst (m0 w))) (snd (m0 w)).

(** Every value the computation yields satisfies [P]. *)
Definition yields_all {W Y X : Type} (P : Y -> Prop) (m : Gen W Y X) : Prop :=
  forall w, Forall P (yields (fst (fst (m w)))).

(** The computation yields nothing. *)
Definition quiet {W Y X : Type} (m : Gen W Y X) : Prop :=
  yields_all (fun _ => False) m.

(** [page] holds the elements of [l], each once, in the order in which
    they first occur in [l]. *)
Definition first_seen (l page : list string) : Prop :=
  NoDup page
  /\ (forall x, In x page <-> In x l)
  /\ forall i j x y,
       (i < j)%nat ->
       nth_error page i = Some x -> nth_error page j = Some y ->
       exists a b, index l x = Some a /\ index l y = Some b /\ (a < b)%nat.

(** What [_paginate] yields of a page whose identifiers are [videos_urls]:
    all of them, or those before the stop identifier when the page holds
    it. *)
Definition page_up_to (until_watch_id : option string)
  (videos_urls : list string) : list string :=
  match trim_index until_watch_id videos_urls with
  | Some trim_index => firstn trim_index videos_urls
  | None => videos_urls
  end.

Section PaginationVocabulary.

Context {World : Type}.
Variable session : Session World.
Variable cookie : string.
Variable json_loads : string -> result json.
Variable json_dumps : json -> string.
Variable extract : extract_module.
Variable repr : json -> string.

(** [list(map(lambda x: f"/watch?v={...}", videos))], the argument of
    [uniqueify] in [_extract_videos]: the identifier of each item of the
    payload [raw_json], in the order of the items and with their
    repetitions; no identifier where [_extract_videos] returns
    [[], None]. *)
Definition item_paths (raw_json : string) : result (list string) :=
  rbind (json_loads raw_json) (fun initial_data =>
  rbind (resolve_videos initial_data) (fun resolved =>
  match resolved with
  | None => Ok []
  | Some videos =>
      rbind (split_continuation videos) (fun vc =>
      rbind (iterate (fst vc)) (fun items =>
      map_result (watch_path repr) items))
  end)).

(** [page] is what [_paginate] yields for the payload [raw]: the
    identifiers of the items of [raw], each once and in the order in which
    they first occur, up to the stop identifier. *)
Definition page_of_payload (until_watch_id : option string) (raw : string)
  (page : list string) : Prop :=
  NoDup page
  /\ exists paths videos_urls,
       item_paths raw = Ok paths
       /\ first_seen paths videos_urls
       /\ page = page_up_to until_watch_id videos_urls.

(** The payloads behind the pages that the [while] loop of [_paginate]
    yields, in order: the text of the response to each continuation request
    from which [_extract_videos] made a page. *)
Fixpoint paginate_loop_payloads (fuel : nat) (until_watch_id : option string)
  (next : option (string * dict string * json)) (ws : World * Playlist)
  : list string :=
  match more_to_load next with
  | Some (load_more_url, hdrs, data) =>
      match fuel with
      | O => []
      | S f =>
          match on_session (Y:=list string)
                  (post session cookie load_more_url (Some hdrs) (Some data)
                     900) ws with
          | (_, ws1, Return req) =>
              match _extract_videos json_loads repr req with
              | Ok (videos_urls, continuation) =>
                  req ::
                  match trim_index until_watch_id videos_urls with
                  | Some _ => []
                  | None =>
                      match next_request (Y:=list string) session cookie
                              extract repr continuation ws1 with
                      | (_, ws2, Return next) =>
                          paginate_loop_payloads f until_watch_id next ws2
                      | _ => []
                      end
                  end
              | Err _ => []
              end
          | _ => []
          end
      end
  | None => []
  end.

(** The payloads behind the pages that [_paginate] yields, in order: the
    initial data of the html page, as [json.dumps] writes them, then the
    responses to the continuation requests. *)
Definition paginate_payloads (fuel : nat) (until_watch_id : option string)
  (ws : World * Playlist) : list string :=
  match html (Y:=list string) session cookie extract ws with
  | (_, ws1, Return h) =>
      match initial_data_of extract h with
      | Ok initial =>
          let raw := json_dumps initial in
          match _extract_videos json_loads repr raw with
          | Ok (videos_urls, continuation) =>
              raw ::
              match trim_index until_watch_id videos_urls with
              | Some _ => []
              | None =>
                  match next_request (Y:=list string) session cookie extract
                          repr continuation ws1 with
                  | (_, ws2, Return next) =>
                      paginate_loop_payloads fuel until_watch_id next ws2
                  | _ => []
                  end
              end
          | Err _ => []
          end
      | Err _ => []
      end
  | _ => []
  end.

End PaginationVocabulary.

(** ** Concrete transports, for the examples *)

(** The range a request asks for, read back from its [Range] header. *)
Definition parse_range (hdrs : dict string) : option (Z * Z) :=
  match dict_get hdrs "Range" with
  | Some v =>
      match drop_prefix "bytes=" v with
      | Some r =>
          match Py.split r "-" with
          | [a; b] =>
              match Py.int a, Py.int b with
              | Ok start, Ok stop => Some (start, stop)
              | _, _ => None
              end
          | _ => None
          end
      | None => None
      end
  | None => None
  end.

(** The response of a server that holds [data] to the range request
    [start]-[stop]. *)
Definition range_response (data : bytes) (start stop : Z) : response :=
  {| status := 206;
     headers :=
       [("Content-Range",
         ("bytes " ++ Py.str_of_int start ++ "-"
          ++ Py.str_of_int (Z.min stop (Py.len data - 1)) ++ "/"
          ++ Py.str_of_int (Py.len data))%string)];
     body := byte_range data start stop |}.

(** A server that holds one resource, [data], and answers every range
    request for it. *)
Definition file_server (data : bytes) : Session unit :=
  {| request := fun w method url hdrs _ =>
       match parse_range hdrs with
       | Some (start, stop) => (Responded (range_response data start stop), w)
       | None => (Failed (TOther "BadRequest"), w)
       end;
     close := fun w => w |}.

(** The same server behind a session whose first [k] requests fail with a
    [URLError] whose reason is a [socket.timeout]; the world counts the
    requests. *)
Definition flaky_server (k : nat) (data : bytes) : Session nat :=
  {| request := fun w method url hdrs _ =>
       if Nat.ltb w k then (Failed (TURLError SocketTimeout), S w)
       else
         match parse_range hdrs with
         | Some (start, stop) =>
             (Responded (range_response data start stop), S w)
         | None => (Failed (TOther "BadRequest"), S w)
         end;
     close := fun w => w |}.

(** The same server behind an [aiohttp] session whose first [k] requests
    run out of time; the world counts the requests. *)
Definition timing_out_server (k : nat) (data : bytes) : Session nat :=
  {| request := fun w method url hdrs _ =>
       if Nat.ltb w k then (Failed asyncio_timeout, S w)
       else
         match parse_range hdrs with
         | Some (start, stop) =>
             (Responded (range_response data start stop), S w)
         | None => (Failed (TOther "BadRequest"), S w)
         end;
     close := fun w => w |}.



(** A server that declares a resource of three bytes and sends one byte
    with each response. *)
Definition trickle_server : Session unit :=
  {| request := fun w method url hdrs _ =>
       (Responded {| status := 206;
                     headers := [("Content-Range", "bytes 0-0/3")];
                     body := list_byte_of_string "x" |}, w);
     close := fun w => w |}.

(** A server whose first response has no [Content-Range] header and two
    bytes of body, and whose later responses declare a total of one byte
    and carry one byte. *)
Definition late_header_server : Session nat :=
  {| request := fun w method url hdrs _ =>
       match w with
       | O =>
           (Responded {| status := 200; headers := [];
                         body := list_byte_of_string "ab" |}, S w)
       | S _ =>
           (Responded {| status := 206;
                         headers := [("Content-Range", "bytes 2-2/1")];
                         body := list_byte_of_string "c" |}, S w)
       end;
     close := fun w => w |}.

Definition hello : bytes := list_byte_of_string "hello world".

(** [urllib.parse] for urls of the form [scheme://netloc/path?query] whose
    query needs no quoting. *)
Definition simple_urlsplit (url : string) : SplitResult :=
  match Py.split url "://" with
  | sch :: rest =>
      match Py.split (String.concat "://" rest) "?" with
      | loc :: q =>
          match Py.split loc "/" with
          | host :: segs =>
              {| scheme := sch; netloc := host;
                 path := match segs with
                         | [] => ""
                         | _ :: _ => ("/" ++ String.concat "/" segs)%string
                         end;
                 query := String.concat "?" q |}
          | [] => {| scheme := sch; netloc := ""; path := ""; query := "" |}
          end
      | [] => {| scheme := sch; netloc := ""; path := ""; query := "" |}
      end
  | [] => {| scheme := ""; netloc := ""; path := ""; query := "" |}
  end.

Definition simple_parse_qsl (q : string) : list (string * string) :=
  if (q =? "")%string then []
  else
    map (fun field =>
           match Py.split field "=" with
           | k :: v => (k, String.concat "=" v)
           | [] => (field, "")
           end)
        (Py.split q "&").

Definition simple_urlencode (querys : dict qvalue) : string :=
  String.concat "&"
    (map (fun kv =>
            (fst kv ++ "="
             ++ match snd kv with
                | QStr v => v
                | QInt n => Py.str_of_int n
                end)%string)
         querys).

Definition simple_parse : urllib_parse :=
  {| urlsplit := simple_urlsplit;
     parse_qsl := simple_parse_qsl;
     urlencode := simple_urlencode |}.

(** A regular expression engine that knows the one pattern
    [Segment-Count: (\d+)], on [bytes]. *)
Definition simple_regex_search (pattern line : pyseq) (group : Z)
  : result pyseq :=
  match pattern, line with
  | PBytes p, PBytes l =>
      match segment_count_search (string_of_list_byte l) with
      | Some d => Ok (PBytes (list_byte_of_string d))
      | None => Err (RegexMatchError "regex_search" (string_of_list_byte p))
      end
  | PStr p, PStr l =>
      match segment_count_search l with
      | Some d => Ok (PStr d)
      | None => Err (RegexMatchError "regex_search" p)
      end
  | _, _ => Err TypeError
  end.

(** The sequence number [sq] of a url. *)
Definition sq_of (url : string) : option Z :=
  match dict_get (simple_parse_qsl (query (simple_urlsplit url))) "sq" with
  | Some v => match Py.int v with Ok n => Some n | Err _ => None end
  | None => None
  end.

(** A server of a segmented resource: [sq=0] is the header segment, [sq=n]
    the [n]-th segment. It answers range requests, and requests without a
    range with the whole segment. *)
Definition segment_server (header : bytes) (segments : list bytes)
  : Session unit :=
  {| request := fun w method url hdrs _ =>
       match sq_of url with
       | Some n =>
           match (if n =? 0 then Some header
                  else nth_error segments (Z.to_nat (n - 1))) with
           | Some data =>
               match parse_range hdrs with
               | Some (start, stop) =>
                   (Responded (range_response data start stop), w)
               | None =>
                   (Responded
                      {| status := 200;
                         headers :=
                           [("Content-Length", Py.str_of_int (Py.len data))];
                         body := data |}, w)
               end
           | None => (Failed (TOther "NotFound"), w)
           end
       | None => (Failed (TOther "NotFound"), w)
       end;
     close := fun w => w |}.

(** A header segment that announces two segments, and one that announces
    none. *)
Definition header_two : bytes :=
  list_byte_of_string "Segment-Count: 2" ++ CRLF
  ++ list_byte_of_string "Segment-Durations-Ms: 5000(r=1)" ++ CRLF.

Definition header_none : bytes :=
  list_byte_of_string "Segment-Durations-Ms: 5000(r=1)" ++ CRLF.

Definition segment_one : bytes := list_byte_of_string "first".
Definition segment_two : bytes := list_byte_of_string "second".

(** ** Concrete pages and a concrete playlist server, for the examples *)

(** The object with the single entry [k: v]. *)
Definition obj1 (k : string) (v : json) : json := JObj [(k, v)].

Definition video_item (id : string) : json :=
  obj1 "playlistVideoRenderer" (obj1 "videoId" (JStr id)).

Definition continuation_marker (token : string) : json :=
  obj1 "continuationItemRenderer"
    (obj1 "continuationEndpoint"
       (obj1 "continuationCommand" (obj1 "token" (JStr token)))).

(** A page as it is extracted from html, without submenus. *)
Definition html_page (items : list json) : json :=
  obj1 "contents"
    (obj1 "twoColumnBrowseResultsRenderer"
       (obj1 "tabs"
          (JList
             [obj1 "tabRenderer"
                (obj1 "content"
                   (obj1 "sectionListRenderer"
                      (obj1 "contents"
                         (JList
                            [obj1 "itemSectionRenderer"
                               (obj1 "contents"
                                  (JList
                                     [obj1 "playlistVideoListRenderer"
                                        (obj1 "contents" (JList items))]))]))))]))).

(** A page as the server sends it in a continuation response. *)
Definition continuation_page (items : list json) : json :=
  obj1 "onResponseReceivedActions"
    (JList
       [obj1 "appendContinuationItemsAction"
          (obj1 "continuationItems" (JList items))]).

Definition quote : string := String (ascii_of_nat 34) EmptyString.

(** A printer of JSON values, for strings that need no escape. *)
Fixpoint simple_dumps (v : json) : string :=
  match v with
  | JNull => "null"
  | JBool true => "true"
  | JBool false => "false"
  | JInt n => Py.str_of_int n
  | JStr s => (quote ++ s ++ quote)%string
  | JList l => ("[" ++ String.concat ", " (map simple_dumps l) ++ "]")%string
  | JObj o =>
      ("{"
       ++ String.concat ", "
            (map (fun kv =>
                    let '(k, x) := kv in
                    (quote ++ k ++ quote ++ ": " ++ simple_dumps x)%string)
                 o)
       ++ "}")%string
  end.

(** A reader of the documents of a known corpus. *)
Definition loads_among (docs : list json) (raw : string) : result json :=
  match find (fun d => (simple_dumps d =? raw)%string) docs with
  | Some d => Ok d
  | None => Err (ValueError "JSONDecodeError")
  end.

(** A server of a playlist: a [GET] is answered with the html of the
    playlist page, the [n]-th [POST] with the [n]-th continuation page. The
    world counts the continuation pages served. *)
Definition playlist_server (page_html : string) (continuations : list json)
  : Session nat :=
  {| request := fun w method url hdrs _ =>
       if (method =? "GET")%string then
         (Responded {| status := 200; headers := [];
                       body := list_byte_of_string page_html |}, w)
       else
         match nth_error continuations w with
         | Some page =>
             (Responded {| status := 200; headers := [];
                           body := list_byte_of_string (simple_dumps page) |},
              S w)
         | None => (Failed (TOther "ClientError"), w)
         end;
     close := fun w => w |}.

(** [pytube.extract] for a playlist whose html holds [first_page]. *)
Definition simple_extract (first_page : json) : extract_module :=
  {| playlist_id_of := fun _ => Ok "PL1";
     get_ytcfg := fun _ => Ok (JObj [("INNERTUBE_API_KEY", JStr "key")]);
     initial_data_of := fun _ => Ok first_page |}.

(** Three pages: the second holds the video [d], the first two end with a
    continuation marker. *)
Definition page_one : json :=
  html_page [video_item "a"; video_item "b"; continuation_marker "t1"].
Definition page_two : json :=
  continuation_page [video_item "c"; video_item "d"; video_item "e";
                     continuation_marker "t2"].
Definition page_three : json :=
  continuation_page [video_item "f"].

(** Two pages that both hold the video [a]. *)
Definition dup_page_one : json :=
  html_page [video_item "a"; video_item "b"; video_item "a";
             continuation_marker "t1"].
Definition dup_page_two : json :=
  continuation_page [video_item "a"; video_item "c"].

(** [_paginate] on a playlist served page by page. *)
Definition paginate_pages (first_page : json) (continuations : list json)
  (fuel : nat) (until_watch_id : option string) :=
  _paginate (playlist_server "<html>" continuations) ""
    (loads_among (first_page :: continuations)) simple_dumps
    (simple_extract first_page) simple_dumps fuel until_watch_id
    (O, new_playlist "https://www.youtube.com/playlist?list=PL1").

(** The payloads behind the pages of that enumeration. *)
Definition payloads_of_pages (first_page : json) (continuations : list json)
  (fuel : nat) (until_watch_id : option string) : list string :=
  paginate_payloads (playlist_server "<html>" continuations) ""
    (loads_among (first_page :: continuations)) simple_dumps
    (simple_extract first_page) simple_dumps fuel until_watch_id
    (O, new_playlist "https://www.youtube.com/playlist?list=PL1").

(** ** More of [request.py]: [filesize] *)

Section RequestMore.

Context {World : Type}.
Variable session : Session World.
Variable cookie : string.

(** [filesize]: [int((await head(url, session))["content-length"])], for a
    call that the [lru_cache] does not answer. *)
Definition filesize {Y : Type} (url : string) : Gen World Y Z :=
  head_content_length session cookie url.

End RequestMore.

(** The value of the last header of [h] whose name is [name] once in lower
    case. *)
Definition last_header (h : dict string) (name : string) : option string :=
  fold_left
    (fun acc kv => if (Py.lower (fst kv) =? name)%string then Some (snd kv)
                   else acc)
    h None.

(** What [stream] may put in its trace for [url]: a chunk that is neither
    empty nor longer than [default_chunk_size], or a [GET] of [url] without
    a body whose headers are the base headers and one more, a [Range] from
    [start] to [stop] with [0 <= start <= stop]. *)
Definition stream_event_ok (cookie url : string) (ev : event bytes) : Prop :=
  match ev with
  | Yield chunk => chunk <> [] /\ Py.len chunk <= default_chunk_size
  | Request method url' hdrs data =>
      method = "GET" /\ url' = url /\ data = None
      /\ exists start stop,
           0 <= start <= stop
           /\ hdrs = base_headers cookie ++ [("Range", range_header start stop)]
  end.

(** ** More of [playlist.py]: [_video_url] and [video_urls] *)

(** [f"https://www.youtube.com{watch_path}"] *)
Definition _video_url (watch_path : string) : string :=
  ("https://www.youtube.com" ++ watch_path)%string.

(** [async for page in g: for vid in page: yield self._video_url(vid)] *)
Fixpoint flatten_pages (t : list (event (list string)))
  : list (event string) :=
  match t with
  | [] => []
  | Request method url hdrs data :: r =>
      Request method url hdrs data :: flatten_pages r
  | Yield page :: r =>
      map (fun vid => Yield (_video_url vid)) page ++ flatten_pages r
  end.

Section PlaylistMore.

Context {World : Type}.
Variable session : Session World.
Variable cookie : string.
Variable json_loads : string -> result json.
Variable json_dumps : json -> string.
Variable extract : extract_module.
Variable repr : json -> string.

Definition video_urls (fuel : nat) : PGen (World:=World) string unit :=
  fun ws =>
    let '(t, ws1, o) :=
      _paginate session cookie json_loads json_dumps extract repr fuel None
        ws in
    (flatten_pages t, ws1, o).

End PlaylistMore.

(** A section of a playlist page that holds the list of videos, and a page
    extracted from html with the given sections. *)
Definition video_section (items : list json) : json :=
  obj1 "itemSectionRenderer"
    (obj1 "contents"
       (JList [obj1 "playlistVideoListRenderer"
                 (obj1 "contents" (JList items))])).

Definition html_page_of_sections (sections : list json) : json :=
  obj1 "contents"
    (obj1 "twoColumnBrowseResultsRenderer"
       (obj1 "tabs"
          (JList
             [obj1 "tabRenderer"
                (obj1 "content"
                   (obj1 "sectionListRenderer"
                      (obj1 "contents" (JList sections))))]))).

(** The path from a section to its list of videos. *)
Definition video_list_path : list subscript :=
  [Key "itemSectionRenderer"; Key "contents"; Index 0;
   Key "playlistVideoListRenderer"].

(** A string of decimal digits. *)
Fixpoint all_digits (s : string) : bool :=
  match s with
  | EmptyString => true
  | String c r => (Py.is_digit c && all_digits r)%bool
  end.

(** The line gives a segment count that [int] refuses: one of more than
    [int_max_str_digits] digits. *)
Definition segment_count_too_long (line : bytes) : bool :=
  match segment_count_search (string_of_list_byte line) with
  | Some group1 => Py.int_max_str_digits <? Z.of_nat (String.length group1)
  | None => false
  end.

(** A header line that gives a segment count of [n] digits. *)
Definition segment_count_line (n : nat) : bytes :=
  list_byte_of_string
    ("Segment-Count: " ++ string_of_list_ascii (repeat "1"%char n)).

(** The last value bound to [name] in a list of pairs. *)
Definition last_value {V : Type} (l : list (string * V)) (name : string)
  : option V :=
  fold_left
    (fun acc kv => if (fst kv =? name)%string then Some (snd kv) else acc)
    l None.

(** The body of a continuation request for [token]. *)
Definition continuation_body (token : json) : json :=
  JObj [ ("continuation", token);
         ("context",
          JObj [ ("client",
                  JObj [ ("clientName", JStr "WEB");
                         ("clientVersion", JStr "2.20200720.00.02") ]) ]) ].

(** What [_paginate] may send: a [GET] without a body, or a [POST] to the
    browse endpoint, under some key, whose body carries a continuation
    token that is not false. *)
Definition paginate_request_ok (ev : event (list string)) : Prop :=
  match ev with
  | Yield _ => True
  | Request method url hdrs data =>
      (method = "GET" /\ data = None)
      \/ (method = "POST"
          /\ (exists key,
                url = ("https://www.youtube.com/youtubei/v1/browse?key="
                       ++ key)%string)
          /\ exists token,
               truthy token = true /\ data = Some (continuation_body token))
  end.

(** Every event of the computation satisfies [P]. *)
Definition trace_all {W Y X : Type} (P : event Y -> Prop) (m : Gen W Y X)
  : Prop :=
  forall w, Forall P (fst (fst (m w))).

(** The request for a next page, when there is one, goes to the browse
    endpoint with the continuation token in its body. *)
Definition next_request_ok (next : option (string * dict string * json))
  : Prop :=
  match next with
  | None => True
  | Some (url, _, data) =>
      (exists key,
         url = ("https://www.youtube.com/youtubei/v1/browse?key="
                ++ key)%string)
      /\ exists token, truthy token = true /\ data = continuation_body token
  end.
(* ================================================================= *)
(** * Part II: properties *)
(* ================================================================= *)

#[local] Arguments Z.add : simpl never.
#[local] Arguments Z.sub : simpl never.
#[local] Arguments Z.mul : simpl never.
#[local] Arguments Z.min : simpl never.
#[local] Arguments Z.geb : simpl never.
#[local] Arguments Z.leb : simpl never.
#[local] Arguments Z.ltb : simpl never.
#[local] Arguments Z.eqb : simpl never.
#[local] Arguments Z.to_nat : simpl never.
#[local] Arguments Z.of_nat : simpl never.

(** ** Generators *)

Lemma yields_app {Y : Type} (a b : list (event Y)) :
  yields (a ++ b) = yields a ++ yields b.
Proof.
  induction a as [|e a IH]; simpl; [reflexivity|].
  destruct e; simpl; rewrite ?IH; reflexivity.
Qed.

Lemma requests_app {Y : Type} (a b : list (event Y)) :
  requests (a ++ b) = requests a ++ requests b.
Proof.
  induction a as [|e a IH]; simpl; [reflexivity|].
  destruct e; simpl; rewrite ?IH; reflexivity.
Qed.

Lemma yields_map_Yield {Y : Type} (l : list Y) : yields (map Yield l) = l.
Proof. induction l; simpl; congruence. Qed.

Lemma requests_map_Yield {Y : Type} (l : list Y) :
  requests (map (@Yield Y) l) = [].
Proof. induction l; simpl; congruence. Qed.

Lemma default_chunk_size_nat : (0 < Z.to_nat default_chunk_size)%nat.
Proof. unfold default_chunk_size. lia. Qed.

Lemma default_range_size_pos : 0 < default_range_size.
Proof. unfold default_range_size. lia. Qed.

#[local] Opaque default_chunk_size default_range_size.

Section RequestFacts.

Context {World : Type}.
Variable session : Session World.
Variable cookie : string.

(** *** [_execute_request] *)

Lemma execute_request_cases {Y : Type} url method hdrs data timeout w :
  let '(t, _, o) :=
    _execute_request (Y:=Y) session cookie url method hdrs data timeout w in
  (List.length t <= 1)%nat /\ o <> OutOfFuel /\ o <> Raise MaxRetriesExceeded
  /\ yields t = [].
Proof.
  unfold _execute_request.
  destruct (Py.startswith (Py.lower url) "http").
  - destruct (request session w method url (request_headers cookie hdrs) data)
      as [r w1].
    destruct r as [resp|[|reason|name]].
    + destruct (status resp =? 400); simpl; repeat split; auto; discriminate.
    + simpl; repeat split; auto; discriminate.
    + simpl; repeat split; auto; discriminate.
    + simpl; repeat split; auto; discriminate.
  - simpl. repeat split; auto; discriminate.
Qed.

(** *** The retry loop *)

Lemma retry_loop_outcome url range timeout max_retries :
  forall fuel tries w,
    (Z.to_nat (1 + max_retries - tries) <= fuel)%nat ->
    let '(t, _, o) :=
      retry_loop session cookie fuel url range timeout max_retries tries w in
    o = first_non_timeout
          (attempt_outcomes session cookie
             (Z.to_nat (1 + max_retries - tries)) url range timeout w)
    /\ (List.length (requests t)
        <= attempts_made
             (attempt_outcomes session cookie
                (Z.to_nat (1 + max_retries - tries)) url range timeout w))%nat
    /\ yields t = [].
Proof.
  induction fuel as [|f IH]; intros tries w Hfuel.
  - assert (E : Z.to_nat (1 + max_retries - tries) = O) by lia.
    rewrite E. simpl.
    destruct (tries >=? 1 + max_retries) eqn:G.
    + simpl. auto.
    + rewrite Z.geb_leb in G. apply Z.leb_gt in G. lia.
  - simpl.
    destruct (tries >=? 1 + max_retries) eqn:G.
    + rewrite Z.geb_leb in G. apply Z.leb_le in G.
      replace (Z.to_nat (1 + max_retries - tries)) with O by lia.
      simpl. auto.
    + rewrite Z.geb_leb in G. apply Z.leb_gt in G.
      destruct (Z.to_nat (1 + max_retries - tries)) as [|n] eqn:En; [lia|].
      assert (En' : Z.to_nat (1 + max_retries - (tries + 1)) = n) by lia.
      simpl. unfold bind, attempt, range_request.
      pose proof (execute_request_cases (Y:=bytes) url "GET"
                    (Some [("Range", range)]) None timeout w) as Hc.
      destruct (_execute_request session cookie url "GET"
                  (Some [("Range", range)]) None timeout w) as [[t1 w1] o1].
      destruct Hc as (Hlen & Hnf & Hnm & Hy).
      assert (Hr : (List.length (requests t1) <= 1)%nat).
      { destruct t1 as [|e [|e' t1]]; simpl in *; try lia.
        destruct e; simpl; lia. }
      destruct o1 as [resp|e|]; [| |congruence].
      * simpl. rewrite app_nil_r. repeat split; auto; lia.
      * destruct e as [| | | | | | | |reason|]; simpl;
          try (rewrite app_nil_r; repeat split; auto; lia).
        destruct reason as [|msg]; simpl;
          try (rewrite app_nil_r; repeat split; auto; lia).
        specialize (IH (tries + 1) w1). rewrite En' in IH.
        specialize (IH ltac:(lia)).
        destruct (retry_loop session cookie f url range timeout max_retries
                    (tries + 1) w1) as [[t2 w2] o2].
        destruct IH as (Ho & Hl & Hy2).
        rewrite requests_app, yields_app, length_app, Hy, Hy2.
        repeat split; auto; lia.
Qed.


Lemma retry_first_success url range timeout max_retries w t w1 resp :
  0 <= max_retries ->
  range_request session cookie url range timeout w = (t, w1, Return resp) ->
  retry_loop session cookie (Z.to_nat (1 + max_retries)) url range timeout
    max_retries 0 w = (t, w1, Return resp).
Proof.
  intros Hmr Hreq.
  destruct (Z.to_nat (1 + max_retries)) as [|n] eqn:En; [lia|].
  simpl.
  destruct (0 >=? 1 + max_retries) eqn:G.
  { rewrite Z.geb_leb in G. apply Z.leb_le in G. lia. }
  unfold bind, attempt. unfold range_request in Hreq. rewrite Hreq.
  simpl. rewrite app_nil_r. reflexivity.
Qed.

(** *** Reading the body *)

Lemma read_loop_spec :
  forall fuel content downloaded (w : World),
    (List.length content < fuel)%nat ->
    exists chunks,
      read_loop fuel content downloaded w
      = (map Yield chunks, w, Return (downloaded + Py.len content))
      /\ List.concat chunks = content
      /\ Forall (fun c => c <> []) chunks.
Proof.
  induction fuel as [|f IH]; intros content downloaded w Hlen; [lia|].
  pose proof default_chunk_size_nat as Hn.
  simpl.
  destruct (firstn (Z.to_nat default_chunk_size) content) as [|b chunk] eqn:E.
  - assert (content = []) as ->.
    { destruct content as [|x content]; [reflexivity|].
      destruct (Z.to_nat default_chunk_size); [lia|discriminate]. }
    exists []. unfold ret, Py.len. simpl. rewrite Z.add_0_r. auto.
  - pose proof (firstn_skipn (Z.to_nat default_chunk_size) content) as Hfs.
    rewrite E in Hfs.
    assert (Hlt : (List.length (skipn (Z.to_nat default_chunk_size) content)
                   < f)%nat).
    { apply (f_equal (@List.length byte)) in Hfs.
      rewrite length_app in Hfs. simpl in Hfs. lia. }
    destruct (IH (skipn (Z.to_nat default_chunk_size) content)
                (downloaded + Py.len (b :: chunk)) w Hlt)
      as (chunks & Hrun & Hcat & Hne).
    exists ((b :: chunk) :: chunks).
    unfold bind, yield. rewrite Hrun. simpl. repeat split.
    + f_equal. f_equal.
      apply (f_equal (@List.length byte)) in Hfs.
      rewrite length_app in Hfs. unfold Py.len. lia.
    + rewrite Hcat. exact Hfs.
    + constructor; [discriminate|assumption].
Qed.

(** *** Learning the size *)

Lemma headers_getitem_error h name e :
  headers_getitem h name = Err e -> e = KeyError.
Proof.
  induction h as [|[k v] h IH]; simpl.
  - congruence.
  - destruct (_ =? _)%string; [discriminate|assumption].
Qed.

Lemma parse_unsigned_error s e :
  Py.parse_unsigned s = Err e -> exists msg, e = ValueError msg.
Proof.
  unfold Py.parse_unsigned, Py.invalid_literal, Py.exceeds_limit.
  destruct s as [|c r]; [intros H; inversion H; eauto|].
  destruct (Py.is_digit c); [|intros H; inversion H; eauto].
  destruct (Py.scan_digits (Py.digit_value c) 1 r) as [[[n digits] rest]|];
    [|intros H; inversion H; eauto].
  destruct (Py.int_max_str_digits <? digits); [intros H; inversion H; eauto|].
  destruct (Py.lstrip rest =? "")%string; intros H; inversion H; eauto.
Qed.

Lemma int_error s e : Py.int s = Err e -> exists msg, e = ValueError msg.
Proof.
  unfold Py.int.
  assert (Hneg : forall r,
             rbind (Py.parse_unsigned r) (fun n => Ok (- n)) = Err e ->
             exists msg, e = ValueError msg).
  { intros r. destruct (Py.parse_unsigned r) as [n|e'] eqn:E; simpl;
      [discriminate|].
    intros H. inversion H; subst. eapply parse_unsigned_error, E. }
  destruct (Py.lstrip s) as [|c r] eqn:El.
  - apply parse_unsigned_error.
  - destruct c as [[] [] [] [] [] [] [] []];
      solve [apply parse_unsigned_error | apply Hneg].
Qed.

Lemma learn_file_size_total file_size resp :
  exists file_size',
    learn_file_size file_size resp = Ok file_size'
    /\ (file_size <> default_range_size -> file_size' = file_size).
Proof.
  unfold learn_file_size.
  destruct (file_size =? default_range_size) eqn:E.
  - apply Z.eqb_eq in E.
    destruct (content_range_size resp) as [n|e] eqn:C.
    + exists n. split; [reflexivity|congruence].
    + exists file_size.
      unfold content_range_size, rbind in C.
      destruct (headers_getitem (headers resp) "Content-Range") as [cr|e0] eqn:H.
      * destruct (nth_error (Py.split cr "/") 1) as [field|].
        -- apply int_error in C. destruct C as [msg ->]. auto.
        -- inversion C. auto.
      * apply headers_getitem_error in H. inversion C. subst. auto.
  - exists file_size. auto.
Qed.

(** *** One window *)

Lemma stream_window_spec url timeout max_retries file_size downloaded w :
  let range :=
    range_header downloaded
      (Z.min (downloaded + default_range_size) file_size - 1) in
  let '(t1, w1, o1) :=
    retry_loop session cookie (Z.to_nat (1 + max_retries)) url range timeout
      max_retries 0 w in
  match o1 with
  | Return resp =>
      exists chunks file_size',
        stream_window session cookie url timeout max_retries file_size
          downloaded w
        = (t1 ++ map Yield chunks, w1,
           Return (file_size', downloaded + Py.len (body resp)))
        /\ learn_file_size file_size resp = Ok file_size'
        /\ List.concat chunks = body resp
        /\ Forall (fun c => c <> []) chunks
  | Raise e =>
      stream_window session cookie url timeout max_retries file_size
        downloaded w = (t1, w1, Raise e)
  | OutOfFuel =>
      stream_window session cookie url timeout max_retries file_size
        downloaded w = (t1, w1, OutOfFuel)
  end.
Proof.
  intros range.
  destruct (retry_loop session cookie (Z.to_nat (1 + max_retries)) url range
              timeout max_retries 0 w) as [[t1 w1] o1] eqn:Hretry.
  unfold stream_window. fold range. unfold bind. rewrite Hretry.
  destruct o1 as [resp|e|]; try reflexivity.
  destruct (learn_file_size_total file_size resp) as (fs' & Hfs & _).
  destruct (read_loop_spec (S (List.length (body resp))) (body resp)
              downloaded w1 ltac:(lia)) as (chunks & Hrun & Hcat & Hne).
  exists chunks, fs'. split; [|auto].
  rewrite Hfs. unfold lift, ret. cbv beta iota zeta.
  rewrite Hrun. simpl. rewrite app_nil_r. reflexivity.
Qed.

End RequestFacts.

(** ** Retries within one range window *)

Lemma first_non_timeout_all outs :
  forallb is_timeout outs = true ->
  first_non_timeout outs = Raise MaxRetriesExceeded.
Proof.
  induction outs as [|o outs IH]; simpl; [reflexivity|].
  destruct (is_timeout o); simpl; [exact IH|discriminate].
Qed.

Lemma first_non_timeout_max outs :
  Forall (fun o => o <> Raise MaxRetriesExceeded) outs ->
  first_non_timeout outs = Raise MaxRetriesExceeded ->
  forallb is_timeout outs = true.
Proof.
  induction 1 as [|o outs Ho _ IH]; simpl; [reflexivity|].
  destruct (is_timeout o); simpl; [exact IH|contradiction].
Qed.

Lemma first_non_timeout_prefix k o rest :
  is_timeout o = false ->
  first_non_timeout (repeat (Raise (URLError SocketTimeout)) k ++ o :: rest) = o
  /\ attempts_made (repeat (Raise (URLError SocketTimeout)) k ++ o :: rest)
     = S k.
Proof.
  intros Ho. induction k as [|k [IH1 IH2]]; simpl.
  - rewrite Ho. auto.
  - rewrite IH1, IH2. auto.
Qed.

Lemma first_non_timeout_firstn k o outs :
  is_timeout o = false ->
  firstn (S k) outs = repeat (Raise (URLError SocketTimeout)) k ++ [o] ->
  first_non_timeout outs = o /\ attempts_made outs = S k.
Proof.
  intros Ho Hpre.
  rewrite <- (firstn_skipn (S k) outs), Hpre, <- app_assoc.
  apply first_non_timeout_prefix. exact Ho.
Qed.

Lemma not_timeout_raise e :
  e <> URLError SocketTimeout -> is_timeout (Raise (X:=response) e) = false.
Proof.
  intros He. destruct e as [| | | | | | | |[|msg]|]; try reflexivity.
  contradiction.
Qed.

Lemma attempts_made_le outs : (attempts_made outs <= List.length outs)%nat.
Proof.
  induction outs as [|o outs IH]; simpl; [lia|].
  destruct (is_timeout o); lia.
Qed.

Section Retries.

Context {World : Type}.
Variable session : Session World.
Variable cookie : string.

Lemma attempt_outcomes_length n url range timeout (w : World) :
  List.length (attempt_outcomes session cookie n url range timeout w) = n.
Proof.
  revert w. induction n as [|n IH]; intros w; simpl; [reflexivity|].
  destruct (range_request session cookie url range timeout w) as [[t w1] o].
  simpl. rewrite IH. reflexivity.
Qed.

Lemma attempt_outcomes_not_max n url range timeout (w : World) :
  Forall (fun o => o <> Raise MaxRetriesExceeded)
    (attempt_outcomes session cookie n url range timeout w).
Proof.
  revert w. induction n as [|n IH]; intros w; simpl; [constructor|].
  pose proof (execute_request_cases session cookie (Y:=bytes) url "GET"
                (Some [("Range", range)]) None timeout w) as Hc.
  unfold range_request.
  destruct (_execute_request session cookie url "GET"
              (Some [("Range", range)]) None timeout w) as [[t w1] o].
  constructor; [tauto|apply IH].
Qed.

Lemma attempt_outcomes_not_fuel n url range timeout (w : World) :
  Forall (fun o => o <> OutOfFuel)
    (attempt_outcomes session cookie n url range timeout w).
Proof.
  revert w. induction n as [|n IH]; intros w; simpl; [constructor|].
  pose proof (execute_request_cases session cookie (Y:=bytes) url "GET"
                (Some [("Range", range)]) None timeout w) as Hc.
  unfold range_request.
  destruct (_execute_request session cookie url "GET"
              (Some [("Range", range)]) None timeout w) as [[t w1] o].
  constructor; [tauto|apply IH].
Qed.

(** The retry loop as it is written, for a session that may raise
    [URLError]. Within one range window the request is sent at most
    [1 + max_retries] times; the window ends with [MaxRetriesExceeded]
    exactly when all [1 + max_retries] consecutive attempts fail with a
    [URLError] whose reason is a [socket.timeout]; such failures followed by
    a success within the bound give the bytes of the successful response and
    no error; any other failure is raised at once, after no further
    attempt. *)
Lemma stream_window_url_error_retries
  url timeout max_retries file_size downloaded (w : World) t w' o :
  stream_window session cookie url timeout max_retries file_size downloaded w
  = (t, w', o) ->
  let n := Z.to_nat (1 + max_retries) in
  let range :=
    range_header downloaded
      (Z.min (downloaded + default_range_size) file_size - 1) in
  let outs := attempt_outcomes session cookie n url range timeout w in
  (List.length (requests t) <= n)%nat
  /\ (o = Raise MaxRetriesExceeded <-> forallb is_timeout outs = true)
  /\ (forall k resp,
        (k < n)%nat ->
        firstn (S k) outs
        = repeat (Raise (URLError SocketTimeout)) k ++ [Return resp] ->
        List.concat (yields t) = body resp
        /\ exists file_size',
             o = Return (file_size', downloaded + Py.len (body resp)))
  /\ (forall k e,
        (k < n)%nat ->
        e <> URLError SocketTimeout ->
        firstn (S k) outs
        = repeat (Raise (URLError SocketTimeout)) k ++ [Raise e] ->
        o = Raise e /\ yields t = []
        /\ (List.length (requests t) <= S k)%nat).
Proof.
  intros Hrun n range outs.
  pose proof (stream_window_spec session cookie url timeout max_retries
                file_size downloaded w) as Hspec.
  pose proof (retry_loop_outcome session cookie url range timeout max_retries
                n 0 w) as Hretry.
  fold range in Hspec. cbv zeta in Hspec.
  replace (Z.to_nat (1 + max_retries - 0)) with n in Hretry
    by (unfold n; f_equal; lia).
  specialize (Hretry (le_n n)). fold outs in Hretry. fold n in Hspec.
  destruct (retry_loop session cookie n url range timeout max_retries 0 w)
    as [[t1 w1] o1].
  destruct Hretry as (Ho1 & Hreq & Hy).
  pose proof (attempts_made_le outs) as Hle.
  assert (Hlen : List.length outs = n) by apply attempt_outcomes_length.
  assert (Hnm : Forall (fun o => o <> Raise MaxRetriesExceeded) outs)
    by apply attempt_outcomes_not_max.
  destruct o1 as [resp1|e1|].
  - destruct Hspec as (chunks & fs' & Hw & Hfs & Hcat & Hne).
    rewrite Hw in Hrun. inversion Hrun; subst t w' o; clear Hrun.
    rewrite requests_app, requests_map_Yield, app_nil_r.
    rewrite yields_app, yields_map_Yield, Hy. cbn [app].
    split; [lia|]. split; [|split].
    + split; [discriminate|].
      intros Hall. apply first_non_timeout_all in Hall. congruence.
    + intros k resp Hk Hpre.
      destruct (first_non_timeout_firstn k (Return resp) outs eq_refl Hpre)
        as [E _].
      rewrite E in Ho1. inversion Ho1; subst resp1. eauto.
    + intros k e Hk He Hpre.
      destruct (first_non_timeout_firstn k (Raise e) outs
                  (not_timeout_raise e He) Hpre) as [E _].
      rewrite E in Ho1. discriminate.
  - rewrite Hspec in Hrun. inversion Hrun; subst t w' o; clear Hrun.
    split; [lia|]. split; [|split].
    + split.
      * intros E. apply first_non_timeout_max; congruence.
      * intros Hall. apply first_non_timeout_all in Hall. congruence.
    + intros k resp Hk Hpre.
      destruct (first_non_timeout_firstn k (Return resp) outs eq_refl Hpre)
        as [E _].
      rewrite E in Ho1. discriminate.
    + intros k e Hk He Hpre.
      destruct (first_non_timeout_firstn k (Raise e) outs
                  (not_timeout_raise e He) Hpre) as [E1 E2].
      rewrite E1 in Ho1. rewrite E2 in Hreq. inversion Ho1. auto.
  - exfalso.
    assert (Hnf : Forall (fun o => o <> OutOfFuel (X:=response)) outs)
      by apply attempt_outcomes_not_fuel.
    clear - Ho1 Hnf. induction Hnf as [|o0 l H0 _ IH]; simpl in Ho1.
    + discriminate.
    + destruct (is_timeout o0); [auto|congruence].
Qed.

(** A session that raises no [URLError] never makes [_execute_request]
    raise one. *)
Lemma execute_request_no_url_error {Y : Type}
  url method hdrs data timeout (w : World) reason :
  raises_no_url_error session ->
  snd (_execute_request (Y:=Y) session cookie url method hdrs data timeout w)
  <> Raise (URLError reason).
Proof.
  intros Hno. unfold _execute_request.
  destruct (Py.startswith (Py.lower url) "http"); [|discriminate].
  destruct (request session w method url (request_headers cookie hdrs) data)
    as [r w1] eqn:E.
  destruct r as [resp|[|reason'|name]]; cbn [snd]; try discriminate.
  - destruct (status resp =? 400); discriminate.
  - exfalso. exact (Hno _ _ _ _ _ _ _ E).
Qed.

(** With such a session the retry loop is one plain request: what the
    first attempt gives, a response or an exception, is what the loop
    gives; no second attempt is made and [MaxRetriesExceeded] is never
    raised. *)
Lemma retry_loop_without_url_error
  url range timeout max_retries (w : World) :
  0 <= max_retries ->
  raises_no_url_error session ->
  retry_loop session cookie (Z.to_nat (1 + max_retries)) url range timeout
    max_retries 0 w
  = range_request session cookie url range timeout w.
Proof.
  intros Hmr Hno.
  destruct (Z.to_nat (1 + max_retries)) as [|n] eqn:En; [lia|].
  cbn [retry_loop].
  destruct (0 >=? 1 + max_retries) eqn:G.
  { rewrite Z.geb_leb in G. apply Z.leb_le in G. lia. }
  unfold bind, attempt, range_request.
  pose proof (fun reason =>
                execute_request_no_url_error (Y:=bytes) url "GET"
                  (Some [("Range", range)]) None timeout w reason Hno) as Hne.
  destruct (_execute_request session cookie url "GET"
              (Some [("Range", range)]) None timeout w) as [[t w1] o].
  cbn [snd] in Hne.
  destruct o as [resp|e|]; cbn [ret raise]; rewrite ?app_nil_r;
    try reflexivity.
  destruct e as [| | | | | | | |[|msg]|]; cbn [raise]; rewrite ?app_nil_r;
    try reflexivity.
  exfalso. exact (Hne SocketTimeout eq_refl).
Qed.

End Retries.

Lemma timing_out_server_no_url_error k data :
  raises_no_url_error (timing_out_server k data).
Proof.
  intros w method url hdrs d reason w1. cbn [request timing_out_server].
  destruct (Nat.ltb w k); [discriminate|].
  destruct (parse_range hdrs) as [[start stop]|]; discriminate.
Qed.

(** C3, the code at a failing input. The session is an [aiohttp] session:
    a request that runs out of time raises [asyncio.TimeoutError], not a
    [URLError]. With three retries allowed and a server that would answer
    the second attempt, [stream] sends one request and ends with the
    [asyncio.TimeoutError] of the first: the timeout is not retried. With
    one retry allowed and a server that never answers in time, it ends in
    the same way after one request, not with [MaxRetriesExceeded] after
    two. *)
Theorem stream_timeout_not_retried :
  (let '(t, w, o) :=
     stream (timing_out_server 1 hello) "" 5 "http://h/v" 900 3 O in
   requests t = [("GET", "http://h/v")] /\ yields t = [] /\ w = 1%nat
   /\ o = Raise (OtherException "asyncio.TimeoutError"))
  /\ (let '(t, w, o) :=
        stream (timing_out_server 5 hello) "" 5 "http://h/v" 900 1 O in
      requests t = [("GET", "http://h/v")] /\ yields t = [] /\ w = 1%nat
      /\ o = Raise (OtherException "asyncio.TimeoutError")).
Proof. vm_compute. repeat split. Qed.

Lemma stream_window_url_error_retries_witness :
  exists t w' file_size',
    stream_window (flaky_server 1 hello) "" "http://h/v" 900 1
      default_range_size 0 O
    = (t, w', Return (file_size', 11))
    /\ List.concat (yields t) = hello.
Proof.
  destruct (stream_window (flaky_server 1 hello) "" "http://h/v" 900 1
              default_range_size 0 O) as [[t w'] o] eqn:E.
  destruct (stream_window_url_error_retries (flaky_server 1 hello) "" "http://h/v" 900 1
              default_range_size 0 O t w' o E) as (_ & _ & H3 & _).
  destruct (H3 1%nat (range_response hello 0 (default_range_size - 1))
              ltac:(vm_compute; lia) ltac:(vm_compute; reflexivity))
    as (Hcat & fs' & Ho).
  exists t, w', fs'. split.
  - rewrite Ho. reflexivity.
  - exact Hcat.
Defined.

(** ** The chunks of [stream] reproduce the resource *)

Lemma byte_range_firstn data start stop :
  byte_range data start stop
  = firstn (Z.to_nat (Z.min (stop + 1) (Py.len data) - start))
      (skipn (Z.to_nat start) data).
Proof.
  unfold byte_range. cbv zeta. do 2 f_equal. lia.
Qed.

Section StreamCorrect.

Context {World : Type}.
Variable session : Session World.
Variable cookie : string.
Variables (url : string) (timeout max_retries : Z) (data : bytes).

Hypothesis retries_ok : 0 <= max_retries.

Let total_size : Z := Py.len data.

(** One window against a server that answers its range request: it yields
    the bytes from [downloaded] up to the next offset and learns, or keeps,
    the size of the resource. *)
Lemma faithful_window file_size downloaded (w : World) :
  0 <= downloaded ->
  downloaded < file_size ->
  file_size = total_size \/ (file_size = default_range_size /\ downloaded = 0) ->
  answers_range session cookie url timeout data downloaded
    (Z.min (downloaded + default_range_size) file_size - 1) ->
  exists t w1,
    let downloaded' := Z.min (downloaded + default_range_size) total_size in
    stream_window session cookie url timeout max_retries file_size
      downloaded w
    = (t, w1, Return (total_size, downloaded'))
    /\ List.concat (yields t)
       = firstn (Z.to_nat (downloaded' - downloaded))
           (skipn (Z.to_nat downloaded) data)
    /\ downloaded <= downloaded' <= total_size.
Proof.
  intros Hd Hlt Hfs Hans.
  pose proof default_range_size_pos as HR.
  assert (HT : 0 <= total_size) by (unfold total_size, Py.len; lia).
  destruct (Hans w) as (t0 & w1 & resp & Hreq & Hbody & Hcr).
  pose proof (retry_first_success session cookie url _ timeout max_retries w
                t0 w1 resp retries_ok Hreq) as Hretry.
  pose proof (stream_window_spec session cookie url timeout max_retries
                file_size downloaded w) as Hspec.
  cbv zeta in Hspec. rewrite Hretry in Hspec.
  destruct Hspec as (chunks & fs' & Hw & Hlearn & Hcat & _).
  assert (Hy0 : yields t0 = []).
  { pose proof (execute_request_cases session cookie (Y:=bytes) url "GET"
                  (Some [("Range",
                          range_header downloaded
                            (Z.min (downloaded + default_range_size) file_size
                             - 1))])
                  None timeout w) as Hc.
    unfold range_request in Hreq. rewrite Hreq in Hc. tauto. }
  assert (Hfs' : fs' = total_size).
  { unfold learn_file_size in Hlearn. rewrite Hcr in Hlearn.
    destruct (file_size =? default_range_size) eqn:E.
    - inversion Hlearn. reflexivity.
    - apply Z.eqb_neq in E. inversion Hlearn. subst fs'.
      destruct Hfs as [Hfs|[Hfs _]]; [exact Hfs|contradiction]. }
  assert (Hcount :
    Z.min (Z.min (downloaded + default_range_size) file_size - 1 + 1)
      (Py.len data) - downloaded
    = Z.min (downloaded + default_range_size) total_size - downloaded).
  { fold total_size. destruct Hfs as [Hfs|[Hfs Hd0]]; subst; lia. }
  assert (Hlen :
    Py.len (body resp)
    = Z.min (downloaded + default_range_size) total_size - downloaded).
  { rewrite Hbody, byte_range_firstn, Hcount. unfold Py.len.
    rewrite length_firstn, length_skipn.
    unfold total_size, Py.len in *. lia. }
  exists (t0 ++ map Yield chunks), w1. cbv zeta. repeat split.
  - rewrite Hw, Hfs', Hlen. do 3 f_equal. lia.
  - rewrite yields_app, yields_map_Yield, Hy0. cbn [app].
    rewrite Hcat, Hbody, byte_range_firstn, Hcount. reflexivity.
  - lia.
  - lia.
Qed.

(** The main loop once the size is known: from [downloaded] on, it yields
    the rest of the resource and returns. *)
Lemma faithful_loop :
  faithful_server session cookie url timeout data ->
  forall k fuel downloaded (w : World),
    0 <= downloaded <= total_size ->
    (Z.to_nat (total_size - downloaded) <= k)%nat ->
    (k <= fuel)%nat ->
    exists t w',
      stream_loop session cookie fuel url timeout max_retries total_size
        downloaded w
      = (t, w', Return tt)
      /\ List.concat (yields t) = skipn (Z.to_nat downloaded) data.
Proof.
  intros [_ Hserver].
  pose proof default_range_size_pos as HR.
  induction k as [|k IH]; intros fuel downloaded w Hd Hk Hfuel.
  - assert (downloaded = total_size) by lia. subst downloaded.
    exists [], w. split.
    + destruct fuel; simpl; rewrite Z.ltb_irrefl; reflexivity.
    + simpl. unfold total_size, Py.len. rewrite Nat2Z.id, skipn_all.
      reflexivity.
  - destruct (Z.ltb_spec downloaded total_size) as [Hlt|Hge].
    + destruct fuel as [|fuel]; [lia|].
      destruct (faithful_window total_size downloaded w ltac:(lia) Hlt
                  (or_introl eq_refl) (Hserver downloaded ltac:(lia)))
        as (t1 & w1 & Hw & Hy1 & Hd').
      cbv zeta in Hw, Hy1, Hd'.
      set (downloaded' := Z.min (downloaded + default_range_size) total_size)
        in *.
      destruct (IH fuel downloaded' w1 ltac:(lia) ltac:(lia) ltac:(lia))
        as (t2 & w2 & Hloop & Hy2).
      exists (t1 ++ t2), w2. split.
      * simpl. apply Z.ltb_lt in Hlt. rewrite Hlt.
        unfold bind. rewrite Hw. cbn [fst snd]. rewrite Hloop. reflexivity.
      * rewrite yields_app, concat_app, Hy1, Hy2.
        replace (Z.to_nat downloaded')
          with (Z.to_nat (downloaded' - downloaded) + Z.to_nat downloaded)%nat
          by lia.
        rewrite <- skipn_skipn. apply firstn_skipn.
    + assert (downloaded = total_size) by lia. subst downloaded.
      exists [], w. split.
      * destruct fuel; simpl; rewrite Z.ltb_irrefl; reflexivity.
      * simpl. unfold total_size, Py.len. rewrite Nat2Z.id, skipn_all.
        reflexivity.
Qed.

End StreamCorrect.

(** C1. When the server answers each range request
    [downloaded, min(downloaded + default_range_size, total_size) - 1] with
    exactly the requested bytes, the chunks [stream] yields, put end to end,
    are the bytes [0, total_size) of the resource, and [stream] returns. *)
Theorem stream_reproduces_resource
  {World : Type} (session : Session World) (cookie url : string)
  (timeout max_retries : Z) (data : bytes) :
  0 <= max_retries ->
  faithful_server session cookie url timeout data ->
  exists fuel0, forall fuel (w : World),
    (fuel0 <= fuel)%nat ->
    exists t w',
      stream session cookie fuel url timeout max_retries w
      = (t, w', Return tt)
      /\ List.concat (yields t) = data.
Proof.
  intros Hmr Hserver.
  pose proof default_range_size_pos as HR.
  exists (S (List.length data)). intros fuel w Hfuel.
  destruct fuel as [|fuel]; [lia|].
  unfold stream. cbv zeta.
  destruct (faithful_window session cookie url timeout max_retries data Hmr
              default_range_size 0 w ltac:(lia) HR
              (or_intror (conj eq_refl eq_refl)) (proj1 Hserver))
    as (t1 & w1 & Hw & Hy1 & Hd').
  cbv zeta in Hw, Hy1, Hd'.
  set (downloaded' := Z.min (0 + default_range_size) (Py.len data)) in *.
  destruct (faithful_loop session cookie url timeout max_retries data Hmr
              Hserver (List.length data) fuel downloaded' w1
              ltac:(lia) ltac:(unfold Py.len in *; lia) ltac:(lia))
    as (t2 & w2 & Hloop & Hy2).
  exists (t1 ++ t2), w2. split.
  - simpl. apply Z.ltb_lt in HR. rewrite HR.
    unfold bind. rewrite Hw. cbn [fst snd]. rewrite Hloop. reflexivity.
  - rewrite yields_app, concat_app, Hy1, Hy2.
    rewrite Z.sub_0_r. change (Z.to_nat 0) with O. rewrite skipn_O.
    apply firstn_skipn.
Qed.

Lemma file_server_faithful :
  faithful_server (file_server hello) "" "http://h/v" 900 hello.
Proof.
  split.
  - intros []. eexists _, _, _. repeat split; vm_compute; reflexivity.
  - intros downloaded Hd. change (Py.len hello) with 11 in Hd.
    assert (H : downloaded = 0 \/ downloaded = 1 \/ downloaded = 2
                \/ downloaded = 3 \/ downloaded = 4 \/ downloaded = 5
                \/ downloaded = 6 \/ downloaded = 7 \/ downloaded = 8
                \/ downloaded = 9 \/ downloaded = 10) by lia.
    repeat (destruct H as [->|H]);
      try subst downloaded; intros [];
      eexists _, _, _; repeat split; vm_compute; reflexivity.
Defined.

Lemma stream_reproduces_resource_witness :
  exists fuel0, forall fuel (w : unit),
    (fuel0 <= fuel)%nat ->
    exists t w',
      stream (file_server hello) "" fuel "http://h/v" 900 0 w
      = (t, w', Return tt)
      /\ List.concat (yields t) = hello.
Proof.
  apply (stream_reproduces_resource (file_server hello) "" "http://h/v" 900 0
           hello).
  - lia.
  - exact file_server_faithful.
Defined.

(** ** Termination of the main loop of [stream] *)

Section Termination.

Context {World : Type}.
Variable session : Session World.
Variable cookie : string.

Lemma execute_request_response {Y : Type} (P : response -> Prop)
  url method hdrs data timeout (w : World) t w1 r :
  (forall w method url hdrs data r w1,
     request session w method url hdrs data = (Responded r, w1) -> P r) ->
  _execute_request (Y:=Y) session cookie url method hdrs data timeout w
  = (t, w1, Return r) ->
  P r.
Proof.
  intros HP. unfold _execute_request.
  destruct (Py.startswith (Py.lower url) "http"); [|discriminate].
  destruct (request session w method url (request_headers cookie hdrs) data)
    as [[resp|[|reason|name]] w2] eqn:E; try discriminate.
  destruct (status resp =? 400); [discriminate|].
  intros H. inversion H; subst. eapply HP, E.
Qed.

Lemma retry_loop_response (P : response -> Prop)
  url range timeout max_retries :
  (forall w method url hdrs data r w1,
     request session w method url hdrs data = (Responded r, w1) -> P r) ->
  forall fuel tries (w : World) t w1 r,
    retry_loop session cookie fuel url range timeout max_retries tries w
    = (t, w1, Return r) ->
    P r.
Proof.
  intros HP. induction fuel as [|f IH]; intros tries w t w1 r; simpl.
  - destruct (tries >=? 1 + max_retries); discriminate.
  - destruct (tries >=? 1 + max_retries); [discriminate|].
    unfold bind, attempt.
    destruct (_execute_request session cookie url "GET"
                (Some [("Range", range)]) None timeout w)
      as [[t1 w2] o1] eqn:E.
    destruct o1 as [resp|e|]; [| |discriminate].
    + simpl. intros H. inversion H; subst.
      eapply execute_request_response; eauto.
    + destruct e as [| | | | | | | |[|msg]|]; try discriminate.
      destruct (retry_loop session cookie f url range timeout max_retries
                  (tries + 1) w2) as [[t2 w3] o2] eqn:E2.
      intros H. inversion H; subst. eapply IH, E2.
Qed.

Lemma retry_loop_no_fuel url range timeout max_retries (w : World) t w1 o :
  retry_loop session cookie (Z.to_nat (1 + max_retries)) url range timeout
    max_retries 0 w = (t, w1, o) ->
  o <> OutOfFuel.
Proof.
  intros Hrun.
  pose proof (retry_loop_outcome session cookie url range timeout max_retries
                (Z.to_nat (1 + max_retries)) 0 w) as Hretry.
  replace (Z.to_nat (1 + max_retries - 0)) with (Z.to_nat (1 + max_retries))
    in Hretry by (f_equal; lia).
  specialize (Hretry (le_n _)). rewrite Hrun in Hretry.
  destruct Hretry as (Ho & _). subst o. clear Hrun.
  pose proof (attempt_outcomes_not_fuel session cookie
                (Z.to_nat (1 + max_retries)) url range timeout w) as Hnf.
  induction Hnf as [|o0 l H0 _ IH]; simpl; [discriminate|].
  destruct (is_timeout o0); [exact IH|exact H0].
Qed.

(** A window never runs out of fuel; against a session whose responses all
    have a body, a window that returns has advanced [downloaded], and it
    keeps a [file_size] that differs from the placeholder. *)
Lemma window_progress url timeout max_retries file_size downloaded
  (w : World) t w1 o :
  stream_window session cookie url timeout max_retries file_size downloaded w
  = (t, w1, o) ->
  o <> OutOfFuel
  /\ forall file_size' downloaded',
       o = Return (file_size', downloaded') ->
       (file_size <> default_range_size -> file_size' = file_size)
       /\ downloaded <= downloaded'
       /\ (bodies_nonempty session -> downloaded < downloaded').
Proof.
  intros Hrun.
  pose proof (stream_window_spec session cookie url timeout max_retries
                file_size downloaded w) as Hspec.
  cbv zeta in Hspec.
  destruct (retry_loop session cookie (Z.to_nat (1 + max_retries)) url
              (range_header downloaded
                 (Z.min (downloaded + default_range_size) file_size - 1))
              timeout max_retries 0 w) as [[t1 w2] o1] eqn:Hretry.
  destruct o1 as [resp|e|].
  - destruct Hspec as (chunks & fs' & Hw & Hlearn & _).
    rewrite Hw in Hrun. inversion Hrun; subst. split; [discriminate|].
    intros fs'' d'' H. inversion H; subst. split; [|split].
    + intros Hne.
      destruct (learn_file_size_total file_size resp) as (fs0 & E & Hkeep).
      rewrite E in Hlearn. inversion Hlearn; subst. auto.
    + unfold Py.len. lia.
    + intros Hbodies.
      assert (body resp <> []).
      { eapply (retry_loop_response (fun r => body r <> [])); eauto. }
      unfold Py.len. destruct (body resp); [contradiction|simpl; lia].
  - rewrite Hspec in Hrun. inversion Hrun; subst.
    split; discriminate.
  - apply retry_loop_no_fuel in Hretry. contradiction.
Qed.






End Termination.





(** ** [file_size] along the main loop of [stream] *)

Section FileSize.

Context {World : Type}.
Variable session : Session World.
Variable cookie : string.
Variables (url : string) (timeout max_retries : Z).

Lemma retry_loop_from_request range :
  forall fuel tries (w : World) t w1 r,
    retry_loop session cookie fuel url range timeout max_retries tries w
    = (t, w1, Return r) ->
    exists w0 t0,
      range_request session cookie url range timeout w0 = (t0, w1, Return r).
Proof.
  induction fuel as [|f IH]; intros tries w t w1 r; simpl.
  - destruct (tries >=? 1 + max_retries); discriminate.
  - destruct (tries >=? 1 + max_retries); [discriminate|].
    unfold bind, attempt.
    destruct (_execute_request session cookie url "GET"
                (Some [("Range", range)]) None timeout w)
      as [[t1 w2] o1] eqn:E.
    destruct o1 as [resp|e|]; [| |discriminate].
    + simpl. intros H. inversion H; subst. exists w, t1. exact E.
    + destruct e as [| | | | | | | |[|msg]|]; try discriminate.
      destruct (retry_loop session cookie f url range timeout max_retries
                  (tries + 1) w2) as [[t2 w3] o2] eqn:E2.
      intros H. inversion H; subst. eapply IH, E2.
Qed.

(** A window that starts with a [file_size] other than the placeholder
    keeps it, and keeps [downloaded] below it when the server sends no more
    than it is asked for. *)
Lemma window_keeps_size file_size downloaded (w : World) t w1
  file_size' downloaded' :
  stream_window session cookie url timeout max_retries file_size downloaded w
  = (t, w1, Return (file_size', downloaded')) ->
  file_size <> default_range_size ->
  file_size' = file_size
  /\ (within_range session cookie url timeout ->
      downloaded < file_size -> downloaded' <= file_size).
Proof.
  intros Hrun Hne.
  pose proof (stream_window_spec session cookie url timeout max_retries
                file_size downloaded w) as Hspec.
  cbv zeta in Hspec.
  destruct (retry_loop session cookie (Z.to_nat (1 + max_retries)) url
              (range_header downloaded
                 (Z.min (downloaded + default_range_size) file_size - 1))
              timeout max_retries 0 w) as [[t1 w2] o1] eqn:Hretry.
  destruct o1 as [resp|e|].
  - destruct Hspec as (chunks & fs' & Hw & Hlearn & _).
    rewrite Hw in Hrun. inversion Hrun; subst. split.
    + destruct (learn_file_size_total file_size resp) as (fs0 & E & Hkeep).
      rewrite E in Hlearn. inversion Hlearn; subst. auto.
    + intros Hin Hlt.
      destruct (retry_loop_from_request _ _ _ _ _ _ _ Hretry)
        as (w0 & t0 & Hreq).
      pose proof default_range_size_pos as HR.
      apply Hin in Hreq; lia.
  - rewrite Hspec in Hrun. discriminate.
  - rewrite Hspec in Hrun. discriminate.
Qed.

Lemma states_from_known_size :
  forall fuel file_size downloaded (w : World),
    file_size <> default_range_size ->
    Forall (fun st => fst st = file_size)
      (stream_states session cookie fuel url timeout max_retries file_size
         downloaded w)
    /\ (within_range session cookie url timeout ->
        downloaded <= file_size ->
        Forall (fun st => snd st <= file_size)
          (stream_states session cookie fuel url timeout max_retries
             file_size downloaded w)).
Proof.
  induction fuel as [|f IH]; intros fs d w Hne; simpl.
  - destruct (d <? fs); split; intros; repeat constructor; simpl; auto.
  - destruct (Z.ltb_spec d fs) as [Hlt|Hge].
    + destruct (stream_window session cookie url timeout max_retries fs d w)
        as [[t w1] o] eqn:Hw.
      destruct o as [[fs' d']|e|];
        try solve [split; intros; repeat constructor; simpl; auto].
      destruct (window_keeps_size _ _ _ _ _ _ _ Hw Hne) as [-> Hd'].
      destruct (IH fs d' w1 Hne) as [IH1 IH2].
      split.
      * constructor; [reflexivity|exact IH1].
      * intros Hin Hle. constructor; [exact Hle|].
        apply IH2; auto.
    + split; intros; repeat constructor; simpl; auto.
Qed.

Lemma stream_states_suffix :
  forall fuel file_size0 downloaded0 (w : World) pre file_size downloaded
    post,
    stream_states session cookie fuel url timeout max_retries file_size0
      downloaded0 w = pre ++ (file_size, downloaded) :: post ->
    exists fuel' w',
      stream_states session cookie fuel' url timeout max_retries file_size
        downloaded w' = (file_size, downloaded) :: post.
Proof.
  induction fuel as [|f IH]; intros fs0 d0 w pre fs d post H.
  - destruct pre as [|st pre].
    + simpl in H. inversion H; subst. exists O, w. simpl. congruence.
    + simpl in H. inversion H as [[Hst Hrest]].
      destruct (d0 <? fs0); destruct pre; discriminate.
  - destruct pre as [|st pre].
    + exists (S f), w. simpl in H |- *. inversion H; subst. congruence.
    + simpl in H. inversion H as [[Hst Hrest]].
      destruct (d0 <? fs0); [|destruct pre; discriminate].
      destruct (stream_window session cookie url timeout max_retries fs0 d0 w)
        as [[t w1] o].
      destruct o as [[fs' d']|e|]; try (destruct pre; discriminate).
      eapply IH, Hrest.
Qed.

(** The states are those of the main loop: when [stream_loop] returns, the
    last state is the one that made the condition of the loop false. *)
Lemma stream_loop_returns_at_last_state :
  forall fuel file_size downloaded (w : World) t w' dflt,
    stream_loop session cookie fuel url timeout max_retries file_size
      downloaded w = (t, w', Return tt) ->
    exists file_size' downloaded',
      last (stream_states session cookie fuel url timeout max_retries
              file_size downloaded w) dflt
      = (file_size', downloaded')
      /\ file_size' <= downloaded'.
Proof.
  induction fuel as [|f IH]; intros fs d w t w' dflt; simpl.
  - destruct (Z.ltb_spec d fs) as [Hlt|Hge]; [discriminate|].
    intros _. exists fs, d. auto.
  - destruct (Z.ltb_spec d fs) as [Hlt|Hge].
    + unfold bind.
      destruct (stream_window session cookie url timeout max_retries fs d w)
        as [[t1 w1] o1].
      destruct o1 as [[fs1 d1]|e|]; try discriminate.
      cbn [fst snd].
      destruct (stream_loop session cookie f url timeout max_retries fs1 d1
                  w1) as [[t2 w2] o2] eqn:E.
      intros H. inversion H; subst.
      destruct (IH fs1 d1 w1 t2 w' dflt E) as (fs' & d' & Hlast & Hle).
      exists fs', d'. split; [|exact Hle].
      destruct f; simpl in Hlast |- *; exact Hlast.
    + intros _. exists fs, d. auto.
Qed.

(** C8, as amended. [file_size] is read from the [Content-Range] header of
    a response as long as it still equals the placeholder
    [default_range_size]; once it has another value it is never modified
    again, and from then on [downloaded <= file_size] is kept by every
    window, provided it holds at that point and the server never sends more
    than the range asked for. *)
Theorem file_size_fixed_once_learnt
  fuel file_size0 downloaded0 (w : World) pre file_size downloaded post :
  stream_states session cookie fuel url timeout max_retries file_size0
    downloaded0 w = pre ++ (file_size, downloaded) :: post ->
  file_size <> default_range_size ->
  Forall (fun st => fst st = file_size) post
  /\ (within_range session cookie url timeout ->
      downloaded <= file_size ->
      Forall (fun st => snd st <= file_size) post).
Proof.
  intros Hstates Hne.
  destruct (stream_states_suffix _ _ _ _ _ _ _ _ Hstates)
    as (fuel' & w' & Hsuffix).
  destruct (states_from_known_size fuel' file_size downloaded w' Hne)
    as [H1 H2].
  rewrite Hsuffix in H1, H2. split.
  - inversion H1; assumption.
  - intros Hin Hle. specialize (H2 Hin Hle). inversion H2; assumption.
Qed.

End FileSize.

Lemma trickle_within_range :
  within_range trickle_server "" "http://h/v" 900.
Proof.
  intros w start stop t w1 r Hle H.
  unfold range_request, _execute_request in H. simpl in H.
  inversion H; subst. unfold Py.len. simpl. lia.
Qed.

Lemma file_size_fixed_once_learnt_witness :
  Forall (fun st : Z * Z => fst st = 3) [(3, 2); (3, 3)]
  /\ Forall (fun st : Z * Z => snd st <= 3) [(3, 2); (3, 3)].
Proof.
  destruct (file_size_fixed_once_learnt trickle_server "" "http://h/v" 900 0
              5 default_range_size 0 tt [(default_range_size, 0)] 3 1
              [(3, 2); (3, 3)]
              ltac:(vm_compute; reflexivity)
              ltac:(vm_compute; discriminate)) as [H1 H2].
  split.
  - exact H1.
  - apply H2; [exact trickle_within_range|lia].
Defined.

(** C8, counterexample. The first response has no [Content-Range] header;
    the size is then read from the second response, and what has been
    downloaded exceeds it. *)
Lemma late_header_changes_size :
  ~ size_fixed_after_first_response
      (stream_states late_header_server "" 5 "http://h/v" 900 0
         default_range_size 0 O).
Proof.
  assert (E : stream_states late_header_server "" 5 "http://h/v" 900 0
                default_range_size 0 O
              = [(default_range_size, 0); (default_range_size, 2); (1, 3)])
    by (vm_compute; reflexivity).
  rewrite E. simpl. intros H.
  inversion H as [|? ? _ H2]. inversion H2 as [|? ? [H3 _] _].
  simpl in H3. revert H3. vm_compute. discriminate.
Qed.

(** ** Sequential segments *)

Section Segments.

Context {World : Type}.
Variable session : Session World.
Variable cookie : string.
Variable parse : urllib_parse.
Variable regex_search : pyseq -> pyseq -> Z -> result pyseq.

(** The loop over the segments sends nothing and yields nothing: its first
    iteration, if any, ends with the [TypeError] of the [await]. *)
Lemma seq_stream_loop_run fuel base_url querys timeout max_retries
  segment_count seq_num (w : World) :
  seq_stream_loop session cookie parse fuel base_url querys timeout
    max_retries segment_count seq_num w
  = ([], w,
     if seq_num <=? segment_count
     then match fuel with
          | O => OutOfFuel
          | S _ => Raise TypeError
          end
     else Return tt).
Proof.
  destruct fuel; simpl; destruct (seq_num <=? segment_count); reflexivity.
Qed.

(** The events of [seq_stream] are those of the stream of the header
    segment, [sq=0]: no chunk of a later segment is ever yielded, and no
    later segment is ever requested. *)
Lemma seq_stream_events fuel url timeout max_retries (w : World) :
  let split_url := urlsplit parse url in
  let url0 :=
    (base_url_of split_url
     ++ urlencode parse (dict_set (querys_of parse split_url) "sq" (QInt 0)))%string in
  fst (fst (seq_stream session cookie parse fuel url timeout max_retries w))
  = fst (fst (stream session cookie fuel url0 timeout max_retries w)).
Proof.
  cbv zeta. unfold seq_stream. cbv zeta. unfold bind at 1, forward.
  destruct (stream session cookie fuel _ timeout max_retries w)
    as [[t w1] o].
  destruct o as [[]|e|]; try reflexivity.
  unfold bind.
  destruct (find_segment_count _) as [[n|]|e]; simpl.
  - rewrite seq_stream_loop_run. simpl. rewrite !app_nil_r. reflexivity.
  - rewrite !app_nil_r. reflexivity.
  - rewrite !app_nil_r. reflexivity.
Qed.

(** [seq_filesize] splits the text of the header response, a [str], on a
    [bytes] separator: once the header request has succeeded it ends with a
    [TypeError], whatever the header says. *)
Lemma seq_filesize_type_error {Y : Type} fuel url (w : World) t w1 resp :
  let split_url := urlsplit parse url in
  let url0 :=
    (base_url_of split_url
     ++ urlencode parse (dict_set (querys_of parse split_url) "sq" (QInt 0)))%string in
  _execute_request (Y:=Y) session cookie url0 "GET" None None 900 w
  = (t, w1, Return resp) ->
  seq_filesize session cookie parse regex_search fuel url w
  = (t, w1, Raise TypeError).
Proof.
  cbv zeta. intros Hreq. unfold seq_filesize. cbv zeta.
  unfold bind at 1. rewrite Hreq. simpl. rewrite app_nil_r. reflexivity.
Qed.

End Segments.

(** C2, the code at a failing input. The header segment announces two
    segments; [seq_stream] requests and yields the header segment only, and
    then ends with the [TypeError] of [await stream(...)]: the chunks of the
    segments 1 and 2 are never yielded. *)
Theorem seq_stream_yields_header_only :
  let '(t, _, o) :=
    seq_stream (segment_server header_two [segment_one; segment_two]) ""
      simple_parse 5 "http://h/v?id=7" 900 0 tt in
  requests t = [("GET", "http://h//v?id=7&sq=0")]
  /\ yields t = [header_two]
  /\ o = Raise TypeError.
Proof. vm_compute. repeat split. Qed.

(** C6, the code at a failing input. No line of the header segment matches
    [Segment-Count: (\d+)]; [seq_filesize] ends with a [TypeError], not with
    [RegexMatchError]. With a header that announces two segments it ends in
    the same way, before any segment size is fetched. *)
Theorem seq_filesize_raises_type_error :
  (let '(t, _, o) :=
     seq_filesize (Y:=unit)
       (segment_server header_none [segment_one; segment_two]) ""
       simple_parse simple_regex_search 5 "http://h/v?id=7" tt in
   requests t = [("GET", "http://h//v?id=7&sq=0")]
   /\ o = Raise TypeError)
  /\ (let '(t, _, o) :=
        seq_filesize (Y:=unit)
          (segment_server header_two [segment_one; segment_two]) ""
          simple_parse simple_regex_search 5 "http://h/v?id=7" tt in
      requests t = [("GET", "http://h//v?id=7&sq=0")]
      /\ o = Raise TypeError).
Proof. vm_compute. repeat split. Qed.

(** ** De-duplication *)

Lemma existsb_eqb_In x seen :
  existsb (String.eqb x) seen = true <-> In x seen.
Proof.
  rewrite existsb_exists. split.
  - intros (y & Hy & E). apply String.eqb_eq in E. subst. exact Hy.
  - intros H. exists x. split; [exact H|apply String.eqb_refl].
Qed.

Lemma uniqueify_from_In seen l x :
  In x (uniqueify_from seen l) <-> In x l /\ ~ In x seen.
Proof.
  revert seen. induction l as [|y l IH]; intros seen; simpl.
  - tauto.
  - destruct (existsb (String.eqb y) seen) eqn:E.
    + apply existsb_eqb_In in E. rewrite IH. split.
      * tauto.
      * intros [[Hyx|H] Hn]; [subst; contradiction|tauto].
    + assert (Hy : ~ In y seen).
      { intros H. apply existsb_eqb_In in H. congruence. }
      simpl. rewrite IH. simpl.
      destruct (String.eqb_spec y x) as [Hyx|Hne].
      * subst. tauto.
      * tauto.
Qed.

Lemma uniqueify_from_NoDup seen l : NoDup (uniqueify_from seen l).
Proof.
  revert seen. induction l as [|y l IH]; intros seen; simpl.
  - constructor.
  - destruct (existsb (String.eqb y) seen); [apply IH|].
    constructor; [|apply IH].
    rewrite uniqueify_from_In. simpl. tauto.
Qed.

Lemma uniqueify_In l x : In x (uniqueify l) <-> In x l.
Proof. unfold uniqueify. rewrite uniqueify_from_In. simpl. tauto. Qed.

Lemma uniqueify_NoDup l : NoDup (uniqueify l).
Proof. apply uniqueify_from_NoDup. Qed.

Lemma NoDup_firstn {A : Type} (n : nat) (l : list A) :
  NoDup l -> NoDup (firstn n l).
Proof.
  intros H. rewrite <- (firstn_skipn n l) in H.
  apply NoDup_app_remove_r in H. exact H.
Qed.

(** ** [index] *)

Lemma index_None l x : index l x = None <-> ~ In x l.
Proof.
  induction l as [|y l IH]; simpl; [tauto|].
  destruct (String.eqb_spec y x) as [->|Hne].
  - split; [discriminate|tauto].
  - destruct (index l x); simpl.
    + split; [discriminate|]. intros H.
      assert (Hn : ~ In x l) by tauto.
      apply IH in Hn. discriminate.
    + split; [|reflexivity]. intros _ [H|H]; [congruence|tauto].
Qed.

Lemma index_Some l x i :
  index l x = Some i ->
  exists post, l = firstn i l ++ x :: post /\ ~ In x (firstn i l).
Proof.
  revert i. induction l as [|y l IH]; intros i; simpl; [discriminate|].
  destruct (String.eqb_spec y x) as [->|Hne].
  - intros H. inversion H; subst. exists l. simpl. tauto.
  - destruct (index l x) as [j|] eqn:E; simpl; [|discriminate].
    intros H. inversion H; subst.
    destruct (IH j eq_refl) as (post & Hl & Hn).
    exists post. simpl. split; [f_equal; exact Hl|].
    intros [H'|H']; [congruence|tauto].
Qed.

(** [uniqueify] keeps the order of the first occurrences. *)
Lemma uniqueify_from_order l :
  forall seen i j x y,
    (i < j)%nat ->
    nth_error (uniqueify_from seen l) i = Some x ->
    nth_error (uniqueify_from seen l) j = Some y ->
    exists a b, index l x = Some a /\ index l y = Some b /\ (a < b)%nat.
Proof.
  induction l as [|item r IH]; intros seen i j x y Hij Hx Hy.
  - destruct i; discriminate Hx.
  - cbn [uniqueify_from] in Hx, Hy.
    destruct (existsb (String.eqb item) seen) eqn:E.
    + apply existsb_eqb_In in E.
      destruct (IH seen i j x y Hij Hx Hy) as (a & b & Ha & Hb & Hab).
      apply nth_error_In, uniqueify_from_In in Hx.
      apply nth_error_In, uniqueify_from_In in Hy.
      exists (S a), (S b). cbn [index].
      destruct (String.eqb_spec item x) as [->|_]; [tauto|].
      destruct (String.eqb_spec item y) as [->|_]; [tauto|].
      rewrite Ha, Hb. cbn [option_map]. repeat split; lia.
    + destruct i as [|i], j as [|j]; try lia.
      * cbn [nth_error] in Hx, Hy. inversion Hx; subst x.
        apply nth_error_In, uniqueify_from_In in Hy.
        destruct Hy as [Hyr Hyn]. cbn [index]. rewrite String.eqb_refl.
        destruct (String.eqb_spec item y) as [->|_];
          [exfalso; apply Hyn; left; reflexivity|].
        destruct (index r y) as [b|] eqn:Eb;
          [|apply index_None in Eb; contradiction].
        exists O, (S b). cbn [option_map]. repeat split; lia.
      * cbn [nth_error] in Hx, Hy.
        destruct (IH (item :: seen) i j x y ltac:(lia) Hx Hy)
          as (a & b & Ha & Hb & Hab).
        apply nth_error_In, uniqueify_from_In in Hx.
        apply nth_error_In, uniqueify_from_In in Hy.
        exists (S a), (S b). cbn [index].
        destruct (String.eqb_spec item x) as [->|_];
          [exfalso; apply (proj2 Hx); left; reflexivity|].
        destruct (String.eqb_spec item y) as [->|_];
          [exfalso; apply (proj2 Hy); left; reflexivity|].
        rewrite Ha, Hb. cbn [option_map]. repeat split; lia.
Qed.

Lemma uniqueify_first_seen l : first_seen l (uniqueify l).
Proof.
  split; [apply uniqueify_NoDup|]. split; [apply uniqueify_In|].
  apply uniqueify_from_order.
Qed.

(** ** Subscripting *)

Lemma seq_getitem_error {A : Type} (l : list A) i e :
  seq_getitem l i = Err e -> e = IndexError.
Proof.
  unfold seq_getitem.
  destruct ((0 <=? _) && _)%bool; [|congruence].
  destruct (nth_error l _); congruence.
Qed.

Lemma getitem_error v k e : getitem v k = Err e -> shape_error e = true.
Proof.
  destruct v as [| | |s|l|o], k as [key|i]; simpl; intros H;
    try (inversion H; reflexivity).
  - destruct (seq_getitem (list_ascii_of_string s) i) eqn:E; simpl in H;
      [discriminate|].
    apply seq_getitem_error in E. inversion H; subst. reflexivity.
  - apply seq_getitem_error in H. subst. reflexivity.
  - destruct (dict_get o key); inversion H. reflexivity.
Qed.

Lemma getpath_error ks : forall v e,
  getpath v ks = Err e -> shape_error e = true.
Proof.
  induction ks as [|k ks IH]; intros v e; simpl; [discriminate|].
  destruct (getitem v k) as [x|e0] eqn:E; simpl.
  - apply IH.
  - intros H. inversion H; subst. eapply getitem_error, E.
Qed.

Lemma seq_getitem_last {A : Type} (l : list A) (x : A) :
  seq_getitem (l ++ [x]) (-1) = Ok x.
Proof.
  unfold seq_getitem, Py.len. rewrite length_app. simpl List.length.
  change (-1 <? 0) with true. cbv iota.
  replace (Z.to_nat (-1 + Z.of_nat (List.length l + 1))) with (List.length l)
    by lia.
  destruct ((0 <=? -1 + Z.of_nat (List.length l + 1))
            && (-1 + Z.of_nat (List.length l + 1)
                <? Z.of_nat (List.length l + 1)))%bool eqn:E.
  - rewrite nth_error_app2 by lia. rewrite Nat.sub_diag. reflexivity.
  - apply andb_false_iff in E. destruct E as [E|E].
    + apply Z.leb_gt in E. lia.
    + apply Z.ltb_ge in E. lia.
Qed.

Lemma seq_getitem_nil {A : Type} (i : Z) :
  seq_getitem (@nil A) i = Err IndexError.
Proof.
  unfold seq_getitem.
  destruct ((0 <=? _) && _)%bool; [|reflexivity].
  destruct (Z.to_nat _); reflexivity.
Qed.

(** ** The marker step of [_extract_videos] *)

Lemma token_path_last items x :
  getpath (JList (items ++ [x])) token_path = marker_token x.
Proof.
  change (getpath (JList (items ++ [x])) token_path)
    with (rbind (seq_getitem (items ++ [x]) (-1)) marker_token).
  rewrite seq_getitem_last. reflexivity.
Qed.

Lemma split_continuation_marker items m token :
  marker_token m = Ok token ->
  split_continuation (JList (items ++ [m])) = Ok (JList items, token).
Proof.
  intros Hm. unfold split_continuation.
  rewrite token_path_last, Hm. cbn [rbind drop_last].
  rewrite removelast_last. reflexivity.
Qed.

Lemma split_continuation_no_marker items :
  (forall its x, items = its ++ [x] ->
                 is_object x = true /\ has_marker_key x = false) ->
  split_continuation (JList items) = Ok (JList items, JNull).
Proof.
  intros Hlast. unfold split_continuation.
  destruct items as [|y items'].
  { change (getpath (JList []) token_path)
      with (rbind (seq_getitem (@nil json) (-1)) marker_token).
    rewrite seq_getitem_nil. reflexivity. }
  destruct (exists_last (l:=y :: items')) as (its & x & Hx); [discriminate|].
  rewrite Hx in *. clear Hx y items'.
  rewrite token_path_last.
  destruct (Hlast its x eq_refl) as [Hobj Hkey].
  destruct x as [| | | | |o]; try discriminate.
  simpl in Hkey. unfold marker_token. cbn [getpath getitem].
  destruct (dict_get o "continuationItemRenderer"); [discriminate|].
  reflexivity.
Qed.

Lemma split_continuation_not_object items x :
  is_object x = false ->
  split_continuation (JList (items ++ [x])) = Err TypeError.
Proof.
  intros Hx. unfold split_continuation. rewrite token_path_last.
  destruct x as [| | | | |o]; try reflexivity. discriminate.
Qed.

(** ** [_extract_videos]: items and continuation *)

Lemma map_result_Forall2 {A B : Type} (f : A -> result B) l ps :
  Forall2 (fun x p => f x = Ok p) l ps -> map_result f l = Ok ps.
Proof.
  induction 1 as [|x p l ps Hx _ IH]; simpl; [reflexivity|].
  rewrite Hx, IH. reflexivity.
Qed.

Section Extract.

Variable json_loads : string -> result json.
Variable repr : json -> string.

Lemma watch_path_object x p :
  watch_path repr x = Ok p -> is_object x = true.
Proof.
  unfold watch_path. cbn [getpath].
  destruct x; simpl; try discriminate. reflexivity.
Qed.

(** C9. When the resolved item list is a list of items followed by a
    continuation marker, [_extract_videos] returns the token of the marker
    and the identifiers of the items, the marker left out; when it is a
    list of items with no continuation marker at its end, [_extract_videos]
    returns no continuation and the identifiers of all the items. *)
Theorem extract_videos_continuation raw payload items paths :
  json_loads raw = Ok payload ->
  Forall2 (fun x p => watch_path repr x = Ok p) items paths ->
  (forall m token,
     resolve_videos payload = Ok (Some (JList (items ++ [m]))) ->
     marker_token m = Ok token ->
     _extract_videos json_loads repr raw = Ok (uniqueify paths, token))
  /\ (resolve_videos payload = Ok (Some (JList items)) ->
      (forall its x, items = its ++ [x] -> has_marker_key x = false) ->
      _extract_videos json_loads repr raw = Ok (uniqueify paths, JNull))
  /\ (forall p, In p paths -> In p (uniqueify paths)).
Proof.
  intros Hload Hitems.
  pose proof (map_result_Forall2 _ _ _ Hitems) as Hmap.
  split; [|split].
  - intros m token Hres Hm.
    unfold _extract_videos, extract_videos_of. rewrite Hload. cbn [rbind].
    rewrite Hres. cbn [rbind].
    rewrite (split_continuation_marker items m token Hm). cbn [rbind iterate].
    rewrite Hmap. reflexivity.
  - intros Hres Hlast.
    unfold _extract_videos, extract_videos_of. rewrite Hload. cbn [rbind].
    rewrite Hres. cbn [rbind].
    rewrite split_continuation_no_marker.
    + cbn [rbind iterate]. rewrite Hmap. reflexivity.
    + intros its x E. split; [|eapply Hlast, E].
      subst items. apply Forall2_app_inv_l in Hitems.
      destruct Hitems as (ps1 & ps2 & _ & Hx & _).
      inversion Hx; subst. eapply watch_path_object; eassumption.
  - intros p Hp. apply uniqueify_In. exact Hp.
Qed.

Lemma html_videos_error payload e :
  html_videos payload = Err e -> shape_error e = true.
Proof.
  unfold html_videos.
  destruct (getpath payload section_contents_path) as [sc|e0] eqn:E0;
    cbn [rbind].
  2:{ intros H. inversion H; subst. eapply getpath_error, E0. }
  destruct (getpath sc (submenu_path 0)) as [ic|e1] eqn:E1.
  - cbn [rbind]. apply getitem_error.
  - rewrite (getpath_error _ _ _ E1).
    destruct (getpath sc (submenu_path 1)) as [ic|e2] eqn:E2; cbn [rbind].
    + apply getitem_error.
    + intros H. inversion H; subst. eapply getpath_error, E2.
Qed.

(** C10. At the marker step only [KeyError] and [IndexError] are caught:
    when the last element of the resolved item list is not an object,
    [_extract_videos] raises [TypeError]. The shape-matching steps catch
    [TypeError] too: when both shapes fail, with any of the three errors,
    [_extract_videos] returns the empty page with no continuation. *)
Theorem marker_step_raises_type_error raw payload :
  json_loads raw = Ok payload ->
  (forall items x,
     resolve_videos payload = Ok (Some (JList (items ++ [x]))) ->
     is_object x = false ->
     _extract_videos json_loads repr raw = Err TypeError)
  /\ (forall e e',
        html_videos payload = Err e ->
        getpath payload continuation_items_path = Err e' ->
        _extract_videos json_loads repr raw = Ok ([], JNull))
  /\ (is_object payload = false ->
      html_videos payload = Err TypeError
      /\ getpath payload continuation_items_path = Err TypeError).
Proof.
  intros Hload. split; [|split].
  - intros items x Hres Hx.
    unfold _extract_videos, extract_videos_of. rewrite Hload. cbn [rbind].
    rewrite Hres. cbn [rbind].
    rewrite (split_continuation_not_object items x Hx). reflexivity.
  - intros e e' He He'.
    unfold _extract_videos, extract_videos_of. rewrite Hload. cbn [rbind].
    unfold resolve_videos. rewrite He, He'.
    rewrite (html_videos_error _ _ He), (getpath_error _ _ _ He').
    reflexivity.
  - intros Hp. destruct payload; try discriminate; split; reflexivity.
Qed.

End Extract.

Lemma extract_videos_continuation_witness :
  _extract_videos (loads_among [page_one; page_three]) simple_dumps
    (simple_dumps page_one)
  = Ok (["/watch?v=a"; "/watch?v=b"], JStr "t1")
  /\ _extract_videos (loads_among [page_one; page_three]) simple_dumps
       (simple_dumps page_three)
     = Ok (["/watch?v=f"], JNull).
Proof.
  split.
  - apply (proj1 (extract_videos_continuation
                    (loads_among [page_one; page_three]) simple_dumps
                    (simple_dumps page_one) page_one
                    [video_item "a"; video_item "b"]
                    ["/watch?v=a"; "/watch?v=b"]
                    eq_refl
                    ltac:(repeat constructor))
             (continuation_marker "t1") (JStr "t1") eq_refl eq_refl).
  - apply (proj1 (proj2 (extract_videos_continuation
                    (loads_among [page_one; page_three]) simple_dumps
                    (simple_dumps page_three) page_three
                    [video_item "f"] ["/watch?v=f"]
                    eq_refl
                    ltac:(repeat constructor))) eq_refl).
    intros its x E.
    destruct its as [|y its]; simpl in E.
    + inversion E. reflexivity.
    + inversion E as [[Hy Hrest]]. destruct its; discriminate.
Defined.

Lemma marker_step_raises_type_error_witness :
  _extract_videos
    (loads_among [continuation_page [video_item "a"; JList []]]) simple_dumps
    (simple_dumps (continuation_page [video_item "a"; JList []]))
  = Err TypeError
  /\ _extract_videos (loads_among [JList [JStr "x"]]) simple_dumps
       (simple_dumps (JList [JStr "x"]))
     = Ok ([], JNull).
Proof.
  split.
  - apply (proj1 (marker_step_raises_type_error
                    (loads_among [continuation_page [video_item "a"; JList []]])
                    simple_dumps
                    (simple_dumps (continuation_page [video_item "a"; JList []]))
                    (continuation_page [video_item "a"; JList []]) eq_refl)
             [video_item "a"] (JList []) eq_refl eq_refl).
  - apply (proj1 (proj2 (marker_step_raises_type_error
                    (loads_among [JList [JStr "x"]]) simple_dumps
                    (simple_dumps (JList [JStr "x"]))
                    (JList [JStr "x"]) eq_refl))
             TypeError TypeError eq_refl eq_refl).
Defined.

(** ** Pagination *)

Lemma quiet_nil {W Y X : Type} (m : Gen W Y X) :
  quiet m -> forall w, yields (fst (fst (m w))) = [].
Proof.
  intros H w. specialize (H w).
  destruct (yields (fst (fst (m w)))) as [|y l]; [reflexivity|].
  inversion H. contradiction.
Qed.

Lemma quiet_yields_all {W Y X : Type} (P : Y -> Prop) (m : Gen W Y X) :
  quiet m -> yields_all P m.
Proof.
  intros H w. rewrite (quiet_nil m H w). constructor.
Qed.

Lemma yields_all_ret {W Y X : Type} (P : Y -> Prop) (x : X) :
  yields_all P (ret (W:=W) x).
Proof. intros w. constructor. Qed.

Lemma yields_all_raise {W Y X : Type} (P : Y -> Prop) e :
  yields_all P (raise (W:=W) (X:=X) e).
Proof. intros w. constructor. Qed.

Lemma yields_all_out_of_fuel {W Y X : Type} (P : Y -> Prop) :
  yields_all P (out_of_fuel (W:=W) (X:=X)).
Proof. intros w. constructor. Qed.

Lemma yields_all_lift {W Y X : Type} (P : Y -> Prop) (r : result X) :
  yields_all P (lift (W:=W) r).
Proof. destruct r; [apply yields_all_ret|apply yields_all_raise]. Qed.

Lemma yields_all_yield {W Y : Type} (P : Y -> Prop) (y : Y) :
  P y -> yields_all P (yield (W:=W) y).
Proof. intros H w. simpl. constructor; [exact H|constructor]. Qed.

Lemma yields_all_bind {W Y A B : Type} (P : Y -> Prop)
  (m : Gen W Y A) (k : A -> Gen W Y B) :
  yields_all P m -> (forall x, yields_all P (k x)) ->
  yields_all P (bind m k).
Proof.
  intros Hm Hk w. unfold bind. specialize (Hm w).
  destruct (m w) as [[t1 w1] o]. simpl in Hm.
  destruct o as [x|e|]; simpl; try exact Hm.
  specialize (Hk x w1). destruct (k x w1) as [[t2 w2] o2]. simpl in *.
  rewrite yields_app. apply Forall_app. split; assumption.
Qed.

Lemma yields_all_bind_lift {W Y A B : Type} (P : Y -> Prop)
  (r : result A) (k : A -> Gen W Y B) :
  (forall x, r = Ok x -> yields_all P (k x)) ->
  yields_all P (bind (lift r) k).
Proof.
  intros Hk. destruct r as [x|e].
  - intros w. unfold bind. simpl. specialize (Hk x eq_refl w).
    destruct (k x w) as [[t2 w2] o2]. exact Hk.
  - intros w. constructor.
Qed.

(** *** Cutting an enumeration *)

Lemma cut_quiet target t o : yields t = [] -> cut target t o = (t, o).
Proof.
  induction t as [|e t IH]; simpl; [reflexivity|].
  destruct e as [m u h d|page]; [|discriminate].
  intros H. rewrite (IH H). reflexivity.
Qed.

Lemma cut_app_quiet target t1 t2 o :
  yields t1 = [] ->
  cut target (t1 ++ t2) o
  = (t1 ++ fst (cut target t2 o), snd (cut target t2 o)).
Proof.
  induction t1 as [|e t1 IH]; simpl.
  - intros _. destruct (cut target t2 o). reflexivity.
  - destruct e as [m u h d|page]; [|discriminate].
    intros H. rewrite (IH H). reflexivity.
Qed.

Lemma cut_at target evs1 page evs2 o i :
  Forall (fun q => index q target = None) (yields evs1) ->
  index page target = Some i ->
  cut target (evs1 ++ Yield page :: evs2) o
  = (evs1 ++ [Yield (firstn i page)], Return tt).
Proof.
  intros Hpre Hpage. induction evs1 as [|e evs1 IH]; simpl.
  - rewrite Hpage. reflexivity.
  - destruct e as [m u h d|q]; simpl in Hpre.
    + rewrite (IH Hpre). reflexivity.
    + inversion Hpre as [|? ? Hq Hrest]; subst.
      rewrite Hq, (IH Hrest). reflexivity.
Qed.

Lemma cut_of_quiet {W : Type} target (m : Gen W (list string) unit) :
  quiet m -> cut_of target m m.
Proof.
  intros H w. rewrite cut_quiet; [reflexivity|]. apply quiet_nil, H.
Qed.

Lemma cut_of_bind {W A : Type} target (m : Gen W (list string) A)
  (k1 k0 : A -> Gen W (list string) unit) :
  quiet m ->
  (forall x w t w1, m w = (t, w1, Return x) -> cut_of target (k1 x) (k0 x)) ->
  cut_of target (bind m k1) (bind m k0).
Proof.
  intros Hm Hk w. unfold bind.
  pose proof (quiet_nil m Hm w) as Hq.
  destruct (m w) as [[t w1] o] eqn:E. simpl in Hq.
  destruct o as [x|e|]; simpl.
  - specialize (Hk x w t w1 E w1).
    destruct (k1 x w1) as [[t1 w2] o1], (k0 x w1) as [[t0 w3] o0].
    simpl in *. rewrite cut_app_quiet by exact Hq.
    rewrite <- Hk. reflexivity.
  - rewrite cut_quiet by exact Hq. reflexivity.
  - rewrite cut_quiet by exact Hq. reflexivity.
Qed.

Lemma cut_of_yield_pass {W : Type} target page
  (k1 k0 : Gen W (list string) unit) :
  index page target = None ->
  cut_of target k1 k0 ->
  cut_of target (bind (yield page) (fun _ => k1))
    (bind (yield page) (fun _ => k0)).
Proof.
  intros Hpage Hk w. unfold bind, yield. specialize (Hk w).
  destruct (k1 w) as [[t1 w2] o1], (k0 w) as [[t0 w3] o0].
  simpl in *. rewrite Hpage, <- Hk. reflexivity.
Qed.

Lemma cut_of_yield_stop {W : Type} target page i
  (k0 : unit -> Gen W (list string) unit) :
  index page target = Some i ->
  cut_of target (yield (firstn i page)) (bind (yield page) k0).
Proof.
  intros Hpage w. unfold bind, yield.
  destruct (k0 tt w) as [[t0 w3] o0]. simpl. rewrite Hpage. reflexivity.
Qed.

Lemma trim_index_some until_watch_id videos_urls :
  str_truthy until_watch_id = true ->
  trim_index (Some until_watch_id) videos_urls
  = index videos_urls (watch_id_path until_watch_id).
Proof. intros H. unfold trim_index. rewrite H. reflexivity. Qed.

#[local] Arguments trim_index : simpl never.

Create HintDb gen.

#[local] Hint Resolve yields_all_ret yields_all_raise yields_all_out_of_fuel
  yields_all_lift : gen.

Section Pagination.

Context {World : Type}.
Variable session : Session World.
Variable cookie : string.
Variable json_loads : string -> result json.
Variable json_dumps : json -> string.
Variable extract : extract_module.
Variable repr : json -> string.

Lemma execute_request_quiet {Y : Type} url method hdrs data timeout :
  quiet (_execute_request (Y:=Y) session cookie url method hdrs data timeout).
Proof.
  intros w.
  pose proof (execute_request_cases session cookie (Y:=Y) url method hdrs
                data timeout w) as H.
  destruct (_execute_request session cookie url method hdrs data timeout w)
    as [[t w1] o]. simpl.
  destruct H as (_ & _ & _ & ->). constructor.
Qed.

Lemma on_session_yields_all {Y X : Type} (P : Y -> Prop)
  (m : Gen World Y X) :
  yields_all P m -> yields_all P (on_session m).
Proof.
  intros H ws. unfold on_session. specialize (H (fst ws)).
  destruct (m (fst ws)) as [[t w1] o]. exact H.
Qed.

Lemma get_self_quiet {Y : Type} : quiet (get_self (World:=World) (Y:=Y)).
Proof. intros ws. constructor. Qed.

Lemma set_self_quiet {Y : Type} self :
  quiet (set_self (World:=World) (Y:=Y) self).
Proof. intros ws. constructor. Qed.

Ltac quiet_step :=
  first
    [ apply yields_all_ret
    | apply yields_all_raise
    | apply yields_all_out_of_fuel
    | apply yields_all_lift
    | apply get_self_quiet
    | apply set_self_quiet
    | apply execute_request_quiet
    | apply on_session_yields_all
    | apply yields_all_bind; [|intros ?] ].

Lemma get_quiet {Y : Type} url extra_headers timeout :
  quiet (get (Y:=Y) session cookie url extra_headers timeout).
Proof. unfold quiet, get. repeat quiet_step. Qed.

Lemma post_quiet {Y : Type} url extra_headers data timeout :
  quiet (post (Y:=Y) session cookie url extra_headers data timeout).
Proof. unfold quiet, post. repeat quiet_step. Qed.

Lemma playlist_id_quiet {Y : Type} :
  quiet (playlist_id (World:=World) (Y:=Y) extract).
Proof.
  unfold quiet, playlist_id. apply yields_all_bind; [apply get_self_quiet|].
  intros self. destruct (_playlist_id self) as [id|];
    [destruct (str_truthy id)|]; repeat quiet_step.
Qed.

Lemma html_quiet {Y : Type} : quiet (html (Y:=Y) session cookie extract).
Proof.
  assert (Hfetch : quiet (fetch_html (Y:=Y) session cookie extract)).
  { unfold quiet, fetch_html, playlist_url.
    apply yields_all_bind.
    - apply yields_all_bind; [apply playlist_id_quiet|intros; quiet_step].
    - intros url. apply yields_all_bind.
      + apply on_session_yields_all, get_quiet.
      + intros h. repeat quiet_step. }
  unfold quiet, html. apply yields_all_bind; [apply get_self_quiet|].
  intros self. destruct (_html self) as [h|];
    [destruct (str_truthy h)|]; try exact Hfetch. quiet_step.
Qed.

Lemma yt_api_key_quiet {Y : Type} :
  quiet (yt_api_key (Y:=Y) session cookie extract).
Proof.
  assert (Hfetch : quiet (fetch_ytcfg (Y:=Y) session cookie extract)).
  { unfold quiet, fetch_ytcfg.
    apply yields_all_bind; [apply html_quiet|].
    intros h. repeat quiet_step. }
  unfold quiet, yt_api_key, ytcfg.
  apply yields_all_bind; [|intros; quiet_step].
  apply yields_all_bind; [apply get_self_quiet|].
  intros self. destruct (_ytcfg self) as [cfg|];
    [destruct (truthy cfg)|]; try exact Hfetch. quiet_step.
Qed.

Lemma next_request_quiet {Y : Type} continuation :
  quiet (next_request (Y:=Y) session cookie extract repr continuation).
Proof.
  unfold quiet, next_request, _build_continuation_url.
  destruct (truthy continuation); [|quiet_step].
  apply yields_all_bind; [|intros; quiet_step].
  apply yields_all_bind; [apply yt_api_key_quiet|intros; quiet_step].
Qed.

(** *** Within a page *)

Lemma extract_videos_NoDup raw videos_urls continuation :
  _extract_videos json_loads repr raw = Ok (videos_urls, continuation) ->
  NoDup videos_urls.
Proof.
  unfold _extract_videos, extract_videos_of.
  destruct (json_loads raw) as [payload|e]; cbn [rbind]; [|discriminate].
  destruct (resolve_videos payload) as [[videos|]|e]; cbn [rbind];
    [| |discriminate].
  - destruct (split_continuation videos) as [[videos' c]|e]; cbn [rbind];
      [|discriminate].
    destruct (iterate videos') as [items|e]; cbn [rbind]; [|discriminate].
    destruct (map_result (watch_path repr) items) as [paths|e]; cbn [rbind];
      [|discriminate].
    intros H. inversion H; subst. apply uniqueify_NoDup.
  - intros H. inversion H; subst. constructor.
Qed.

Lemma paginate_loop_NoDup until_watch_id :
  forall fuel next,
    yields_all (@NoDup string)
      (paginate_loop session cookie json_loads extract repr fuel
         until_watch_id next).
Proof.
  induction fuel as [|f IH]; intros next; simpl.
  - destruct (more_to_load next) as [[[u h] d]|]; auto with gen.
  - destruct (more_to_load next) as [[[u h] d]|]; auto with gen.
    apply yields_all_bind.
    { apply on_session_yields_all, quiet_yields_all, post_quiet. }
    intros req. apply yields_all_bind_lift.
    intros [videos_urls continuation] Hx.
    apply extract_videos_NoDup in Hx.
    destruct (trim_index until_watch_id videos_urls) as [i|].
    + apply yields_all_yield, NoDup_firstn, Hx.
    + apply yields_all_bind; [apply yields_all_yield, Hx|intros _].
      apply yields_all_bind; [|intros; apply IH].
      apply quiet_yields_all, next_request_quiet.
Qed.

(** *** Stopping at an identifier *)

Lemma lift_returns {W Y A : Type} (r : result A) (w : W) t w1 x :
  lift (Y:=Y) r w = (t, w1, Return x) -> r = Ok x.
Proof.
  destruct r as [y|e]; simpl; intros H; inversion H; reflexivity.
Qed.

Lemma paginate_loop_cut until_watch_id :
  str_truthy until_watch_id = true ->
  forall fuel next,
    cut_of (watch_id_path until_watch_id)
      (paginate_loop session cookie json_loads extract repr fuel
         (Some until_watch_id) next)
      (paginate_loop session cookie json_loads extract repr fuel None next).
Proof.
  intros Hid. induction fuel as [|f IH]; intros next; simpl.
  - destruct (more_to_load next) as [[[u h] d]|]; apply cut_of_quiet;
      unfold quiet; auto with gen.
  - destruct (more_to_load next) as [[[u h] d]|];
      [|apply cut_of_quiet; unfold quiet; auto with gen].
    apply cut_of_bind.
    { apply on_session_yields_all, post_quiet. }
    intros req _ _ _ _. apply cut_of_bind; [unfold quiet; auto with gen|].
    intros [videos_urls continuation] _ _ _ _.
    rewrite (trim_index_some _ _ Hid).
    change (trim_index None videos_urls) with (@None nat).
    destruct (index videos_urls (watch_id_path until_watch_id)) as [i|] eqn:E.
    + apply cut_of_yield_stop, E.
    + apply cut_of_yield_pass; [exact E|].
      apply cut_of_bind; [apply next_request_quiet|].
      intros nxt _ _ _ _. apply IH.
Qed.

Lemma paginate_cut until_watch_id fuel :
  str_truthy until_watch_id = true ->
  cut_of (watch_id_path until_watch_id)
    (_paginate session cookie json_loads json_dumps extract repr fuel
       (Some until_watch_id))
    (_paginate session cookie json_loads json_dumps extract repr fuel None).
Proof.
  intros Hid. unfold _paginate.
  apply cut_of_bind; [apply html_quiet|]. intros h _ _ _ _.
  apply cut_of_bind; [unfold quiet; auto with gen|].
  intros initial _ _ _ _.
  apply cut_of_bind; [unfold quiet; auto with gen|].
  intros [videos_urls continuation] _ _ _ _.
  rewrite (trim_index_some _ _ Hid).
  change (trim_index None videos_urls) with (@None nat).
  destruct (index videos_urls (watch_id_path until_watch_id)) as [i|] eqn:E.
  - apply cut_of_yield_stop, E.
  - apply cut_of_yield_pass; [exact E|].
    apply cut_of_bind; [apply next_request_quiet|].
    intros nxt _ _ _ _. apply paginate_loop_cut, Hid.
Qed.

(** C7. Let the enumeration without a stop identifier yield the pages
    [evs1], then [page], and let the stop identifier occur in [page] and in
    no page before it. With the stop identifier, [_paginate] sends the same
    requests and yields the same pages up to [page], then yields the prefix
    of [page] before the identifier, and returns at once: nothing is loaded
    or yielded after it. *)
Theorem paginate_stops_at_identifier
  fuel until_watch_id ws t0 ws0 o0 evs1 page evs2 :
  until_watch_id <> "" ->
  _paginate session cookie json_loads json_dumps extract repr fuel None ws
  = (t0, ws0, o0) ->
  t0 = evs1 ++ Yield page :: evs2 ->
  Forall (fun q => ~ In (watch_id_path until_watch_id) q) (yields evs1) ->
  In (watch_id_path until_watch_id) page ->
  exists pre post ws1,
    page = pre ++ watch_id_path until_watch_id :: post
    /\ ~ In (watch_id_path until_watch_id) pre
    /\ _paginate session cookie json_loads json_dumps extract repr fuel
         (Some until_watch_id) ws
       = (evs1 ++ [Yield pre], ws1, Return tt).
Proof.
  intros Hne Hrun Ht0 Hbefore Hin.
  assert (Hid : str_truthy until_watch_id = true).
  { unfold str_truthy. destruct (String.eqb_spec until_watch_id "");
      [contradiction|reflexivity]. }
  destruct (index page (watch_id_path until_watch_id)) as [i|] eqn:E.
  2:{ apply index_None in E. contradiction. }
  destruct (index_Some _ _ _ E) as (post & Hpage & Hpre).
  pose proof (paginate_cut until_watch_id fuel Hid ws) as Hcut.
  rewrite Hrun in Hcut. simpl in Hcut. subst t0.
  rewrite (cut_at _ evs1 page evs2 o0 i) in Hcut; [|
    eapply Forall_impl; [|exact Hbefore];
    intros q Hq; apply index_None, Hq | exact E].
  destruct (_paginate session cookie json_loads json_dumps extract repr fuel
              (Some until_watch_id) ws) as [[t1 ws1] o1].
  simpl in Hcut. inversion Hcut; subst.
  exists (firstn i page), post, ws1. auto.
Qed.

(** What [_extract_videos] returns for a payload is the de-duplication of
    the identifiers of its items. *)
Lemma extract_videos_item_paths raw videos_urls continuation :
  _extract_videos json_loads repr raw = Ok (videos_urls, continuation) ->
  exists paths,
    item_paths json_loads repr raw = Ok paths
    /\ videos_urls = uniqueify paths.
Proof.
  unfold _extract_videos, extract_videos_of, item_paths.
  destruct (json_loads raw) as [payload|e]; cbn [rbind]; [|discriminate].
  destruct (resolve_videos payload) as [[videos|]|e]; cbn [rbind];
    [| |discriminate].
  - destruct (split_continuation videos) as [[videos' c]|e]; cbn [rbind fst];
      [|discriminate].
    destruct (iterate videos') as [items|e]; cbn [rbind]; [|discriminate].
    destruct (map_result (watch_path repr) items) as [paths|e]; cbn [rbind];
      [|discriminate].
    intros H. inversion H; subst. eauto.
  - intros H. inversion H; subst. exists []. auto.
Qed.

Lemma extract_videos_page until_watch_id raw videos_urls continuation :
  _extract_videos json_loads repr raw = Ok (videos_urls, continuation) ->
  page_of_payload json_loads repr until_watch_id raw
    (page_up_to until_watch_id videos_urls).
Proof.
  intros Hx. split.
  - apply extract_videos_NoDup in Hx. unfold page_up_to.
    destruct (trim_index until_watch_id videos_urls);
      [apply NoDup_firstn|]; exact Hx.
  - destruct (extract_videos_item_paths _ _ _ Hx) as (paths & Hp & ->).
    exists paths, (uniqueify paths).
    split; [exact Hp|]. split; [apply uniqueify_first_seen|reflexivity].
Qed.

Lemma yields_bind {W Y A B : Type} (m : Gen W Y A) (k : A -> Gen W Y B) w :
  yields (fst (fst (bind m k w)))
  = yields (fst (fst (m w)))
    ++ match m w with
       | (_, w1, Return x) => yields (fst (fst (k x w1)))
       | _ => []
       end.
Proof.
  unfold bind. destruct (m w) as [[t w1] o].
  destruct o as [x|e|]; cbn [fst]; rewrite ?app_nil_r; try reflexivity.
  destruct (k x w1) as [[t2 w2] o2]. cbn [fst]. apply yields_app.
Qed.

Lemma paginate_loop_pages until_watch_id :
  forall fuel next ws,
    Forall2 (page_of_payload json_loads repr until_watch_id)
      (paginate_loop_payloads session cookie json_loads extract repr fuel
         until_watch_id next ws)
      (yields
         (fst (fst (paginate_loop session cookie json_loads extract repr fuel
                      until_watch_id next ws)))).
Proof.
  induction fuel as [|f IH]; intros next ws;
    cbn [paginate_loop paginate_loop_payloads];
    destruct (more_to_load next) as [[[u h] d]|]; try constructor.
  rewrite yields_bind.
  rewrite (quiet_nil _ (on_session_yields_all _ _
                          (post_quiet u (Some h) (Some d) 900)) ws).
  cbn [app].
  destruct (on_session (post session cookie u (Some h) (Some d) 900) ws)
    as [[t1 ws1] [req|e|]]; try constructor.
  rewrite yields_bind.
  destruct (_extract_videos json_loads repr req)
    as [[videos_urls continuation]|e] eqn:Hx;
    cbn [lift ret raise fst yields app]; try constructor.
  pose proof (extract_videos_page until_watch_id _ _ _ Hx) as Hpage.
  unfold page_up_to in Hpage.
  destruct (trim_index until_watch_id videos_urls) as [i|].
  - cbn [yield fst yields]. constructor; [exact Hpage|constructor].
  - rewrite yields_bind. cbn [yield fst yields app].
    constructor; [exact Hpage|].
    rewrite yields_bind.
    rewrite (quiet_nil _ (next_request_quiet continuation) ws1).
    cbn [app].
    destruct (next_request session cookie extract repr continuation ws1)
      as [[t3 ws3] [nxt|e|]]; try constructor.
    apply IH.
Qed.

(** C4, as amended. Each page that [_paginate] yields is made from one
    payload, the initial data of the html page and then the response to
    each continuation request, and holds the identifiers of the items of
    that payload, each once and in the order in which they first occur, up
    to the stop identifier when the page holds it: no identifier occurs
    twice within a page. The pages are not compared with one another. *)
Theorem paginate_pages_without_duplicates fuel until_watch_id ws :
  Forall2 (page_of_payload json_loads repr until_watch_id)
    (paginate_payloads session cookie json_loads json_dumps extract repr fuel
       until_watch_id ws)
    (yields
       (fst (fst (_paginate session cookie json_loads json_dumps extract repr
                    fuel until_watch_id ws)))).
Proof.
  unfold _paginate, paginate_payloads.
  rewrite yields_bind. rewrite (quiet_nil _ html_quiet ws). cbn [app].
  destruct (html session cookie extract ws) as [[t1 ws1] [h|e|]];
    try constructor.
  rewrite yields_bind.
  destruct (initial_data_of extract h) as [initial|e];
    cbn [lift ret raise fst yields app]; try constructor.
  rewrite yields_bind.
  destruct (_extract_videos json_loads repr (json_dumps initial))
    as [[videos_urls continuation]|e] eqn:Hx;
    cbn [lift ret raise fst yields app]; try constructor.
  pose proof (extract_videos_page until_watch_id _ _ _ Hx) as Hpage.
  unfold page_up_to in Hpage.
  destruct (trim_index until_watch_id videos_urls) as [i|].
  - cbn [yield fst yields]. constructor; [exact Hpage|constructor].
  - rewrite yields_bind. cbn [yield fst yields app].
    constructor; [exact Hpage|].
    rewrite yields_bind.
    rewrite (quiet_nil _ (next_request_quiet continuation) ws1).
    cbn [app].
    destruct (next_request session cookie extract repr continuation ws1)
      as [[t3 ws3] [nxt|e|]]; try constructor.
    apply paginate_loop_pages.
Qed.

End Pagination.

(** Two pages, the first with the video [a] twice: the payloads are the two
    pages as the server wrote them, the first with the identifiers of [a],
    [b] and [a] again, and the page yielded for it holds [a] and [b]. *)
Example paginate_payloads_of_two_pages :
  payloads_of_pages dup_page_one [dup_page_two] 5 None
  = [simple_dumps dup_page_one; simple_dumps dup_page_two]
  /\ item_paths (loads_among [dup_page_one; dup_page_two]) simple_dumps
       (simple_dumps dup_page_one)
     = Ok ["/watch?v=a"; "/watch?v=b"; "/watch?v=a"]
  /\ nth_error
       (yields (fst (fst (paginate_pages dup_page_one [dup_page_two] 5 None))))
       0
     = Some ["/watch?v=a"; "/watch?v=b"].
Proof. vm_compute. repeat split. Qed.

(** C4, counterexample. The video [a] is on the first page and again on the
    second: its identifier is yielded on both. *)
Lemma paginate_repeats_across_pages :
  let '(t, _, _) := paginate_pages dup_page_one [dup_page_two] 5 None in
  yields t = [["/watch?v=a"; "/watch?v=b"]; ["/watch?v=a"; "/watch?v=c"]]
  /\ ~ NoDup (List.concat (yields t)).
Proof.
  vm_compute. split; [reflexivity|].
  intros H. inversion H as [|x l Hin _]; subst.
  apply Hin. right. left. reflexivity.
Qed.

Lemma paginate_stops_at_identifier_witness :
  exists pre post ws1,
    ["/watch?v=c"; "/watch?v=d"; "/watch?v=e"]
    = pre ++ watch_id_path "d" :: post
    /\ ~ In (watch_id_path "d") pre
    /\ paginate_pages page_one [page_two; page_three] 5 (Some "d")
       = (firstn 3
            (fst (fst (paginate_pages page_one [page_two; page_three] 5 None)))
          ++ [Yield pre], ws1, Return tt).
Proof.
  apply (paginate_stops_at_identifier
           (playlist_server "<html>" [page_two; page_three]) ""
           (loads_among [page_one; page_two; page_three]) simple_dumps
           (simple_extract page_one) simple_dumps 5 "d"
           (O, new_playlist "https://www.youtube.com/playlist?list=PL1")
           (fst (fst (paginate_pages page_one [page_two; page_three] 5 None)))
           (snd (fst (paginate_pages page_one [page_two; page_three] 5 None)))
           (snd (paginate_pages page_one [page_two; page_three] 5 None))
           (firstn 3
              (fst (fst (paginate_pages page_one [page_two; page_three] 5
                           None))))
           ["/watch?v=c"; "/watch?v=d"; "/watch?v=e"]
           (skipn 4
              (fst (fst (paginate_pages page_one [page_two; page_three] 5
                           None))))).
  - discriminate.
  - vm_compute. reflexivity.
  - vm_compute. reflexivity.
  - vm_compute. repeat constructor; intros H; decompose [or] H;
      try discriminate; contradiction.
  - vm_compute. right. left. reflexivity.
Defined.

(** The enumeration of three pages, the stop identifier on the second:
    the first page in full, the second up to the identifier, and no request
    for the third. *)
Example paginate_three_pages_stop :
  let '(t, _, o) :=
    paginate_pages page_one [page_two; page_three] 5 (Some "d") in
  yields t = [["/watch?v=a"; "/watch?v=b"]; ["/watch?v=c"]]
  /\ requests t
     = [("GET", "https://www.youtube.com/playlist?list=PL1");
        ("POST", "https://www.youtube.com/youtubei/v1/browse?key=key")]
  /\ o = Return tt.
Proof. vm_compute. repeat split. Qed.

(* ================================================================= *)
(** * Part III: further properties of the code *)
(* ================================================================= *)

(** ** [stream]: edge cases *)

Section StreamEdges.

Context {World : Type}.
Variable session : Session World.
Variable cookie : string.

(** X1. A url that does not start with [http], in any case, is refused
    before anything is sent: [stream] raises [ValueError("Invalid URL")] on
    its first window, with no request, no chunk and the world as it was. *)
Theorem stream_invalid_url fuel url timeout max_retries (w : World) :
  Py.startswith (Py.lower url) "http" = false ->
  0 <= max_retries ->
  stream session cookie (S fuel) url timeout max_retries w
  = ([], w, Raise (ValueError "Invalid URL")).
Proof.
  intros Hurl Hmr.
  pose proof (proj2 (Z.ltb_lt _ _) default_range_size_pos) as HR.
  unfold stream. cbv zeta. simpl. rewrite HR.
  unfold bind at 1, stream_window. cbv zeta. unfold bind at 1.
  destruct (Z.to_nat (1 + max_retries)) as [|n] eqn:En; [lia|].
  simpl.
  destruct (0 >=? 1 + max_retries) eqn:G.
  { rewrite Z.geb_leb in G. apply Z.leb_le in G. lia. }
  unfold bind, attempt, _execute_request. rewrite Hurl. reflexivity.
Qed.

(** X2. With a negative [max_retries] the bound [1 + max_retries] is
    already reached before the first attempt: [stream] raises
    [MaxRetriesExceeded] without sending a request. *)
Theorem stream_negative_retries fuel url timeout max_retries (w : World) :
  max_retries < 0 ->
  stream session cookie (S fuel) url timeout max_retries w
  = ([], w, Raise MaxRetriesExceeded).
Proof.
  intros Hmr.
  pose proof (proj2 (Z.ltb_lt _ _) default_range_size_pos) as HR.
  unfold stream. cbv zeta. simpl. rewrite HR.
  unfold bind at 1, stream_window. cbv zeta. unfold bind at 1.
  assert (G : (0 >=? 1 + max_retries) = true).
  { rewrite Z.geb_leb. apply Z.leb_le. lia. }
  destruct (Z.to_nat (1 + max_retries)); simpl; rewrite G; reflexivity.
Qed.

End StreamEdges.

Lemma stream_invalid_url_witness :
  stream (file_server hello) "" 1 "ftp://h/v" 900 0 tt
  = ([], tt, Raise (ValueError "Invalid URL")).
Proof.
  apply (stream_invalid_url (file_server hello) "" 0 "ftp://h/v" 900 0 tt).
  - reflexivity.
  - lia.
Defined.

Lemma stream_negative_retries_witness :
  stream (file_server hello) "" 1 "http://h/v" 900 (-1) tt
  = ([], tt, Raise MaxRetriesExceeded).
Proof.
  apply (stream_negative_retries (file_server hello) "" 0 "http://h/v" 900
           (-1) tt).
  lia.
Defined.

(** ** [stream]: what it sends and what it yields *)

Lemma bind_trace_Forall {W Y A B : Type} (P : event Y -> Prop)
  (m : Gen W Y A) (k : A -> Gen W Y B) (w : W) :
  Forall P (fst (fst (m w))) ->
  (forall x w1 t, m w = (t, w1, Return x) -> Forall P (fst (fst (k x w1)))) ->
  Forall P (fst (fst (bind m k w))).
Proof.
  intros Hm Hk. unfold bind.
  destruct (m w) as [[t1 w1] o] eqn:E. simpl in Hm.
  destruct o as [x|e|]; simpl; try exact Hm.
  specialize (Hk x w1 t1 eq_refl).
  destruct (k x w1) as [[t2 w2] o2]. simpl in *.
  apply Forall_app. split; assumption.
Qed.

Section StreamEvents.

Context {World : Type}.
Variable session : Session World.
Variable cookie : string.
Variables (url : string) (timeout max_retries : Z).

Lemma range_request_headers range :
  request_headers cookie (Some [("Range", range)])
  = base_headers cookie ++ [("Range", range)].
Proof. reflexivity. Qed.

Lemma retry_loop_events range :
  forall fuel tries (w : World),
    Forall
      (fun ev =>
         ev = Request "GET" url (base_headers cookie ++ [("Range", range)])
                None)
      (fst (fst (retry_loop session cookie fuel url range timeout max_retries
                   tries w))).
Proof.
  induction fuel as [|f IH]; intros tries w; simpl.
  - destruct (tries >=? 1 + max_retries); constructor.
  - destruct (tries >=? 1 + max_retries); [constructor|].
    apply bind_trace_Forall.
    + unfold attempt, _execute_request.
      destruct (Py.startswith (Py.lower url) "http"); [|constructor].
      rewrite range_request_headers.
      destruct (request session w "GET" url
                  (base_headers cookie ++ [("Range", range)]) None)
        as [[resp|[|reason|name]] w1]; simpl;
        try (destruct (status resp =? 400)); simpl;
        repeat constructor.
    + intros [resp|e] w1 t _; [constructor|].
      destruct e as [| | | | | | | |[|msg]|]; try constructor.
      apply IH.
Qed.

Lemma read_loop_events :
  forall fuel content downloaded (w : World),
    Forall
      (fun ev =>
         match ev with
         | Yield chunk => chunk <> [] /\ Py.len chunk <= default_chunk_size
         | Request _ _ _ _ => False
         end)
      (fst (fst (read_loop (World:=World) fuel content downloaded w))).
Proof.
  pose proof default_chunk_size_nat as Hn.
  induction fuel as [|f IH]; intros content downloaded w; simpl.
  - constructor.
  - destruct (firstn (Z.to_nat default_chunk_size) content) as [|b chunk] eqn:E.
    + constructor.
    + apply bind_trace_Forall.
      * simpl. constructor; [|constructor]. split; [discriminate|].
        rewrite <- E. unfold Py.len.
        pose proof (firstn_le_length (Z.to_nat default_chunk_size) content).
        lia.
      * intros _ w1 t _. apply IH.
Qed.

Lemma stream_window_events file_size downloaded (w : World) :
  0 <= downloaded < file_size ->
  Forall (stream_event_ok cookie url)
    (fst (fst (stream_window session cookie url timeout max_retries file_size
                 downloaded w))).
Proof.
  intros Hd. pose proof default_range_size_pos as HR.
  unfold stream_window. cbv zeta.
  apply bind_trace_Forall.
  - eapply Forall_impl; [|apply retry_loop_events].
    intros ev ->. simpl. repeat split.
    exists downloaded, (Z.min (downloaded + default_range_size) file_size - 1).
    split; [lia|reflexivity].
  - intros resp w1 t _. apply bind_trace_Forall.
    + destruct (learn_file_size file_size resp); constructor.
    + intros fs' w2 t2 _. apply bind_trace_Forall.
      * eapply Forall_impl; [|apply read_loop_events].
        intros [m u h d|chunk]; simpl; tauto.
      * intros d' w3 t3 _. constructor.
Qed.

Lemma stream_loop_events :
  forall fuel file_size downloaded (w : World),
    0 <= downloaded ->
    Forall (stream_event_ok cookie url)
      (fst (fst (stream_loop session cookie fuel url timeout max_retries
                   file_size downloaded w))).
Proof.
  induction fuel as [|f IH]; intros fs d w Hd; simpl.
  - destruct (d <? fs); constructor.
  - destruct (Z.ltb_spec d fs) as [Hlt|Hge]; [|constructor].
    apply bind_trace_Forall.
    + apply stream_window_events. lia.
    + intros [fs' d'] w1 t Hw. cbn [fst snd].
      apply IH.
      destruct (window_progress session cookie _ _ _ _ _ _ _ _ _ Hw)
        as [_ Hp].
      destruct (Hp fs' d' eq_refl) as (_ & Hle & _). lia.
Qed.

(** X3. Whatever the server does, every chunk that [stream] yields is
    non-empty and holds at most [default_chunk_size] bytes. *)
Theorem stream_chunk_sizes fuel (w : World) :
  Forall (fun chunk => chunk <> [] /\ Py.len chunk <= default_chunk_size)
    (yields (fst (fst (stream session cookie fuel url timeout max_retries
                         w)))).
Proof.
  pose proof (stream_loop_events fuel default_range_size 0 w (Z.le_refl 0))
    as H.
  unfold stream. cbv zeta.
  induction H as [|ev t Hev _ IH]; simpl; [constructor|].
  destruct ev as [m u h d|chunk]; [exact IH|].
  constructor; [exact Hev|exact IH].
Qed.

(** X4. Whatever the server does, every request that [stream] sends is a
    [GET] of the url it was given, without a body, whose headers are the
    base headers followed by one [Range] header [bytes=start-stop] with
    [0 <= start <= stop]: no other url is contacted and no empty or
    inverted range is asked for. *)
Theorem stream_requests fuel (w : World) :
  forall method url' hdrs data,
    In (Request method url' hdrs data)
      (fst (fst (stream session cookie fuel url timeout max_retries w))) ->
    method = "GET" /\ url' = url /\ data = None
    /\ exists start stop,
         0 <= start <= stop
         /\ hdrs = base_headers cookie ++ [("Range", range_header start stop)].
Proof.
  intros method url' hdrs data Hin.
  pose proof (stream_loop_events fuel default_range_size 0 w (Z.le_refl 0))
    as H.
  rewrite Forall_forall in H. exact (H _ Hin).
Qed.

(** X5. Within one window every attempt sends the same request: a retry,
    when the loop makes one, asks again for the same range of the same
    url. *)
Theorem stream_window_same_request file_size downloaded (w : World) :
  Forall
    (fun ev =>
       match ev with
       | Request _ _ _ _ =>
           ev = Request "GET" url
                  (base_headers cookie
                   ++ [("Range",
                        range_header downloaded
                          (Z.min (downloaded + default_range_size) file_size
                           - 1))])
                  None
       | Yield _ => True
       end)
    (fst (fst (stream_window session cookie url timeout max_retries file_size
                 downloaded w))).
Proof.
  unfold stream_window. cbv zeta.
  apply bind_trace_Forall.
  - eapply Forall_impl; [|apply retry_loop_events].
    intros ev ->. reflexivity.
  - intros resp w1 t _. apply bind_trace_Forall.
    + destruct (learn_file_size file_size resp); constructor.
    + intros fs' w2 t2 _. apply bind_trace_Forall.
      * eapply Forall_impl; [|apply read_loop_events].
        intros [m u h d|chunk]; simpl; tauto.
      * intros d' w3 t3 _. constructor.
Qed.

(** *** Bytes yielded and [downloaded] *)

Lemma stream_window_bytes file_size downloaded (w : World) t w1
  file_size' downloaded' :
  stream_window session cookie url timeout max_retries file_size downloaded w
  = (t, w1, Return (file_size', downloaded')) ->
  downloaded' = downloaded + Py.len (List.concat (yields t)).
Proof.
  intros Hrun.
  pose proof (stream_window_spec session cookie url timeout max_retries
                file_size downloaded w) as Hspec.
  pose proof (retry_loop_outcome session cookie url
                (range_header downloaded
                   (Z.min (downloaded + default_range_size) file_size - 1))
                timeout max_retries (Z.to_nat (1 + max_retries)) 0 w) as Hr.
  replace (Z.to_nat (1 + max_retries - 0)) with (Z.to_nat (1 + max_retries))
    in Hr by (f_equal; lia).
  specialize (Hr (le_n _)).
  cbv zeta in Hspec.
  destruct (retry_loop session cookie (Z.to_nat (1 + max_retries)) url
              (range_header downloaded
                 (Z.min (downloaded + default_range_size) file_size - 1))
              timeout max_retries 0 w) as [[t1 w2] o1].
  destruct Hr as (_ & _ & Hy).
  destruct o1 as [resp|e|].
  - destruct Hspec as (chunks & fs' & Hw & _ & Hcat & _).
    rewrite Hw in Hrun. inversion Hrun; subst.
    rewrite yields_app, yields_map_Yield, Hy. cbn [app].
    rewrite Hcat. reflexivity.
  - rewrite Hspec in Hrun. discriminate.
  - rewrite Hspec in Hrun. discriminate.
Qed.

Lemma stream_loop_bytes :
  forall fuel file_size downloaded (w : World) t w' dflt,
    stream_loop session cookie fuel url timeout max_retries file_size
      downloaded w = (t, w', Return tt) ->
    exists file_size' downloaded',
      last (stream_states session cookie fuel url timeout max_retries
              file_size downloaded w) dflt
      = (file_size', downloaded')
      /\ file_size' <= downloaded'
      /\ downloaded' = downloaded + Py.len (List.concat (yields t)).
Proof.
  induction fuel as [|f IH]; intros fs d w t w' dflt; simpl.
  - destruct (Z.ltb_spec d fs) as [Hlt|Hge]; [discriminate|].
    intros H. inversion H; subst. exists fs, d. simpl.
    repeat split; [assumption|]. unfold Py.len. simpl. lia.
  - destruct (Z.ltb_spec d fs) as [Hlt|Hge].
    + unfold bind.
      destruct (stream_window session cookie url timeout max_retries fs d w)
        as [[t1 w1] o1] eqn:Hw.
      destruct o1 as [[fs1 d1]|e|]; try discriminate.
      cbn [fst snd].
      destruct (stream_loop session cookie f url timeout max_retries fs1 d1
                  w1) as [[t2 w2] o2] eqn:E.
      intros H. inversion H; subst.
      destruct (IH fs1 d1 w1 t2 w' dflt E) as (fs' & d' & Hlast & Hle & Hd').
      apply stream_window_bytes in Hw.
      exists fs', d'. split; [|split].
      * destruct f; simpl in Hlast |- *; exact Hlast.
      * exact Hle.
      * rewrite yields_app, concat_app. unfold Py.len in *.
        rewrite length_app. lia.
    + intros H. inversion H; subst. exists fs, d. simpl.
      repeat split; [assumption|]. unfold Py.len. simpl. lia.
Qed.

(** X6. When [stream] returns, it has yielded at least as many bytes as
    the last [file_size] it held: it never returns normally short of the
    size it has learnt. *)
Theorem stream_returns_with_size_covered fuel (w : World) t w' :
  stream session cookie fuel url timeout max_retries w = (t, w', Return tt) ->
  fst (last (stream_states session cookie fuel url timeout max_retries
               default_range_size 0 w) (0, 0))
  <= Py.len (List.concat (yields t)).
Proof.
  unfold stream. cbv zeta. intros Hrun.
  destruct (stream_loop_bytes fuel default_range_size 0 w t w' (0, 0) Hrun)
    as (fs' & d' & Hlast & Hle & Hd').
  rewrite Hlast. cbn [fst]. lia.
Qed.

End StreamEvents.

Lemma stream_requests_witness :
  "GET" = "GET" /\ "http://h/v" = "http://h/v" /\ @None json = None
  /\ exists start stop,
       0 <= start <= stop
       /\ base_headers "" ++ [("Range", "bytes=0-9437183")]
          = base_headers "" ++ [("Range", range_header start stop)].
Proof.
  apply (stream_requests (file_server hello) "" "http://h/v" 900 0 2 tt
           "GET" "http://h/v"
           (base_headers "" ++ [("Range", "bytes=0-9437183")]) None).
  vm_compute. left. reflexivity.
Defined.

Lemma stream_returns_with_size_covered_witness :
  exists t w',
    stream (file_server hello) "" 2 "http://h/v" 900 0 tt
    = (t, w', Return tt)
    /\ fst (last (stream_states (file_server hello) "" 2 "http://h/v" 900 0
                    default_range_size 0 tt) (0, 0))
       <= Py.len (List.concat (yields t)).
Proof.
  eexists _, _. split.
  - vm_compute. reflexivity.
  - apply (stream_returns_with_size_covered (file_server hello) ""
             "http://h/v" 900 0 2 tt _ tt).
    vm_compute. reflexivity.
Defined.

(** ** The [Content-Range] header *)

(** X7. Reading the size never aborts a stream: whatever the response,
    the [if file_size == default_range_size] block ends normally. While
    [file_size] is the placeholder it takes the total of the
    [Content-Range] header when that can be read, and is left as it is when
    the header is missing ([KeyError]), has no [/] ([IndexError]) or has a
    total that is not an integer ([ValueError]); afterwards the header is
    not looked at. *)
Theorem learn_file_size_never_raises file_size resp :
  learn_file_size file_size resp
  = Ok (if file_size =? default_range_size
        then match content_range_size resp with
             | Ok n => n
             | Err _ => file_size
             end
        else file_size)
  /\ (forall e,
        content_range_size resp = Err e ->
        (e = KeyError
         /\ headers_getitem (headers resp) "Content-Range" = Err KeyError)
        \/ (e = IndexError
            /\ exists content_range,
                 headers_getitem (headers resp) "Content-Range"
                 = Ok content_range
                 /\ nth_error (Py.split content_range "/") 1 = None)
        \/ exists msg, e = ValueError msg).
Proof.
  assert (Herr : forall e,
            content_range_size resp = Err e ->
            (e = KeyError
             /\ headers_getitem (headers resp) "Content-Range" = Err KeyError)
            \/ (e = IndexError
                /\ exists content_range,
                     headers_getitem (headers resp) "Content-Range"
                     = Ok content_range
                     /\ nth_error (Py.split content_range "/") 1 = None)
            \/ exists msg, e = ValueError msg).
  { intros e. unfold content_range_size, rbind.
    destruct (headers_getitem (headers resp) "Content-Range") as [cr|e0]
      eqn:H.
    - destruct (nth_error (Py.split cr "/") 1) as [field|] eqn:N.
      + intros C. apply int_error in C. auto.
      + intros C. inversion C; subst. right. left. eauto.
    - intros C. inversion C; subst.
      pose proof (headers_getitem_error _ _ _ H). subst. auto. }
  split; [|exact Herr].
  unfold learn_file_size.
  destruct (file_size =? default_range_size); [|reflexivity].
  destruct (content_range_size resp) as [n|e] eqn:C; [reflexivity|].
  destruct (Herr e eq_refl) as [[-> _]|[[-> _]|[msg ->]]]; reflexivity.
Qed.

Lemma learn_file_size_never_raises_witness :
  learn_file_size default_range_size
    {| status := 200; headers := [("content-range", "bytes 0-4")];
       body := [] |}
  = Ok default_range_size.
Proof.
  destruct (learn_file_size_never_raises default_range_size
              {| status := 200; headers := [("content-range", "bytes 0-4")];
                 body := [] |}) as [H Herr].
  rewrite H.
  destruct (Herr IndexError eq_refl) as [[E _]|[[_ _]|[msg E]]];
    [discriminate E| |discriminate E].
  vm_compute. reflexivity.
Defined.

(** ** The segment count of a header segment *)

Lemma digit_not_space c : Py.is_digit c = true -> Py.is_space c = false.
Proof.
  unfold Py.is_digit, Py.is_space. cbv zeta.
  generalize (nat_of_ascii c). intros n H.
  apply andb_true_iff in H. destruct H as [H1 H2].
  apply Nat.leb_le in H1. apply Nat.leb_le in H2.
  apply orb_false_iff. split.
  - apply andb_false_iff. right. apply Nat.leb_gt. lia.
  - apply Nat.eqb_neq. lia.
Qed.

Lemma digit_value_nonneg c : Py.is_digit c = true -> 0 <= Py.digit_value c.
Proof.
  unfold Py.is_digit, Py.digit_value. cbv zeta. intros H.
  apply andb_true_iff in H. destruct H as [H1 _].
  apply Nat.leb_le in H1. lia.
Qed.

(** On a string of digits the scan reads every character and counts it. *)
Lemma scan_digits_digits s :
  all_digits s = true ->
  forall acc digits, 0 <= acc ->
    exists n,
      Py.scan_digits acc digits s
      = Some (n, digits + Z.of_nat (String.length s), EmptyString)
      /\ 0 <= n.
Proof.
  induction s as [|c r IH]; intros H acc digits Hacc.
  - exists acc. cbn [Py.scan_digits String.length].
    rewrite Z.add_0_r. auto.
  - cbn [all_digits] in H. apply andb_true_iff in H. destruct H as [Hc Hr].
    cbn [Py.scan_digits]. rewrite Hc.
    destruct (IH Hr (10 * acc + Py.digit_value c) (digits + 1))
      as (n & Hn & Hpos).
    { pose proof (digit_value_nonneg c Hc). lia. }
    exists n. split; [|exact Hpos]. rewrite Hn.
    cbn [String.length]. do 3 f_equal. lia.
Qed.

(** [int] of a non-empty string of digits gives a natural number when the
    string has at most [int_max_str_digits] digits, and raises the
    [ValueError] of the limit when it has more. *)
Lemma int_of_digits d :
  d <> "" -> all_digits d = true ->
  exists n,
    0 <= n
    /\ Py.int d
       = if Py.int_max_str_digits <? Z.of_nat (String.length d)
         then Err (Py.exceeds_limit (Z.of_nat (String.length d)))
         else Ok n.
Proof.
  intros Hne Hd. destruct d as [|c r]; [contradiction|].
  pose proof Hd as Hd'. cbn [all_digits] in Hd'. apply andb_true_iff in Hd'.
  destruct Hd' as [Hc Hr].
  unfold Py.int.
  assert (Hl : Py.lstrip (String c r) = String c r).
  { cbn [Py.lstrip]. rewrite (digit_not_space c Hc). reflexivity. }
  rewrite Hl.
  assert (Hsign :
            match String c r with
            | String "+" r' => Py.parse_unsigned r'
            | String "-" r' =>
                rbind (Py.parse_unsigned r') (fun n => Ok (- n))
            | t => Py.parse_unsigned t
            end = Py.parse_unsigned (String c r)).
  { clear - Hc.
    destruct c as [[] [] [] [] [] [] [] []]; try reflexivity;
      discriminate Hc. }
  rewrite Hsign. cbn [Py.parse_unsigned]. rewrite Hc.
  destruct (scan_digits_digits r Hr (Py.digit_value c) 1
              (digit_value_nonneg c Hc)) as (n & Hn & Hpos).
  rewrite Hn. exists n. split; [exact Hpos|].
  replace (Z.of_nat (String.length (String c r)))
    with (1 + Z.of_nat (String.length r)) by (cbn [String.length]; lia).
  destruct (Py.int_max_str_digits <? 1 + Z.of_nat (String.length r));
    reflexivity.
Qed.

Lemma take_digits_digits s : all_digits (take_digits s) = true.
Proof.
  induction s as [|c r IH]; simpl; [reflexivity|].
  destruct (Py.is_digit c) eqn:E; simpl; [rewrite E, IH|]; reflexivity.
Qed.

Lemma segment_count_search_digits line d :
  segment_count_search line = Some d -> d <> "" /\ all_digits d = true.
Proof.
  induction line as [|c r IH].
  - simpl. discriminate.
  - cbn [segment_count_search].
    destruct (drop_prefix "Segment-Count: " (String c r)) as [rest|];
      [|exact IH].
    destruct (take_digits rest) as [|c' d'] eqn:E; [exact IH|].
    intros H. inversion H; subst. split; [discriminate|].
    rewrite <- E. apply take_digits_digits.
Qed.

#[local] Abbreviation count_step :=
  (fun acc line =>
     rbind acc (fun segment_count =>
     match segment_count_search (string_of_list_byte line) with
     | Some group1 => rbind (Py.int group1) (fun n => Ok (Some n))
     | None => Ok segment_count
     end)).

(** Once a line has made [int] raise, the later lines are not read. *)
Lemma find_segment_count_raised (lines : list bytes) e :
  fold_left count_step lines (Err e) = Err e.
Proof. induction lines as [|line lines IH]; simpl; [reflexivity|exact IH]. Qed.

(** What one line does to [segment_count]. *)
Lemma count_step_line acc line :
  count_step (Ok acc) line
  = match segment_count_search (string_of_list_byte line) with
    | None => Ok acc
    | Some d =>
        if segment_count_too_long line
        then Err (Py.exceeds_limit (Z.of_nat (String.length d)))
        else match Py.int d with
             | Ok n => Ok (Some n)
             | Err e => Err e
             end
    end
  /\ (segment_count_too_long line = false ->
      exists r,
        count_step (Ok acc) line = Ok r
        /\ ((forall m, acc = Some m -> 0 <= m) ->
            forall m, r = Some m -> 0 <= m)).
Proof.
  unfold segment_count_too_long. cbn [rbind].
  destruct (segment_count_search (string_of_list_byte line)) as [d|] eqn:E.
  - destruct (segment_count_search_digits _ _ E) as [Hne Hd].
    destruct (int_of_digits d Hne Hd) as (n & Hpos & Hn).
    rewrite Hn.
    destruct (Py.int_max_str_digits <? Z.of_nat (String.length d)).
    + split; [reflexivity|discriminate].
    + split; [reflexivity|]. intros _. exists (Some n).
      split; [reflexivity|]. intros _ m Hm. inversion Hm; subst. exact Hpos.
  - split; [reflexivity|]. intros _. exists acc. split; [reflexivity|auto].
Qed.

Lemma find_segment_count_step (lines : list bytes) :
  forall acc,
    (Forall (fun l => segment_count_search (string_of_list_byte l) = None)
       lines ->
     fold_left count_step lines (Ok acc) = Ok acc)
    /\ (Forall (fun l => segment_count_too_long l = false) lines ->
        exists r,
          fold_left count_step lines (Ok acc) = Ok r
          /\ ((forall m, acc = Some m -> 0 <= m) ->
              forall m, r = Some m -> 0 <= m)).
Proof.
  induction lines as [|line lines IH]; intros acc.
  - split; intros _; [reflexivity|]. exists acc. auto.
  - cbn [fold_left]. split.
    + intros H. inversion H as [|? ? Hline Hrest]; subst.
      cbn [rbind]. rewrite Hline. apply IH. exact Hrest.
    + intros H. inversion H as [|? ? Hline Hrest]; subst.
      destruct (proj2 (count_step_line acc line) Hline) as (r & Hr & Hpos).
      rewrite Hr. destruct (proj2 (IH r) Hrest) as (r' & Hr' & Hpos').
      exists r'. split; [exact Hr'|]. intros Hacc. apply Hpos', Hpos, Hacc.
Qed.

(** The loop over the lines raises exactly when a line gives a count that
    [int] refuses; the [ValueError] is the one of the first such line. *)
Lemma find_segment_count_outcome (lines : list bytes) :
  (existsb segment_count_too_long lines = false ->
   exists count,
     find_segment_count lines = Ok count
     /\ forall n, count = Some n -> 0 <= n)
  /\ (existsb segment_count_too_long lines = true ->
      exists msg, find_segment_count lines = Err (ValueError msg)).
Proof.
  unfold find_segment_count. split.
  - intros H.
    assert (Hall : Forall (fun l => segment_count_too_long l = false) lines).
    { apply Forall_forall. intros l Hl.
      destruct (segment_count_too_long l) eqn:E; [|reflexivity].
      assert (Hex : existsb segment_count_too_long lines = true)
        by (apply existsb_exists; eauto).
      congruence. }
    destruct (proj2 (find_segment_count_step lines None) Hall)
      as (count & Hcount & Hpos).
    exists count. split; [exact Hcount|]. apply Hpos. discriminate.
  - generalize (@None Z) as acc.
    induction lines as [|line lines IH]; intros acc H; [discriminate|].
    cbn [existsb] in H. cbn [fold_left].
    destruct (segment_count_too_long line) eqn:E.
    + rewrite (proj1 (count_step_line acc line)), E.
      unfold segment_count_too_long in E.
      destruct (segment_count_search (string_of_list_byte line)) as [d|];
        [|discriminate].
      rewrite find_segment_count_raised. unfold Py.exceeds_limit. eauto.
    + destruct (proj2 (count_step_line acc line) E) as (r & Hr & _).
      rewrite Hr. apply IH. exact H.
Qed.

(** X8. The segment count is the number on the last line of the header
    that matches [Segment-Count: (\d+)], whatever the earlier lines say, as
    long as no count has more than [int_max_str_digits] digits; it is then
    a natural number. Without a matching line the count stays unbound.
    The first line that gives a count of more digits makes [int] raise
    [ValueError], which nothing catches, whatever the later lines say. *)
Theorem find_segment_count_last_match :
  (forall before line after d,
     Forall (fun l => segment_count_too_long l = false) before ->
     segment_count_search (string_of_list_byte line) = Some d ->
     Z.of_nat (String.length d) <= Py.int_max_str_digits ->
     Forall (fun l => segment_count_search (string_of_list_byte l) = None)
       after ->
     exists n,
       Py.int d = Ok n /\ 0 <= n
       /\ find_segment_count (before ++ line :: after) = Ok (Some n))
  /\ (forall lines,
        Forall (fun l => segment_count_search (string_of_list_byte l) = None)
          lines ->
        find_segment_count lines = Ok None)
  /\ (forall before line after d,
        Forall (fun l => segment_count_too_long l = false) before ->
        segment_count_search (string_of_list_byte line) = Some d ->
        Py.int_max_str_digits < Z.of_nat (String.length d) ->
        find_segment_count (before ++ line :: after)
        = Err (Py.exceeds_limit (Z.of_nat (String.length d)))).
Proof.
  split; [|split].
  - intros before line after d Hbefore Hline Hlen Hafter.
    destruct (segment_count_search_digits _ _ Hline) as [Hne Hd].
    destruct (int_of_digits d Hne Hd) as (n & Hpos & Hn).
    destruct (Z.ltb_spec Py.int_max_str_digits (Z.of_nat (String.length d)))
      as [Hlt|_]; [lia|].
    exists n. repeat split; try assumption.
    unfold find_segment_count. rewrite fold_left_app.
    destruct (proj2 (find_segment_count_step before None) Hbefore)
      as (r & Hr & _).
    unfold bytes in *. rewrite Hr. cbn [fold_left rbind]. rewrite Hline, Hn. cbn [rbind].
    apply (proj1 (find_segment_count_step after (Some n))). exact Hafter.
  - intros lines Hlines.
    apply (proj1 (find_segment_count_step lines None)). exact Hlines.
  - intros before line after d Hbefore Hline Hlen.
    destruct (segment_count_search_digits _ _ Hline) as [Hne Hd].
    destruct (int_of_digits d Hne Hd) as (n & Hpos & Hn).
    destruct (Z.ltb_spec Py.int_max_str_digits (Z.of_nat (String.length d)))
      as [_|Hle]; [|lia].
    unfold find_segment_count. rewrite fold_left_app.
    destruct (proj2 (find_segment_count_step before None) Hbefore)
      as (r & Hr & _).
    unfold bytes in *. rewrite Hr. cbn [fold_left rbind]. rewrite Hline, Hn. cbn [rbind].
    apply find_segment_count_raised.
Qed.

Lemma find_segment_count_last_match_witness :
  (exists n,
     Py.int "3" = Ok n /\ 0 <= n
     /\ find_segment_count
          ([list_byte_of_string "Segment-Count: 7"]
           ++ list_byte_of_string "x Segment-Count: 3 y"
           :: [list_byte_of_string "Segment-Durations-Ms: 5000(r=1)"; []])
        = Ok (Some n))
  /\ find_segment_count
       ([list_byte_of_string "Segment-Count: 7"]
        ++ segment_count_line 4301
        :: [list_byte_of_string "Segment-Count: 3"])
     = Err (Py.exceeds_limit 4301).
Proof.
  split.
  - apply (proj1 find_segment_count_last_match
             [list_byte_of_string "Segment-Count: 7"]
             (list_byte_of_string "x Segment-Count: 3 y")
             [list_byte_of_string "Segment-Durations-Ms: 5000(r=1)"; []] "3").
    + repeat constructor.
    + reflexivity.
    + vm_compute. discriminate.
    + repeat constructor.
  - apply (proj2 (proj2 find_segment_count_last_match)
             [list_byte_of_string "Segment-Count: 7"]
             (segment_count_line 4301)
             [list_byte_of_string "Segment-Count: 3"]
             (string_of_list_ascii (repeat "1"%char 4301))).
    + repeat constructor.
    + vm_compute. reflexivity.
    + vm_compute. reflexivity.
Defined.

Section SegmentsMore.

Context {World : Type}.
Variable session : Session World.
Variable cookie : string.
Variable parse : urllib_parse.

(** X9. Once the stream of the header segment has returned, [seq_stream]
    adds no event and ends in one of four ways: with the [ValueError] of
    [int] when a line of the header gives a segment count of more than
    [int_max_str_digits] digits, and otherwise with [UnboundLocalError]
    when no line gives a segment count, with a normal return when the count
    is 0 (the loop over the segments is not entered), and with the
    [TypeError] of the [await] when it is not. *)
Theorem seq_stream_after_header fuel url timeout max_retries (w : World)
  t w1 :
  let split_url := urlsplit parse url in
  let url0 :=
    (base_url_of split_url
     ++ urlencode parse (dict_set (querys_of parse split_url) "sq" (QInt 0)))%string in
  let stream_info := Py.bytes_split (List.concat (yields t)) CRLF in
  stream session cookie (S fuel) url0 timeout max_retries w
  = (t, w1, Return tt) ->
  seq_stream session cookie parse (S fuel) url timeout max_retries w
  = (t, w1,
     match find_segment_count stream_info with
     | Err e => Raise e
     | Ok None => Raise (UnboundLocalError "segment_count")
     | Ok (Some n) => if n =? 0 then Return tt else Raise TypeError
     end)
  /\ (existsb segment_count_too_long stream_info = true ->
      exists msg, find_segment_count stream_info = Err (ValueError msg))
  /\ (existsb segment_count_too_long stream_info = false ->
      exists count, find_segment_count stream_info = Ok count).
Proof.
  cbv zeta. intros Hrun.
  destruct (find_segment_count_outcome
              (Py.bytes_split (List.concat (yields t)) CRLF))
    as [Hok Herr].
  split; [|split; [exact Herr|]].
  2:{ intros H. destruct (Hok H) as (count & Hcount & _). eauto. }
  unfold seq_stream. cbv zeta. unfold bind at 1, forward.
  rewrite Hrun. unfold bind at 1. unfold bytes in *.
  destruct (existsb segment_count_too_long
              (Py.bytes_split (List.concat (yields t)) CRLF)) eqn:E.
  - destruct (Herr E) as (msg & Hmsg). rewrite Hmsg.
    cbn [lift raise]. rewrite !app_nil_r. reflexivity.
  - destruct (Hok E) as (count & Hcount & Hpos). rewrite Hcount.
    cbn [lift ret]. destruct count as [n|].
    + rewrite seq_stream_loop_run. rewrite !app_nil_r. do 2 f_equal.
      specialize (Hpos n eq_refl).
      destruct (Z.eqb_spec n 0) as [->|Hn].
      * reflexivity.
      * destruct (Z.leb_spec 1 n); [reflexivity|lia].
    + simpl. rewrite !app_nil_r. reflexivity.
Qed.

End SegmentsMore.

Lemma seq_stream_after_header_witness :
  seq_stream (segment_server header_none []) "" simple_parse 1
    "http://h/v?id=7" 900 0 tt
  = (fst (fst (stream (segment_server header_none []) "" 1
                 "http://h//v?id=7&sq=0" 900 0 tt)), tt,
     Raise (UnboundLocalError "segment_count")).
Proof.
  apply (seq_stream_after_header (segment_server header_none []) ""
           simple_parse 0 "http://h/v?id=7" 900 0 tt
           (fst (fst (stream (segment_server header_none []) "" 1
                        "http://h//v?id=7&sq=0" 900 0 tt))) tt).
  vm_compute. reflexivity.
Defined.

(** ** [head] and [filesize] *)

Lemma dict_get_set {V : Type} (d : dict V) k v k' :
  dict_get (dict_set d k v) k'
  = if (k =? k')%string then Some v else dict_get d k'.
Proof.
  induction d as [|[k0 v0] d IH]; simpl.
  - reflexivity.
  - destruct (String.eqb_spec k0 k) as [->|Hne]; simpl.
    + destruct (k =? k')%string; reflexivity.
    + rewrite IH. destruct (String.eqb_spec k0 k') as [->|Hne'].
      * destruct (String.eqb_spec k k') as [->|]; [contradiction|reflexivity].
      * reflexivity.
Qed.

Lemma dict_get_of_pairs {V : Type} (l : list (string * V)) k :
  forall d,
    dict_get (fold_left (fun acc kv => dict_set acc (fst kv) (snd kv)) l d) k
    = fold_left (fun acc kv => if (fst kv =? k)%string then Some (snd kv)
                               else acc)
        l (dict_get d k).
Proof.
  induction l as [|[k0 v0] l IH]; intros d; simpl; [reflexivity|].
  rewrite IH, dict_get_set. reflexivity.
Qed.

Lemma lower_keys_get h name :
  dict_get (lower_keys h) name = last_header h name.
Proof.
  unfold lower_keys, dict_of_pairs, last_header.
  rewrite dict_get_of_pairs. simpl.
  generalize (@None string).
  induction h as [|[k v] h IH]; intros acc; simpl; [reflexivity|].
  apply IH.
Qed.

Lemma ascii_lower_idempotent c :
  Py.ascii_lower (Py.ascii_lower c) = Py.ascii_lower c.
Proof.
  destruct c as [[] [] [] [] [] [] [] []]; reflexivity.
Qed.

Lemma lower_idempotent s : Py.lower (Py.lower s) = Py.lower s.
Proof.
  induction s as [|c r IH]; simpl; [reflexivity|].
  rewrite ascii_lower_idempotent, IH. reflexivity.
Qed.

Lemma last_header_lowercase h name v :
  last_header h name = Some v -> Py.lower name = name.
Proof.
  unfold last_header.
  assert (H : forall acc,
            (acc = None \/ Py.lower name = name) ->
            fold_left
              (fun acc kv =>
                 if (Py.lower (fst kv) =? name)%string then Some (snd kv)
                 else acc) h acc = Some v ->
            Py.lower name = name).
  { induction h as [|[k x] h IH]; intros acc Hacc; simpl.
    - intros E. destruct Hacc as [->|Hl]; [discriminate|exact Hl].
    - apply IH.
      destruct (String.eqb_spec (Py.lower k) name) as [<-|Hne].
      + right. apply lower_idempotent.
      + exact Hacc. }
  apply H. left. reflexivity.
Qed.

Section Head.

Context {World : Type}.
Variable session : Session World.
Variable cookie : string.

(** X10. The dictionary [head] returns maps a name in lower case to the
    value of the last header of the response that has this name, in
    whatever case the server wrote it, and holds no other name: a lookup
    under a name with an upper-case letter finds nothing. *)
Theorem head_lowercase_headers {Y : Type} url (w : World) t w1 h :
  head (Y:=Y) session cookie url w = (t, w1, Return h) ->
  exists resp,
    _execute_request (Y:=Y) session cookie url "HEAD" None None 900 w
    = (t, w1, Return resp)
    /\ (forall name, dict_get h name = last_header (headers resp) name)
    /\ (forall name, Py.lower name <> name -> dict_get h name = None).
Proof.
  unfold head, bind.
  destruct (_execute_request session cookie url "HEAD" None None 900 w)
    as [[t1 w2] o].
  destruct o as [resp|e|]; try discriminate.
  simpl. intros H. inversion H; subst. rewrite app_nil_r.
  exists resp. split; [reflexivity|]. split.
  - intros name. apply lower_keys_get.
  - intros name Hname. rewrite lower_keys_get.
    destruct (last_header (headers resp) name) as [v|] eqn:E; [|reflexivity].
    apply last_header_lowercase in E. contradiction.
Qed.

(** X11. [filesize] makes the one [HEAD] call of [head] and returns the
    integer in the last [Content-Length] header of the response, whatever the case of the
    header's name; it raises [KeyError] when the response has no such
    header, [ValueError] when its value is not an integer, and what the
    request raised when the request failed. *)
Theorem filesize_outcome {Y : Type} url (w : World) :
  filesize (Y:=Y) session cookie url w
  = let '(t, w1, o) :=
      _execute_request (Y:=Y) session cookie url "HEAD" None None 900 w in
    (t, w1,
     match o with
     | Return resp =>
         match last_header (headers resp) "content-length" with
         | Some v =>
             match Py.int v with
             | Ok n => Return n
             | Err e => Raise e
             end
         | None => Raise KeyError
         end
     | Raise e => Raise e
     | OutOfFuel => OutOfFuel
     end).
Proof.
  unfold filesize, head_content_length, head, bind.
  destruct (_execute_request session cookie url "HEAD" None None 900 w)
    as [[t1 w2] o].
  destruct o as [resp|e|]; try reflexivity.
  simpl. rewrite lower_keys_get.
  destruct (last_header (headers resp) "content-length") as [v|]; simpl.
  - destruct (Py.int v); simpl; rewrite !app_nil_r; reflexivity.
  - rewrite !app_nil_r. reflexivity.
Qed.

End Head.

Lemma head_lowercase_headers_witness :
  exists resp,
    _execute_request (Y:=unit) (segment_server header_two []) ""
      "http://h/v?sq=0" "HEAD" None None 900 tt
    = ([Request "HEAD" "http://h/v?sq=0" (base_headers "") None], tt,
       Return resp)
    /\ (forall name,
          dict_get [("content-length", "51")] name
          = last_header (headers resp) name)
    /\ (forall name,
          Py.lower name <> name ->
          dict_get [("content-length", "51")] name = None).
Proof.
  apply (head_lowercase_headers (Y:=unit) (segment_server header_two []) ""
           "http://h/v?sq=0" tt).
  vm_compute. reflexivity.
Defined.

(** ** [_extract_videos]: the shapes of a page *)

Section ExtractMore.

Variable json_loads : string -> result json.
Variable repr : json -> string.

Lemma submenu_path_first x more :
  getpath (JList (x :: more)) (submenu_path 0) = getpath x video_list_path.
Proof.
  change (getpath (JList (x :: more)) (submenu_path 0))
    with (rbind (seq_getitem (x :: more) 0)
            (fun y => getpath y video_list_path)).
  assert (E : seq_getitem (x :: more) 0 = Ok x).
  { unfold seq_getitem, Py.len. simpl List.length.
    change (0 <? 0) with false. cbv iota.
    destruct ((0 <=? 0) && (0 <? Z.of_nat (S (List.length more))))%bool
      eqn:B.
    - reflexivity.
    - apply andb_false_iff in B. destruct B as [B|B].
      + discriminate.
      + apply Z.ltb_ge in B. lia. }
  rewrite E. reflexivity.
Qed.

Lemma submenu_path_second x y more :
  getpath (JList (x :: y :: more)) (submenu_path 1) = getpath y video_list_path.
Proof.
  change (getpath (JList (x :: y :: more)) (submenu_path 1))
    with (rbind (seq_getitem (x :: y :: more) 1)
            (fun z => getpath z video_list_path)).
  assert (E : seq_getitem (x :: y :: more) 1 = Ok y).
  { unfold seq_getitem, Py.len. simpl List.length.
    change (1 <? 0) with false. cbv iota.
    destruct ((0 <=? 1) && (1 <? Z.of_nat (S (S (List.length more)))))%bool
      eqn:B.
    - reflexivity.
    - apply andb_false_iff in B. destruct B as [B|B].
      + discriminate.
      + apply Z.ltb_ge in B. lia. }
  rewrite E. reflexivity.
Qed.

(** X12. A page extracted from html gives the same videos and the same
    continuation whether its list of videos is in the first section
    (playlist without submenus) or, the first section holding none, in the
    second (playlist with submenus). In the first case the sections after
    the first are not looked at. *)
Theorem extract_videos_submenu
  plain with_menu menu section more more' important_content videos e :
  getpath plain section_contents_path = Ok (JList (section :: more)) ->
  getpath with_menu section_contents_path
  = Ok (JList (menu :: section :: more')) ->
  getpath menu video_list_path = Err e ->
  getpath section video_list_path = Ok important_content ->
  getitem important_content (Key "contents") = Ok videos ->
  resolve_videos plain = Ok (Some videos)
  /\ resolve_videos with_menu = Ok (Some videos)
  /\ extract_videos_of repr with_menu = extract_videos_of repr plain.
Proof.
  intros Hplain Hmenu He Hsection Hvideos.
  assert (H1 : html_videos plain = Ok videos).
  { unfold html_videos. rewrite Hplain. cbn [rbind].
    rewrite submenu_path_first, Hsection. exact Hvideos. }
  assert (H2 : html_videos with_menu = Ok videos).
  { unfold html_videos. rewrite Hmenu. cbn [rbind].
    rewrite submenu_path_first, He, (getpath_error _ _ _ He).
    rewrite submenu_path_second, Hsection. exact Hvideos. }
  unfold extract_videos_of, resolve_videos. rewrite H1, H2. auto.
Qed.

Lemma map_result_error {A B : Type} (f : A -> result B) good ps x rest e :
  Forall2 (fun a p => f a = Ok p) good ps ->
  f x = Err e ->
  map_result f (good ++ x :: rest) = Err e.
Proof.
  intros Hgood Hx. induction Hgood as [|a p good ps Ha _ IH]; simpl.
  - rewrite Hx. reflexivity.
  - rewrite Ha, IH. reflexivity.
Qed.

Lemma watch_path_error x e :
  watch_path repr x = Err e -> shape_error e = true.
Proof.
  unfold watch_path.
  destruct (getpath x [Key "playlistVideoRenderer"; Key "videoId"])
    as [id|e0] eqn:E; simpl; [discriminate|].
  intros H. inversion H; subst. eapply getpath_error, E.
Qed.

(** X13. An element of the item list that has no
    [playlistVideoRenderer.videoId] is not skipped: once the continuation
    marker is taken off, the first such element makes [_extract_videos]
    fail as a whole, with the [KeyError], [IndexError] or [TypeError] of
    its lookup, and no identifier of the page is returned. *)
Theorem extract_videos_bad_item raw payload videos good paths x rest c e :
  json_loads raw = Ok payload ->
  resolve_videos payload = Ok (Some videos) ->
  split_continuation videos = Ok (JList (good ++ x :: rest), c) ->
  Forall2 (fun a p => watch_path repr a = Ok p) good paths ->
  watch_path repr x = Err e ->
  _extract_videos json_loads repr raw = Err e /\ shape_error e = true.
Proof.
  intros Hload Hres Hsplit Hgood Hx. split.
  - unfold _extract_videos, extract_videos_of. rewrite Hload. cbn [rbind].
    rewrite Hres. cbn [rbind]. rewrite Hsplit. cbn [rbind iterate].
    rewrite (map_result_error _ _ _ _ _ _ Hgood Hx). reflexivity.
  - eapply watch_path_error, Hx.
Qed.

Lemma map_result_Forall {A B : Type} (f : A -> result B) (P : B -> Prop) :
  (forall a b, f a = Ok b -> P b) ->
  forall l ps, map_result f l = Ok ps -> Forall P ps.
Proof.
  intros Hf. induction l as [|a l IH]; intros ps; simpl.
  - intros H. inversion H. constructor.
  - destruct (f a) as [b|e] eqn:Ea; simpl; [|discriminate].
    destruct (map_result f l) as [bs|e] eqn:El; simpl; [|discriminate].
    intros H. inversion H; subst. constructor; eauto.
Qed.

Lemma extract_videos_paths_form raw videos_urls continuation :
  _extract_videos json_loads repr raw = Ok (videos_urls, continuation) ->
  Forall (fun u => exists id, u = watch_id_path id) videos_urls.
Proof.
  unfold _extract_videos, extract_videos_of.
  destruct (json_loads raw) as [payload|e]; cbn [rbind]; [|discriminate].
  destruct (resolve_videos payload) as [[videos|]|e]; cbn [rbind];
    [| |discriminate].
  - destruct (split_continuation videos) as [[videos' c]|e]; cbn [rbind];
      [|discriminate].
    destruct (iterate videos') as [items|e]; cbn [rbind]; [|discriminate].
    destruct (map_result (watch_path repr) items) as [paths|e] eqn:E;
      cbn [rbind]; [|discriminate].
    intros H. inversion H; subst.
    assert (Hp : Forall (fun u => exists id, u = watch_id_path id) paths).
    { eapply map_result_Forall; [|exact E].
      intros a b. unfold watch_path.
      destruct (getpath a [Key "playlistVideoRenderer"; Key "videoId"])
        as [id|e0]; simpl; [|discriminate].
      intros Hb. inversion Hb. exists (format repr id). reflexivity. }
    rewrite Forall_forall in Hp |- *.
    intros u Hu. apply Hp. apply uniqueify_In. exact Hu.
  - intros H. inversion H. constructor.
Qed.

(** X14. Every identifier that [_extract_videos] returns has the form
    [/watch?v=<id>], and no identifier is returned twice. *)
Theorem extract_videos_watch_paths raw videos_urls continuation :
  _extract_videos json_loads repr raw = Ok (videos_urls, continuation) ->
  Forall (fun u => exists id, u = watch_id_path id) videos_urls
  /\ NoDup videos_urls.
Proof.
  intros H. split.
  - eapply extract_videos_paths_form, H.
  - eapply extract_videos_NoDup, H.
Qed.

End ExtractMore.

Lemma extract_videos_submenu_witness :
  resolve_videos
    (html_page_of_sections
       [video_section [video_item "a"; continuation_marker "t"]])
  = Ok (Some (JList [video_item "a"; continuation_marker "t"]))
  /\ resolve_videos
       (html_page_of_sections
          [obj1 "itemSectionRenderer"
             (obj1 "contents"
                (JList [obj1 "playlistShowMetadataRenderer" JNull]));
           video_section [video_item "a"; continuation_marker "t"]])
     = Ok (Some (JList [video_item "a"; continuation_marker "t"]))
  /\ extract_videos_of simple_dumps
       (html_page_of_sections
          [obj1 "itemSectionRenderer"
             (obj1 "contents"
                (JList [obj1 "playlistShowMetadataRenderer" JNull]));
           video_section [video_item "a"; continuation_marker "t"]])
     = extract_videos_of simple_dumps
         (html_page_of_sections
            [video_section [video_item "a"; continuation_marker "t"]]).
Proof.
  apply (extract_videos_submenu simple_dumps
           (html_page_of_sections
              [video_section [video_item "a"; continuation_marker "t"]])
           (html_page_of_sections
              [obj1 "itemSectionRenderer"
                 (obj1 "contents"
                    (JList [obj1 "playlistShowMetadataRenderer" JNull]));
               video_section [video_item "a"; continuation_marker "t"]])
           (obj1 "itemSectionRenderer"
              (obj1 "contents"
                 (JList [obj1 "playlistShowMetadataRenderer" JNull])))
           (video_section [video_item "a"; continuation_marker "t"])
           [] []
           (obj1 "contents" (JList [video_item "a"; continuation_marker "t"]))
           (JList [video_item "a"; continuation_marker "t"]) KeyError);
    reflexivity.
Defined.

Lemma extract_videos_bad_item_witness :
  _extract_videos
    (loads_among [continuation_page [video_item "a"; JObj []; video_item "b"]])
    simple_dumps
    (simple_dumps (continuation_page [video_item "a"; JObj []; video_item "b"]))
  = Err KeyError
  /\ shape_error KeyError = true.
Proof.
  apply (extract_videos_bad_item
           (loads_among
              [continuation_page [video_item "a"; JObj []; video_item "b"]])
           simple_dumps
           (simple_dumps
              (continuation_page [video_item "a"; JObj []; video_item "b"]))
           (continuation_page [video_item "a"; JObj []; video_item "b"])
           (JList [video_item "a"; JObj []; video_item "b"])
           [video_item "a"] ["/watch?v=a"] (JObj []) [video_item "b"] JNull
           KeyError).
  - reflexivity.
  - reflexivity.
  - reflexivity.
  - repeat constructor.
  - reflexivity.
Defined.

Lemma extract_videos_watch_paths_witness :
  Forall (fun u => exists id, u = watch_id_path id)
    ["/watch?v=a"; "/watch?v=b"]
  /\ NoDup ["/watch?v=a"; "/watch?v=b"].
Proof.
  apply (extract_videos_watch_paths (loads_among [page_one]) simple_dumps
           (simple_dumps page_one) ["/watch?v=a"; "/watch?v=b"] (JStr "t1")).
  reflexivity.
Defined.

(** ** [_paginate], the [html] cache and [video_urls] *)

Lemma Forall_firstn {A : Type} (P : A -> Prop) (n : nat) (l : list A) :
  Forall P l -> Forall P (firstn n l).
Proof.
  intros H. rewrite <- (firstn_skipn n l) in H.
  apply Forall_app in H. tauto.
Qed.

Lemma yields_flatten_pages t :
  yields (flatten_pages t) = map _video_url (List.concat (yields t)).
Proof.
  induction t as [|ev t IH]; simpl; [reflexivity|].
  destruct ev as [m u h d|page]; simpl; [exact IH|].
  rewrite yields_app, map_app, IH. f_equal.
  induction page as [|vid page IHp]; simpl; [reflexivity|].
  rewrite IHp. reflexivity.
Qed.

Lemma requests_flatten_pages t : requests (flatten_pages t) = requests t.
Proof.
  induction t as [|ev t IH]; simpl; [reflexivity|].
  destruct ev as [m u h d|page]; simpl; [rewrite IH; reflexivity|].
  rewrite requests_app, IH.
  replace (requests (map (fun vid => Yield (_video_url vid)) page))
    with (@nil (string * string)); [reflexivity|].
  induction page; simpl; auto.
Qed.

Section PaginateMore.

Context {World : Type}.
Variable session : Session World.
Variable cookie : string.
Variable json_loads : string -> result json.
Variable json_dumps : json -> string.
Variable extract : extract_module.
Variable repr : json -> string.

(** X15. When the first page has no continuation, that is [None], an
    empty token or any other false value, [_paginate] yields that one page,
    trimmed at the stop identifier if it holds it, sends nothing beyond the
    requests of [html], and returns. *)
Theorem paginate_single_page
  fuel until_watch_id ws t ws1 h initial videos_urls continuation :
  html session cookie extract ws = (t, ws1, Return h) ->
  initial_data_of extract h = Ok initial ->
  _extract_videos json_loads repr (json_dumps initial)
  = Ok (videos_urls, continuation) ->
  truthy continuation = false ->
  _paginate session cookie json_loads json_dumps extract repr fuel
    until_watch_id ws
  = (t ++ [Yield match trim_index until_watch_id videos_urls with
                 | Some i => firstn i videos_urls
                 | None => videos_urls
                 end],
     ws1, Return tt).
Proof.
  intros Hhtml Hinit Hextract Hc.
  unfold _paginate. unfold bind at 1. rewrite Hhtml.
  unfold bind at 1. rewrite Hinit. cbn [lift ret].
  unfold bind at 1. rewrite Hextract. cbn [lift ret].
  destruct (trim_index until_watch_id videos_urls) as [i|].
  - reflexivity.
  - unfold bind, yield, next_request. rewrite Hc. cbn [ret].
    destruct fuel; reflexivity.
Qed.

(** X16. [html] is fetched once: after a call that returned a non-empty
    page, a further call returns the same page from the object, sends no
    request and changes nothing. *)
Theorem html_cached (ws ws1 : World * Playlist) t h :
  html (Y:=list string) session cookie extract ws = (t, ws1, Return h) ->
  h <> "" ->
  html (Y:=list string) session cookie extract ws1 = ([], ws1, Return h).
Proof.
  intros Hrun Hne.
  assert (Ht : str_truthy h = true).
  { unfold str_truthy. destruct (String.eqb_spec h ""); [contradiction|].
    reflexivity. }
  assert (Hhit : forall (ws' : World * Playlist),
            _html (snd ws') = Some h ->
            html (Y:=list string) session cookie extract ws'
            = ([], ws', Return h)).
  { intros ws' E. unfold html, bind, get_self. cbn [fst snd].
    rewrite E, Ht. reflexivity. }
  assert (Hfetch : forall (ws' : World * Playlist) t' ws1',
            fetch_html (Y:=list string) session cookie extract ws'
            = (t', ws1', Return h) ->
            _html (snd ws1') = Some h).
  { intros ws' t' ws1'. unfold fetch_html. unfold bind at 1.
    destruct (playlist_url (Y:=list string) extract ws')
      as [[t0 ws0] o0].
    destruct o0 as [u|e|]; try discriminate.
    unfold bind at 1.
    destruct (on_session (get session cookie u None 900) ws0)
      as [[t2 ws2] o2].
    destruct o2 as [h2|e|]; try discriminate.
    unfold bind, get_self, set_self, ret. cbn [fst snd].
    intros H. inversion H; subst. reflexivity. }
  apply Hhit.
  revert Hrun. unfold html at 1. unfold bind at 1, get_self at 1.
  cbn [fst snd].
  destruct (_html (snd ws)) as [h0|] eqn:E0.
  - destruct (str_truthy h0) eqn:T0.
    + unfold ret. intros H. inversion H; subst. exact E0.
    + destruct (fetch_html (Y:=list string) session cookie extract ws)
        as [[t' ws1'] o'] eqn:F.
      intros H. simpl in H. inversion H; subst.
      eapply Hfetch, F.
  - destruct (fetch_html (Y:=list string) session cookie extract ws)
      as [[t' ws1'] o'] eqn:F.
    intros H. simpl in H. inversion H; subst.
    eapply Hfetch, F.
Qed.

Lemma paginate_loop_watch_paths until_watch_id :
  forall fuel next,
    yields_all (Forall (fun u => exists id, u = watch_id_path id))
      (paginate_loop session cookie json_loads extract repr fuel
         until_watch_id next).
Proof.
  induction fuel as [|f IH]; intros next; simpl.
  - destruct (more_to_load next) as [[[u h] d]|]; auto with gen.
  - destruct (more_to_load next) as [[[u h] d]|]; auto with gen.
    apply yields_all_bind.
    { apply on_session_yields_all, quiet_yields_all, post_quiet. }
    intros req. apply yields_all_bind_lift.
    intros [videos_urls continuation] Hx.
    apply extract_videos_paths_form in Hx.
    destruct (trim_index until_watch_id videos_urls) as [i|].
    + apply yields_all_yield, Forall_firstn, Hx.
    + apply yields_all_bind; [apply yields_all_yield, Hx|intros _].
      apply yields_all_bind; [|intros; apply IH].
      apply quiet_yields_all, next_request_quiet.
Qed.

Lemma paginate_watch_paths fuel until_watch_id :
  yields_all (Forall (fun u => exists id, u = watch_id_path id))
    (_paginate session cookie json_loads json_dumps extract repr fuel
       until_watch_id).
Proof.
  unfold _paginate.
  apply yields_all_bind; [apply quiet_yields_all, html_quiet|intros h].
  apply yields_all_bind; [auto with gen|intros initial].
  apply yields_all_bind_lift.
  intros [videos_urls continuation] Hx.
  apply extract_videos_paths_form in Hx.
  destruct (trim_index until_watch_id videos_urls) as [i|].
  - apply yields_all_yield, Forall_firstn, Hx.
  - apply yields_all_bind; [apply yields_all_yield, Hx|intros _].
    apply yields_all_bind; [|intros; apply paginate_loop_watch_paths].
    apply quiet_yields_all, next_request_quiet.
Qed.

(** X17. [video_urls] sends the requests of [_paginate] and yields, page
    after page and in order, the url of each identifier that [_paginate]
    yields; every url it yields has the form
    [https://www.youtube.com/watch?v=<id>]. *)
Theorem video_urls_of_pages fuel ws :
  let run :=
    video_urls session cookie json_loads json_dumps extract repr fuel ws in
  let pages :=
    _paginate session cookie json_loads json_dumps extract repr fuel None
      ws in
  yields (fst (fst run))
  = map _video_url (List.concat (yields (fst (fst pages))))
  /\ requests (fst (fst run)) = requests (fst (fst pages))
  /\ snd run = snd pages
  /\ Forall
       (fun url =>
          exists id, url = ("https://www.youtube.com/watch?v=" ++ id)%string)
       (yields (fst (fst run))).
Proof.
  cbv zeta. unfold video_urls.
  pose proof (paginate_watch_paths fuel None ws) as Hp.
  destruct (_paginate session cookie json_loads json_dumps extract repr fuel
              None ws) as [[t ws1] o].
  cbn [fst snd] in *.
  split; [apply yields_flatten_pages|].
  split; [apply requests_flatten_pages|].
  split; [reflexivity|].
  rewrite yields_flatten_pages.
  induction Hp as [|page pages Hpage _ IH]; simpl; [constructor|].
  rewrite map_app. apply Forall_app. split; [|exact IH].
  clear IH. induction Hpage as [|u page [id ->] _ IHp]; simpl; constructor.
  - exists id. reflexivity.
  - exact IHp.
Qed.

End PaginateMore.

Lemma paginate_single_page_witness :
  paginate_pages page_three [] 0 (Some "f")
  = ([Request "GET" "https://www.youtube.com/playlist?list=PL1"
        (base_headers "") None]
     ++ [Yield match trim_index (Some "f") ["/watch?v=f"] with
               | Some i => firstn i ["/watch?v=f"]
               | None => ["/watch?v=f"]
               end],
     (O, {| _input_url := "https://www.youtube.com/playlist?list=PL1";
            _html := Some "<html>"; _ytcfg := None;
            _playlist_id := Some "PL1" |}),
     Return tt).
Proof.
  apply (paginate_single_page (playlist_server "<html>" []) ""
           (loads_among [page_three]) simple_dumps (simple_extract page_three)
           simple_dumps 0 (Some "f")
           (O, new_playlist "https://www.youtube.com/playlist?list=PL1")
           _ _ "<html>" page_three ["/watch?v=f"] JNull).
  - reflexivity.
  - reflexivity.
  - reflexivity.
  - reflexivity.
Defined.

Lemma html_cached_witness :
  html (Y:=list string) (playlist_server "<html>" []) ""
    (simple_extract page_three)
    (O, {| _input_url := "https://www.youtube.com/playlist?list=PL1";
           _html := Some "<html>"; _ytcfg := None;
           _playlist_id := Some "PL1" |})
  = ([], (O, {| _input_url := "https://www.youtube.com/playlist?list=PL1";
                _html := Some "<html>"; _ytcfg := None;
                _playlist_id := Some "PL1" |}),
     Return "<html>").
Proof.
  apply (html_cached (playlist_server "<html>" []) ""
           (simple_extract page_three)
           (O, new_playlist "https://www.youtube.com/playlist?list=PL1")
           _
           [Request "GET" "https://www.youtube.com/playlist?list=PL1"
              (base_headers "") None]
           "<html>").
  - reflexivity.
  - discriminate.
Defined.

(** ** The headers of a request *)

Lemma execute_request_trace {World Y : Type} (session : Session World)
  cookie url method hdrs data timeout (w : World) :
  let t :=
    fst (fst (_execute_request (Y:=Y) session cookie url method hdrs data
                timeout w)) in
  (Py.startswith (Py.lower url) "http" = true ->
   t = [Request method url (request_headers cookie hdrs) data])
  /\ (Py.startswith (Py.lower url) "http" = false -> t = []).
Proof.
  cbv zeta. unfold _execute_request.
  destruct (Py.startswith (Py.lower url) "http").
  - split; [intros _|discriminate].
    destruct (request session w method url (request_headers cookie hdrs) data)
      as [[resp|[|reason|name]] w1]; simpl;
      try (destruct (status resp =? 400)); reflexivity.
  - split; [discriminate|reflexivity].
Qed.

Lemma execute_request_Forall {World Y : Type} (session : Session World)
  (P : event Y -> Prop) cookie url method hdrs data timeout (w : World) :
  P (Request method url (request_headers cookie hdrs) data) ->
  Forall P
    (fst (fst (_execute_request (Y:=Y) session cookie url method hdrs data
                 timeout w))).
Proof.
  intros HP.
  destruct (execute_request_trace (Y:=Y) session cookie url method hdrs data
              timeout w) as [H1 H0].
  destruct (Py.startswith (Py.lower url) "http").
  - rewrite (H1 eq_refl). constructor; [exact HP|constructor].
  - rewrite (H0 eq_refl). constructor.
Qed.

(** X18. A request to an [http] url is sent once, with the method, url
    and body given, and with the base headers updated by the caller's
    headers: under every name the value sent is the caller's when the
    caller gives one, and the base header's otherwise. *)
Theorem execute_request_headers {World Y : Type} (session : Session World)
  cookie url method hdrs data timeout (w : World) :
  Py.startswith (Py.lower url) "http" = true ->
  exists sent,
    fst (fst (_execute_request (Y:=Y) session cookie url method (Some hdrs)
                data timeout w))
    = [Request method url sent data]
    /\ forall name,
         dict_get sent name
         = match last_value hdrs name with
           | Some v => Some v
           | None => dict_get (base_headers cookie) name
           end.
Proof.
  intros Hurl. exists (request_headers cookie (Some hdrs)). split.
  - apply (proj1 (execute_request_trace session cookie url method (Some hdrs)
                    data timeout w)). exact Hurl.
  - intros name. destruct hdrs as [|kv hdrs]; [reflexivity|].
    unfold request_headers, dict_update, last_value.
    rewrite dict_get_of_pairs.
    generalize (kv :: hdrs). intros l.
    generalize (dict_get (base_headers cookie) name). intros base.
    assert (H : forall acc0 acc1,
              match acc1 with Some v => Some v | None => base end = acc0 ->
              fold_left
                (fun acc kv0 => if (fst kv0 =? name)%string
                                then Some (snd kv0) else acc) l acc0
              = match
                  fold_left
                    (fun acc kv0 => if (fst kv0 =? name)%string
                                    then Some (snd kv0) else acc) l acc1
                with
                | Some v => Some v
                | None => base
                end).
    { induction l as [|[k v] l IH]; intros acc0 acc1 E; simpl.
      - symmetry. exact E.
      - apply IH. destruct (k =? name)%string; [reflexivity|exact E]. }
    apply H. reflexivity.
Qed.

Lemma execute_request_headers_witness :
  exists sent,
    fst (fst (_execute_request (Y:=unit) (file_server hello) "c"
                "http://h/v" "GET"
                (Some [("Range", "bytes=0-3"); ("Cookie", "mine")]) None 900
                tt))
    = [Request "GET" "http://h/v" sent None]
    /\ forall name,
         dict_get sent name
         = match last_value [("Range", "bytes=0-3"); ("Cookie", "mine")] name
           with
           | Some v => Some v
           | None => dict_get (base_headers "c") name
           end.
Proof.
  apply (execute_request_headers (Y:=unit) (file_server hello) "c"
           "http://h/v" "GET" [("Range", "bytes=0-3"); ("Cookie", "mine")]
           None 900 tt).
  reflexivity.
Defined.

(** ** The requests of [_paginate] *)

Lemma trace_all_bind {W Y A B : Type} (P : event Y -> Prop)
  (m : Gen W Y A) (k : A -> Gen W Y B) :
  trace_all P m ->
  (forall x w t w1, m w = (t, w1, Return x) -> trace_all P (k x)) ->
  trace_all P (bind m k).
Proof.
  intros Hm Hk w. apply bind_trace_Forall; [apply Hm|].
  intros x w1 t E. eapply Hk; eassumption.
Qed.

Lemma trace_all_ret {W Y X : Type} (P : event Y -> Prop) (x : X) :
  trace_all P (ret (W:=W) x).
Proof. intros w. constructor. Qed.

Lemma trace_all_lift {W Y X : Type} (P : event Y -> Prop) (r : result X) :
  trace_all P (lift (W:=W) r).
Proof. destruct r; intros w; constructor. Qed.

Section PaginateRequests.

Context {World : Type}.
Variable session : Session World.
Variable cookie : string.
Variable json_loads : string -> result json.
Variable json_dumps : json -> string.
Variable extract : extract_module.
Variable repr : json -> string.

Lemma on_session_trace_all {Y X : Type} (P : event Y -> Prop)
  (m : Gen World Y X) :
  trace_all P m -> trace_all P (on_session m).
Proof.
  intros H ws. unfold on_session. specialize (H (fst ws)).
  destruct (m (fst ws)) as [[t w1] o]. exact H.
Qed.

Lemma get_trace_all url :
  trace_all paginate_request_ok
    (get (Y:=list string) session cookie url None 900).
Proof.
  unfold get. cbv beta iota zeta.
  apply trace_all_bind; [|intros; apply trace_all_ret].
  intros w. apply execute_request_Forall. left. auto.
Qed.

Lemma post_trace_all url hdrs data :
  next_request_ok (Some (url, hdrs, data)) ->
  trace_all paginate_request_ok
    (post (Y:=list string) session cookie url (Some hdrs) (Some data) 900).
Proof.
  intros Hok. unfold post. cbv beta iota zeta.
  apply trace_all_bind; [|intros; apply trace_all_ret].
  intros w. apply execute_request_Forall.
  right. simpl in Hok. destruct Hok as [Hkey (token & Ht & ->)].
  split; [reflexivity|]. split; [exact Hkey|]. exists token. auto.
Qed.

Lemma html_trace_all :
  trace_all paginate_request_ok
    (html (Y:=list string) session cookie extract).
Proof.
  assert (Hid : trace_all paginate_request_ok
                  (playlist_id (World:=World) (Y:=list string) extract)).
  { intros ws. unfold playlist_id, bind, get_self. cbn [fst snd].
    destruct (_playlist_id (snd ws)) as [id|];
      [destruct (str_truthy id)|]; simpl;
      try destruct (playlist_id_of extract (_input_url (snd ws)));
      simpl; constructor. }
  assert (Hfetch : trace_all paginate_request_ok
                     (fetch_html (Y:=list string) session cookie extract)).
  { unfold fetch_html, playlist_url.
    apply trace_all_bind.
    - apply trace_all_bind; [exact Hid|intros; apply trace_all_ret].
    - intros url _ _ _ _. apply trace_all_bind.
      + apply on_session_trace_all, get_trace_all.
      + intros h _ _ _ _ ws. constructor. }
  intros ws. unfold html, bind, get_self. cbn [fst snd].
  destruct (_html (snd ws)) as [h|]; [destruct (str_truthy h)|].
  - constructor.
  - specialize (Hfetch ws).
    destruct (fetch_html session cookie extract ws) as [[t ws1] o].
    destruct o; simpl in *; rewrite ?app_nil_l; exact Hfetch.
  - specialize (Hfetch ws).
    destruct (fetch_html session cookie extract ws) as [[t ws1] o].
    destruct o; simpl in *; rewrite ?app_nil_l; exact Hfetch.
Qed.

Lemma yt_api_key_trace_all :
  trace_all paginate_request_ok
    (yt_api_key (Y:=list string) session cookie extract).
Proof.
  assert (Hfetch : trace_all paginate_request_ok
                     (fetch_ytcfg (Y:=list string) session cookie extract)).
  { unfold fetch_ytcfg.
    apply trace_all_bind; [apply html_trace_all|].
    intros h _ _ _ _. apply trace_all_bind; [apply trace_all_lift|].
    intros cfg _ _ _ _ ws. constructor. }
  unfold yt_api_key.
  apply trace_all_bind; [|intros; apply trace_all_lift].
  intros ws. unfold ytcfg, bind, get_self. cbn [fst snd].
  destruct (_ytcfg (snd ws)) as [cfg|]; [destruct (truthy cfg)|].
  - constructor.
  - specialize (Hfetch ws).
    destruct (fetch_ytcfg session cookie extract ws) as [[t ws1] o].
    destruct o; simpl in *; rewrite ?app_nil_l; exact Hfetch.
  - specialize (Hfetch ws).
    destruct (fetch_ytcfg session cookie extract ws) as [[t ws1] o].
    destruct o; simpl in *; rewrite ?app_nil_l; exact Hfetch.
Qed.

Lemma next_request_trace_all continuation :
  trace_all paginate_request_ok
    (next_request (Y:=list string) session cookie extract repr continuation).
Proof.
  unfold next_request, _build_continuation_url.
  destruct (truthy continuation); [|apply trace_all_ret].
  apply trace_all_bind; [|intros; apply trace_all_ret].
  apply trace_all_bind; [apply yt_api_key_trace_all|].
  intros; apply trace_all_ret.
Qed.

Lemma next_request_result continuation ws t ws1 next :
  next_request (Y:=list string) session cookie extract repr continuation ws
  = (t, ws1, Return next) ->
  next_request_ok next.
Proof.
  unfold next_request, _build_continuation_url.
  destruct (truthy continuation) eqn:Hc.
  - unfold bind.
    destruct (yt_api_key (Y:=list string) session cookie extract ws)
      as [[t0 ws0] o0].
    destruct o0 as [key|e|]; simpl; try discriminate.
    intros H. inversion H; subst. simpl. split.
    + exists (format repr key). reflexivity.
    + exists continuation. split; [exact Hc|reflexivity].
  - intros H. inversion H. exact I.
Qed.

Lemma more_to_load_ok next u h d :
  next_request_ok next ->
  more_to_load next = Some (u, h, d) ->
  next_request_ok (Some (u, h, d)).
Proof.
  unfold more_to_load. destruct next as [[[u0 h0] d0]|]; [|discriminate].
  destruct (str_truthy u0 && match h0 with [] => false | _ :: _ => true end
            && truthy d0)%bool; [|discriminate].
  intros Hok H. inversion H; subst. exact Hok.
Qed.

Lemma paginate_loop_requests until_watch_id :
  forall fuel next,
    next_request_ok next ->
    trace_all paginate_request_ok
      (paginate_loop session cookie json_loads extract repr fuel
         until_watch_id next).
Proof.
  induction fuel as [|f IH]; intros next Hnext; simpl.
  - destruct (more_to_load next) as [[[u h] d]|]; intros ws; constructor.
  - destruct (more_to_load next) as [[[u h] d]|] eqn:E;
      [|intros ws; constructor].
    apply trace_all_bind.
    { apply on_session_trace_all, post_trace_all.
      eapply more_to_load_ok; eassumption. }
    intros req _ _ _ _. apply trace_all_bind; [apply trace_all_lift|].
    intros [videos_urls continuation] _ _ _ _.
    destruct (trim_index until_watch_id videos_urls) as [i|].
    + intros ws. simpl. constructor; [exact I|constructor].
    + apply trace_all_bind.
      { intros ws. simpl. constructor; [exact I|constructor]. }
      intros _ _ _ _ _. apply trace_all_bind.
      * apply next_request_trace_all.
      * intros nxt ws t ws1 Hn. apply IH.
        eapply next_request_result, Hn.
Qed.

(** X19. Whatever the pages hold, [_paginate] only sends [GET] requests
    without a body and [POST] requests to
    [https://www.youtube.com/youtubei/v1/browse?key=<key>] whose body is the
    continuation body of a token that is not false. *)
Theorem paginate_requests fuel until_watch_id ws :
  Forall paginate_request_ok
    (fst (fst (_paginate session cookie json_loads json_dumps extract repr
                 fuel until_watch_id ws))).
Proof.
  revert ws.
  change (trace_all paginate_request_ok
            (_paginate session cookie json_loads json_dumps extract repr fuel
               until_watch_id)).
  unfold _paginate.
  apply trace_all_bind; [apply html_trace_all|]. intros h _ _ _ _.
  apply trace_all_bind; [apply trace_all_lift|]. intros initial _ _ _ _.
  apply trace_all_bind; [apply trace_all_lift|].
  intros [videos_urls continuation] _ _ _ _.
  destruct (trim_index until_watch_id videos_urls) as [i|].
  - intros ws. simpl. constructor; [exact I|constructor].
  - apply trace_all_bind.
    { intros ws. simpl. constructor; [exact I|constructor]. }
    intros _ _ _ _ _. apply trace_all_bind.
    + apply next_request_trace_all.
    + intros nxt ws t ws1 Hn. apply paginate_loop_requests.
      eapply next_request_result, Hn.
Qed.

End PaginateRequests.
